(** * Checkers engine: board, capture search, turn logic and minimax

    A shallow embedding of [main.py] and [minimax.py].  Python objects are
    modelled by values: a piece is the record of its fields, a board is the
    grid plus its four counters, and an in-place mutation returns the new
    value.  The identity of a piece object is represented by its field
    values; the two agree on every grid in which a piece sits in the slot
    its own [row] and [col] name (predicate [coherent] below), which is the
    case for every grid the program builds.  Drawing, the window and the
    frame rate are left out, and the events of the window are an input of
    the loop of [run]; the screen coordinates of a piece are a function of
    its row and column and are not stored.  Scores are exact
    rationals where Python uses floats. *)

From Stdlib Require Import String ZArith QArith List Bool Lia.
Import ListNotations.
Local Close Scope Q_scope.
Local Open Scope Z_scope.

(** ** Exceptions and results *)

Inductive exn : Type :=
| IndexError
| AttributeError
| KeyError
| RecursionError.

Inductive result (A : Type) : Type :=
| Ok (a : A)
| Raise (e : exn).
Arguments Ok {A} a.
Arguments Raise {A} e.

Definition bind {A B : Type} (m : result A) (k : A -> result B) : result B :=
  match m with
  | Ok a => k a
  | Raise e => Raise e
  end.

Notation "x <- m ;; k" := (bind m (fun x => k))
  (at level 61, m at next level, right associativity).
Notation "' pat <- m ;; k" := (bind m (fun x => match x with pat => k end))
  (at level 61, pat pattern, m at next level, right associativity).

(** Depth of recursion the interpreter allows before [RecursionError]. *)
Definition recursion_limit : nat := 1000.

(** ** Python lists *)

(** [l[i]]: a negative index counts from the end. *)
Definition py_index {A : Type} (l : list A) (i : Z) : option nat :=
  let n := Z.of_nat (length l) in
  if (0 <=? i) && (i <? n) then Some (Z.to_nat i)
  else if (i <? 0) && (0 <=? i + n) then Some (Z.to_nat (i + n))
  else None.

Definition py_get {A : Type} (l : list A) (i : Z) : result A :=
  match py_index l i with
  | Some k => match nth_error l k with
              | Some x => Ok x
              | None => Raise IndexError
              end
  | None => Raise IndexError
  end.

Fixpoint list_set {A : Type} (l : list A) (k : nat) (x : A) : list A :=
  match l, k with
  | [], _ => []
  | _ :: t, O => x :: t
  | h :: t, S k' => h :: list_set t k' x
  end.

(** [l[i] = x] *)
Definition py_set {A : Type} (l : list A) (i : Z) (x : A) : result (list A) :=
  match py_index l i with
  | Some k => Ok (list_set l k x)
  | None => Raise IndexError
  end.

(** [g[r][c]] and [g[r][c] = x] on a list of lists. *)
Definition grid_get {A : Type} (g : list (list A)) (r c : Z) : result A :=
  line <- py_get g r ;; py_get line c.

Definition grid_set {A : Type} (g : list (list A)) (r c : Z) (x : A)
  : result (list (list A)) :=
  line <- py_get g r ;;
  line' <- py_set line c x ;;
  py_set g r line'.

Fixpoint iota (start step : Z) (n : nat) : list Z :=
  match n with
  | O => []
  | S n' => start :: iota (start + step) step n'
  end.

(** [range(start, stop, step)]; every call in the program passes a step of
    1 or -1. *)
Definition py_range (start stop step : Z) : list Z :=
  if 0 <? step then iota start step (Z.to_nat ((stop - start + step - 1) / step))
  else if step <? 0 then iota start step (Z.to_nat ((start - stop - step - 1) / (- step)))
  else [].

(** ** constants.py *)

Definition BOARD_OFFSET : Z := 100.
Definition BOARD_WIDTH : Z := 1000.
Definition ROWS : Z := 8.
Definition COLS : Z := 8.
Definition SQUARE_SIZE : Z := BOARD_WIDTH / COLS.

Inductive Color : Type := WHITE | BLACK.

Definition color_eqb (a b : Color) : bool :=
  match a, b with
  | WHITE, WHITE | BLACK, BLACK => true
  | _, _ => false
  end.

(** ** class Piece *)

Module Piece.

Record t : Type := mk { row : Z; col : Z; color : Color; king : bool }.

Definition init (row col : Z) (color : Color) : t := mk row col color false.

Definition elevate_to_king (p : t) : t := mk (row p) (col p) (color p) true.

Definition move (p : t) (row col : Z) : t := mk row col (color p) (king p).

(** The pair [(x, y)] that [calculate_position] stores in the piece: a
    function of [col] and [row], kept out of the record. *)
Definition calculate_position (p : t) : Z * Z :=
  (SQUARE_SIZE * col p + SQUARE_SIZE / 8 + BOARD_OFFSET,
   SQUARE_SIZE * row p + SQUARE_SIZE / 8 + BOARD_OFFSET).

Definition eqb (p q : t) : bool :=
  (row p =? row q) && (col p =? col q) && color_eqb (color p) (color q)
  && Bool.eqb (king p) (king q).

End Piece.

(** A slot of the grid: the integer 0 or a piece. *)
Inductive cell : Type :=
| Empty
| Occ (p : Piece.t).

Definition cell_eqb (a b : cell) : bool :=
  match a, b with
  | Empty, Empty => true
  | Occ p, Occ q => Piece.eqb p q
  | _, _ => false
  end.

(** [current in skipped] *)
Definition cell_in (current : cell) (skipped : list Piece.t) : bool :=
  match current with
  | Empty => false
  | Occ p => existsb (Piece.eqb p) skipped
  end.

(** ** Dictionaries keyed by board positions

    Python dictionaries keep insertion order and one entry per key. *)

Definition pos : Type := (Z * Z)%type.

Definition pos_eqb (a b : pos) : bool :=
  (fst a =? fst b) && (snd a =? snd b).

Definition moves_t : Type := list (pos * list Piece.t).

Fixpoint dict_set (d : moves_t) (k : pos) (v : list Piece.t) : moves_t :=
  match d with
  | [] => [(k, v)]
  | (k', v') :: d' =>
      if pos_eqb k' k then (k', v) :: d' else (k', v') :: dict_set d' k v
  end.

Fixpoint dict_get (d : moves_t) (k : pos) : option (list Piece.t) :=
  match d with
  | [] => None
  | (k', v') :: d' => if pos_eqb k' k then Some v' else dict_get d' k
  end.

(** [d[k]] *)
Definition dict_lookup (d : moves_t) (k : pos) : result (list Piece.t) :=
  match dict_get d k with
  | Some v => Ok v
  | None => Raise KeyError
  end.

(** [k in d] *)
Definition dict_mem (d : moves_t) (k : pos) : bool :=
  match dict_get d k with
  | Some _ => true
  | None => false
  end.

(** [d.update(o)] *)
Definition dict_update (d o : moves_t) : moves_t :=
  fold_left (fun acc kv => dict_set acc (fst kv) (snd kv)) o d.

Definition nonempty {A : Type} (l : list A) : bool :=
  match l with
  | [] => false
  | _ :: _ => true
  end.

(** ** Scores: floats restricted to the values the search produces *)

Inductive score : Type :=
| NegInf
| Fin (q : Q)
| PosInf.

Definition score_leb (a b : score) : bool :=
  match a, b with
  | NegInf, _ => true
  | _, PosInf => true
  | Fin x, Fin y => Qle_bool x y
  | _, _ => false
  end.

Definition score_max (a b : score) : score := if score_leb b a then a else b.
Definition score_min (a b : score) : score := if score_leb a b then a else b.

(** ** class Board *)

Inductive side : Type := SLeft | SRight.

Module Board.

Record t : Type := mk {
  board : list (list cell);
  black_left : Z;
  white_left : Z;
  black_kings : Z;
  white_kings : Z
}.

Definition with_board (b : t) (g : list (list cell)) : t :=
  mk g (black_left b) (white_left b) (black_kings b) (white_kings b).

(** [create_board]: one slot of the starting position. *)
Definition start_cell (row column : Z) : cell :=
  if column mod 2 =? (row + 1) mod 2 then
    if row <=? 2 then Occ (Piece.init row column BLACK)
    else if 5 <=? row then Occ (Piece.init row column WHITE)
    else Empty
  else Empty.

Definition create_board : list (list cell) :=
  map (fun row => map (fun column => start_cell row column)
                      (py_range 0 COLS 1))
      (py_range 0 ROWS 1).

Definition init : t := mk create_board 12 12 0 0.

Definition evaluate (b : t) : Q :=
  ((inject_Z (black_left b) + (1 # 2) * inject_Z (black_kings b))
   - (inject_Z (white_left b) + (1 # 2) * inject_Z (white_kings b)))%Q.

Definition get_all_pieces (b : t) (color : Color) : list Piece.t :=
  flat_map
    (fun line =>
       flat_map
         (fun piece =>
            match piece with
            | Empty => []
            | Occ p => if color_eqb (Piece.color p) color then [p] else []
            end)
         line)
    (board b).

Definition get_piece (b : t) (row col : Z) : result cell :=
  grid_get (board b) row col.

(** The piece object is shared between the caller and the grid: after it
    is mutated, every slot that holds it shows the new fields. *)
Definition rebind (g : list (list cell)) (old new : Piece.t) : list (list cell) :=
  map (map (fun c => if cell_eqb c (Occ old) then Occ new else c)) g.

Definition move (b : t) (piece : Piece.t) (row col : Z) : result (t * Piece.t) :=
  there <- grid_get (board b) row col ;;
  here <- grid_get (board b) (Piece.row piece) (Piece.col piece) ;;
  g <- grid_set (board b) (Piece.row piece) (Piece.col piece) there ;;
  g <- grid_set g row col here ;;
  let moved := Piece.move piece row col in
  if (row =? ROWS - 1) || (row =? 0) then
    let crowned := Piece.elevate_to_king moved in
    let g := rebind g piece crowned in
    if color_eqb (Piece.color crowned) WHITE && negb (Piece.king crowned) then
      Ok (mk g (black_left b) (white_left b) (black_kings b) (white_kings b + 1),
          crowned)
    else
      Ok (mk g (black_left b) (white_left b) (black_kings b + 1) (white_kings b),
          crowned)
  else
    Ok (with_board b (rebind g piece moved), moved).

(** The test [piece != 0] holds for every piece object. *)
Fixpoint remove (b : t) (pieces : list Piece.t) : result t :=
  match pieces with
  | [] => Ok b
  | piece :: rest =>
      g <- grid_set (board b) (Piece.row piece) (Piece.col piece) Empty ;;
      if color_eqb (Piece.color piece) WHITE then
        remove (mk g (black_left b) (white_left b - 1)
                   (black_kings b) (white_kings b)) rest
      else
        remove (mk g (black_left b - 1) (white_left b)
                   (black_kings b) (white_kings b)) rest
  end.

(** *** Capture search

    [_search_left] and [_search_right] have the same text up to the test
    that closes the direction ([left < 0] against [right >= COLS]) and the
    column increment; [search_body] is that text with the side as a
    parameter and the recursive calls as [self]. *)

Definition off_board (sd : side) (c : Z) : bool :=
  match sd with
  | SLeft => c <? 0
  | SRight => COLS <=? c
  end.

Definition advance (sd : side) (c : Z) : Z :=
  match sd with
  | SLeft => c - 1
  | SRight => c + 1
  end.

Definition searcher : Type :=
  side -> bool -> Z -> Z -> Z -> Color -> Z -> list Piece.t -> result moves_t.

(** The calls made once a capture has been recorded at [(r, c)]: the two
    diagonals in the direction of [step], then, for a king, the other
    two.  [skipped] is read from [moves] anew for every call. *)
Definition continue_chain (self : searcher) (is_king : bool) (step : Z)
    (color : Color) (r c : Z) (moves : moves_t) : result moves_t :=
  let row := if step =? -1 then Z.max (r - 3) (-1) else Z.min (r + 3) ROWS in
  sk <- dict_lookup moves (r, c) ;;
  found <- self SLeft is_king (r + step) row step color (c - 1) sk ;;
  let moves := dict_update moves found in
  sk <- dict_lookup moves (r, c) ;;
  found <- self SRight is_king (r + step) row step color (c + 1) sk ;;
  let moves := dict_update moves found in
  if is_king then
    let row := if step =? -1 then Z.min (r + 3) ROWS else Z.max (r - 3) (-1) in
    sk <- dict_lookup moves (r, c) ;;
    found <- self SLeft is_king (r - step) row (- step) color (c - 1) sk ;;
    let moves := dict_update moves found in
    sk <- dict_lookup moves (r, c) ;;
    found <- self SRight is_king (r - step) row (- step) color (c + 1) sk ;;
    Ok (dict_update moves found)
  else Ok moves.

(** The [for r in range(start, stop, step)] loop; [moves] is still empty
    whenever the loop goes on to its next round. *)
Fixpoint search_loop (self : searcher) (b : t) (sd : side) (is_king : bool)
    (step : Z) (color : Color) (skipped : list Piece.t)
    (rs : list Z) (c : Z) (last : list Piece.t) : result moves_t :=
  match rs with
  | [] => Ok []
  | r :: rs' =>
      if off_board sd c then Ok []
      else
        current <- get_piece b r c ;;
        if cell_in current skipped then Ok []
        else
          match current with
          | Empty =>
              if nonempty skipped && negb (nonempty last) then Ok []
              else
                let moves :=
                  if nonempty skipped then dict_set [] (r, c) (last ++ skipped)
                  else dict_set [] (r, c) last in
                if nonempty last
                then continue_chain self is_king step color r c moves
                else Ok moves
          | Occ q =>
              if color_eqb (Piece.color q) color then Ok []
              else search_loop self b sd is_king step color skipped
                               rs' (advance sd c) [q]
          end
  end.

Definition search_body (self : searcher) (b : t) : searcher :=
  fun sd is_king start stop step color c skipped =>
    search_loop self b sd is_king step color skipped
                (py_range start stop step) c [].

Fixpoint _search (fuel : nat) (b : t) : searcher :=
  match fuel with
  | O => fun _ _ _ _ _ _ _ _ => Raise RecursionError
  | S fuel' => search_body (_search fuel' b) b
  end.

Definition _search_left (b : t) (is_king : bool) (start stop step : Z)
    (color : Color) (left : Z) (skipped : list Piece.t) : result moves_t :=
  _search recursion_limit b SLeft is_king start stop step color left skipped.

Definition _search_right (b : t) (is_king : bool) (start stop step : Z)
    (color : Color) (right : Z) (skipped : list Piece.t) : result moves_t :=
  _search recursion_limit b SRight is_king start stop step color right skipped.

(** The dictionary [moves] of [get_valid_moves] before it is filtered. *)
Definition discover (b : t) (piece : Piece.t) : result moves_t :=
  let moves := [] in
  let left := Piece.col piece - 1 in
  let right := Piece.col piece + 1 in
  let row := Piece.row piece in
  moves <-
    (if color_eqb (Piece.color piece) WHITE || Piece.king piece then
       found <- _search_left b (Piece.king piece) (row - 1) (Z.max (row - 3) (-1))
                             (-1) (Piece.color piece) left [] ;;
       let moves := dict_update moves found in
       found <- _search_right b (Piece.king piece) (row - 1) (Z.max (row - 3) (-1))
                              (-1) (Piece.color piece) right [] ;;
       Ok (dict_update moves found)
     else Ok moves) ;;
  if color_eqb (Piece.color piece) BLACK || Piece.king piece then
    found <- _search_left b (Piece.king piece) (row + 1) (Z.min (row + 3) ROWS)
                          1 (Piece.color piece) left [] ;;
    let moves := dict_update moves found in
    found <- _search_right b (Piece.king piece) (row + 1) (Z.min (row + 3) ROWS)
                           1 (Piece.color piece) right [] ;;
    Ok (dict_update moves found)
  else Ok moves.

Definition capturing (moves : moves_t) : moves_t :=
  filter (fun kv => nonempty (snd kv)) moves.

Definition get_valid_moves (b : t) (piece : Piece.t) : result (moves_t * bool) :=
  moves <- discover b piece ;;
  let valid_moves := capturing moves in
  if nonempty valid_moves then Ok (valid_moves, true)
  else Ok (moves, false).

(** [moves.extend(valid_moves)] is given the pair that [get_valid_moves]
    returns, so the list receives the dictionary and then the flag. *)
Fixpoint extend_all (b : t) (pieces : list Piece.t)
    (moves : list (moves_t + bool)) : result (list (moves_t + bool)) :=
  match pieces with
  | [] => Ok moves
  | piece :: rest =>
      valid_moves <- get_valid_moves b piece ;;
      extend_all b rest (moves ++ [inl (fst valid_moves); inr (snd valid_moves)])
  end.

Definition get_all_moves (b : t) (color : Color) : result (list (moves_t + bool)) :=
  extend_all b (get_all_pieces b color) [].

Definition winner (b : t) : result (option Color) :=
  if white_left b <=? 0 then Ok (Some BLACK)
  else if black_left b <? 0 then Ok (Some WHITE)
  else
    whites <- get_all_moves b WHITE ;;
    if negb (nonempty whites) then Ok (Some BLACK)
    else
      blacks <- get_all_moves b BLACK ;;
      if negb (nonempty blacks) then Ok (Some WHITE)
      else Ok None.

End Board.

(** ** Board snapshots kept in the history

    [prepare_board_state] overwrites slots of a copied grid with 0, ['B'] or
    ['BK'], so a slot of a snapshot is 0, a piece or a string. *)

Inductive scell : Type :=
| SZero
| SPiece (p : Piece.t)
| SStr (s : string).

Definition snapshot : Type := list (list scell).

Definition scell_eqb (a b : scell) : bool :=
  match a, b with
  | SZero, SZero => true
  | SPiece p, SPiece q => Piece.eqb p q
  | SStr s, SStr u => String.eqb s u
  | _, _ => false
  end.

Fixpoint list_eqb {A : Type} (eqb : A -> A -> bool) (l m : list A) : bool :=
  match l, m with
  | [], [] => true
  | x :: l', y :: m' => eqb x y && list_eqb eqb l' m'
  | _, _ => false
  end.

Definition snapshot_eqb : snapshot -> snapshot -> bool := list_eqb (list_eqb scell_eqb).

(** [deepcopy(board.board)] *)
Definition copy_cell (c : cell) : scell :=
  match c with
  | Empty => SZero
  | Occ p => SPiece p
  end.

Definition deepcopy_grid (g : list (list cell)) : snapshot := map (map copy_cell) g.

(** [history.index(x)], [None] when [x in history] is false. *)
Fixpoint index_of (x : snapshot) (history : list snapshot) : option nat :=
  match history with
  | [] => None
  | y :: rest =>
      if snapshot_eqb y x then Some O
      else match index_of x rest with
           | Some i => Some (S i)
           | None => None
           end
  end.

(** ** class Game: state and the methods the search calls *)

Module Game.

Record t : Type := mk {
  board : Board.t;
  turn : Color;
  selected : option Piece.t;
  valid_moves : moves_t;
  board_history : list snapshot;
  history_length : Z;
  ai : bool;
  ai_intelligence : Z
}.

(** [__init__] followed by [_init]; the defaults are 15, [True] and 4. *)
Definition _init (history_length : Z) (ai : bool) (ai_intelligence : Z) : t :=
  mk Board.init WHITE None [] [] history_length ai ai_intelligence.

Definition default : t := _init 15 true 4.

Definition get_board (g : t) : Board.t := board g.

(** [get_position]: the row and column under the mouse position
    [(x, y)], or [(-1, -1)]. *)
Definition get_position (pos : Z * Z) : Z * Z :=
  let '(x, y) := pos in
  if (x <? BOARD_OFFSET) || (y <? BOARD_OFFSET)
     || (BOARD_WIDTH + BOARD_OFFSET <? x) || (BOARD_WIDTH + BOARD_OFFSET <? y)
  then (-1, -1)
  else ((y - BOARD_OFFSET) / SQUARE_SIZE, (x - BOARD_OFFSET) / SQUARE_SIZE).

Definition winner (g : t) : result (option Color) := Board.winner (board g).

(** Body of the two loops of [prepare_board_state] for the slot value
    [piece]. *)
Definition prepare_cell (board : snapshot) (piece : scell) : result snapshot :=
  match piece with
  | SZero => Ok board
  | SStr _ => Raise AttributeError
  | SPiece p =>
      if color_eqb (Piece.color p) WHITE then
        grid_set board (Piece.row p) (Piece.col p) SZero
      else if Piece.king p then
        grid_set board (Piece.row p) (Piece.col p) (SStr "BK")
      else
        grid_set board (Piece.row p) (Piece.col p) (SStr "B")
  end.

(** [for piece in row]: the slots of line [i] are read as the loop reaches
    them, after the writes made so far. *)
Fixpoint prepare_row (board : snapshot) (i : nat) (js : list nat) : result snapshot :=
  match js with
  | [] => Ok board
  | j :: js' =>
      match nth_error (nth i board []) j with
      | Some piece =>
          board <- prepare_cell board piece ;;
          prepare_row board i js'
      | None => Ok board
      end
  end.

Fixpoint prepare_rows (board : snapshot) (rows : list nat) : result snapshot :=
  match rows with
  | [] => Ok board
  | i :: rows' =>
      board <- prepare_row board i (seq 0 (length (nth i board []))) ;;
      prepare_rows board rows'
  end.

Definition prepare_board_state (board : snapshot) : result snapshot :=
  prepare_rows board (seq 0 (length board)).

Fixpoint skip_status_loop (b : Board.t) (pieces : list Piece.t) (skp : bool)
  : result bool :=
  match pieces with
  | [] => Ok skp
  | piece :: rest =>
      '(_, skipped) <- Board.get_valid_moves b piece ;;
      skip_status_loop b rest (if skipped then true else skp)
  end.

Definition get_skip_status (g : t) (color : Color) : result bool :=
  skip_status_loop (board g) (Board.get_all_pieces (board g) color) false.

End Game.

(** ** minimax.py *)

Module Minimax.

Definition simulate_move (piece : cell) (move : pos) (board : Board.t)
    (game : Game.t) (skip : list Piece.t) : result Board.t :=
  match piece with
  | Empty =>
      _ <- grid_get (Board.board board) (fst move) (snd move) ;;
      Raise AttributeError
  | Occ p =>
      '(board, _) <- Board.move board p (fst move) (snd move) ;;
      if nonempty skip then Board.remove board skip else Ok board
  end.

Fixpoint any_capture (board : Board.t) (pieces : list Piece.t) (skp : bool)
  : result bool :=
  match pieces with
  | [] => Ok skp
  | piece :: rest =>
      '(_, skipped) <- Board.get_valid_moves board piece ;;
      any_capture board rest (if skipped then true else skp)
  end.

(** [for move, skip in valid_moves.items()] *)
Fixpoint boards_of (board : Board.t) (game : Game.t) (piece : Piece.t)
    (items : moves_t) (moves : list Board.t) : result (list Board.t) :=
  match items with
  | [] => Ok moves
  | (move, skip) :: rest =>
      let temp_board := board in
      temp_piece <- Board.get_piece temp_board (Piece.row piece) (Piece.col piece) ;;
      new_board <- simulate_move temp_piece move temp_board game skip ;;
      boards_of board game piece rest (moves ++ [new_board])
  end.

Fixpoint collect (board : Board.t) (game : Game.t) (skp : bool)
    (pieces : list Piece.t) (moves : list Board.t) : result (list Board.t) :=
  match pieces with
  | [] => Ok moves
  | piece :: rest =>
      '(valid_moves, skipped) <- Board.get_valid_moves board piece ;;
      if skp && negb skipped then collect board game skp rest moves
      else
        moves <- boards_of board game piece valid_moves moves ;;
        collect board game skp rest moves
  end.

Definition get_all_moves (board : Board.t) (color : Color) (game : Game.t)
  : result (list Board.t) :=
  skp <- any_capture board (Board.get_all_pieces board color) false ;;
  collect board game skp (Board.get_all_pieces board color) [].

Definition searcher : Type :=
  Board.t -> Z -> bool -> Game.t -> score -> score -> result (score * option Board.t).

(** The loop of the maximizing player. *)
Fixpoint max_loop (self : searcher) (depth : Z) (max_player : bool) (game : Game.t)
    (beta : score) (moves : list Board.t)
    (best_score : score) (best_move : option Board.t) (alpha : score)
  : result (score * option Board.t) :=
  match moves with
  | [] => Ok (best_score, best_move)
  | move :: rest =>
      '(score, _) <- self move (depth - 1) (negb max_player) game alpha beta ;;
      let '(best_score, best_move) :=
        if score_leb best_score score then (score, Some move)
        else (best_score, best_move) in
      let alpha := score_max alpha best_score in
      if score_leb beta alpha then Ok (best_score, best_move)
      else max_loop self depth max_player game beta rest best_score best_move alpha
  end.

(** The loop of the minimizing player. *)
Fixpoint min_loop (self : searcher) (depth : Z) (max_player : bool) (game : Game.t)
    (alpha : score) (moves : list Board.t)
    (best_score : score) (best_move : option Board.t) (beta : score)
  : result (score * option Board.t) :=
  match moves with
  | [] => Ok (best_score, best_move)
  | move :: rest =>
      '(score, _) <- self move (depth - 1) (negb max_player) game alpha beta ;;
      let '(best_score, best_move) :=
        if score_leb score best_score then (score, Some move)
        else (best_score, best_move) in
      let beta := score_min beta best_score in
      if score_leb beta alpha then Ok (best_score, best_move)
      else min_loop self depth max_player game alpha rest best_score best_move beta
  end.

(** [depth == 0 or position.winner() is not None] *)
Definition is_terminal (position : Board.t) (depth : Z) : result bool :=
  if depth =? 0 then Ok true
  else
    w <- Board.winner position ;;
    match w with
    | Some _ => Ok true
    | None => Ok false
    end.

Definition minimax_body (self : searcher) : searcher :=
  fun position depth max_player game alpha beta =>
    terminal <- is_terminal position depth ;;
    if terminal then
      pos <- Game.prepare_board_state (deepcopy_grid (Board.board position)) ;;
      match index_of pos (Game.board_history game) with
      | Some i =>
          Ok (Fin (Board.evaluate position
                   / inject_Z (Z.of_nat (length (Game.board_history game))
                               - Z.of_nat i))%Q,
              Some position)
      | None => Ok (Fin (Board.evaluate position), Some position)
      end
    else if max_player then
      moves <- get_all_moves position BLACK game ;;
      max_loop self depth max_player game beta moves NegInf None alpha
    else
      moves <- get_all_moves position WHITE game ;;
      min_loop self depth max_player game alpha moves PosInf None beta.

Fixpoint minimax_rec (fuel : nat) : searcher :=
  match fuel with
  | O => fun _ _ _ _ _ _ => Raise RecursionError
  | S fuel' => minimax_body (minimax_rec fuel')
  end.

Definition minimax : searcher := minimax_rec recursion_limit.

End Minimax.

(** ** class Game: selection, moves and the automated turn *)

Module Play.

Import Game.

Definition with_selection (g : t) (selected : option Piece.t) (valid_moves : moves_t) : t :=
  mk (board g) (turn g) selected valid_moves (board_history g)
     (history_length g) (ai g) (ai_intelligence g).

Definition with_turn (g : t) (turn : Color) : t :=
  mk (board g) turn (selected g) (valid_moves g) (board_history g)
     (history_length g) (ai g) (ai_intelligence g).

Definition with_board (g : t) (board : Board.t) : t :=
  mk board (turn g) (selected g) (valid_moves g) (board_history g)
     (history_length g) (ai g) (ai_intelligence g).

Definition with_history (g : t) (board_history : list snapshot) : t :=
  mk (board g) (turn g) (selected g) (valid_moves g) board_history
     (history_length g) (ai g) (ai_intelligence g).

(** [ai_move], with its final call of [_change_turn] as a parameter. *)
Definition ai_move_body (change_turn : t -> result t) (g : t) : result t :=
  '(value, new_board) <-
    Minimax.minimax (get_board g) (ai_intelligence g) true g NegInf PosInf ;;
  match new_board with
  | None => Ok g
  | Some new_board =>
      let g := with_board g new_board in
      let temp_board := deepcopy_grid (Board.board new_board) in
      temp_board <- prepare_board_state temp_board ;;
      let g := with_history g ([temp_board] ++ board_history g) in
      let g :=
        if history_length g <? Z.of_nat (length (board_history g))
        then with_history g (removelast (board_history g))
        else g in
      change_turn g
  end.

Fixpoint change_turn_rec (fuel : nat) (g : t) : result t :=
  match fuel with
  | O => Raise RecursionError
  | S fuel' =>
      let g := with_selection g None [] in
      match turn g with
      | WHITE =>
          let g := with_turn g BLACK in
          if ai g then ai_move_body (change_turn_rec fuel') g else Ok g
      | BLACK => Ok (with_turn g WHITE)
      end
  end.

Definition _change_turn (g : t) : result t := change_turn_rec recursion_limit g.

Definition ai_move (g : t) : result t := ai_move_body _change_turn g.

Definition _move (g : t) (row col : Z) : result (t * bool) :=
  piece <- Board.get_piece (board g) row col ;;
  match selected g, piece with
  | Some sel, Empty =>
      if dict_mem (valid_moves g) (row, col) then
        '(b, _) <- Board.move (board g) sel row col ;;
        skipped <- dict_lookup (valid_moves g) (row, col) ;;
        b <- (if nonempty skipped then Board.remove b skipped else Ok b) ;;
        g <- _change_turn (with_board g b) ;;
        Ok (g, true)
      else Ok (g, false)
  | _, _ => Ok (g, false)
  end.

(** The part of [select] after the [if self.selected:] block. *)
Definition pick (g : t) (row col : Z) : result (t * bool) :=
  piece <- Board.get_piece (board g) row col ;;
  match piece with
  | Empty => Ok (g, false)
  | Occ p =>
      if color_eqb (Piece.color p) (turn g) then
        let g := with_selection g (Some p) (valid_moves g) in
        skip_stat <- get_skip_status g (turn g) ;;
        '(moves, skp) <- Board.get_valid_moves (board g) p ;;
        let g := with_selection g (selected g) moves in
        if skip_stat && negb skp then Ok (with_selection g None [], false)
        else Ok (g, true)
      else Ok (g, false)
  end.

Fixpoint select_rec (fuel : nat) (g : t) (row col : Z) : result (t * bool) :=
  match fuel with
  | O => Raise RecursionError
  | S fuel' =>
      g <-
        match selected g with
        | Some _ =>
            '(g, result) <- _move g row col ;;
            if negb result then
              let g := with_selection g None [] in
              '(g, _) <- select_rec fuel' g row col ;;
              Ok g
            else Ok g
        | None => Ok g
        end ;;
      pick g row col
  end.

Definition select (g : t) (row col : Z) : result (t * bool) :=
  select_rec recursion_limit g row col.

(** The [MOUSEBUTTONDOWN] branch of the loop of [run], for the mouse
    position [pos]; what [select] returns is dropped. *)
Definition mouse_button_down (g : t) (pos : Z * Z) : result t :=
  let '(row, col) := get_position pos in
  if negb (row =? -1) && negb (col =? -1) then
    '(g, _) <- select g row col ;;
    Ok g
  else Ok g.

End Play.

(** ** The loop of [run]

    The events of pygame are the input: one list per round of the
    [while] loop, and with each [MOUSEBUTTONDOWN] the mouse position that
    [pygame.mouse.get_pos()] gives when the event is handled.  [run]
    returns the game when a winner is found, after a round with a [QUIT]
    event, or when the input ends. *)

Module Run.

Import Game.

Inductive event : Type :=
| QUIT
| MOUSEBUTTONDOWN (pos : Z * Z)
| OTHER.

(** [for event in pygame.event.get()] *)
Fixpoint handle_events (g : t) (run : bool) (events : list event)
  : result (t * bool) :=
  match events with
  | [] => Ok (g, run)
  | QUIT :: rest => handle_events g false rest
  | MOUSEBUTTONDOWN pos :: rest =>
      g <- Play.mouse_button_down g pos ;;
      handle_events g run rest
  | OTHER :: rest => handle_events g run rest
  end.

Fixpoint run (g : t) (rounds : list (list event)) : result t :=
  match rounds with
  | [] => Ok g
  | events :: rest =>
      w <- winner g ;;
      match w with
      | Some _ => Ok g
      | None =>
          '(g, continue) <- handle_events g true events ;;
          if continue then run g rest else Ok g
      end
  end.

End Run.

(** ** Vocabulary of the statements *)

(** An 8 x 8 grid, as [create_board] builds it. *)
Definition grid_ok {A : Type} (g : list (list A)) : Prop :=
  length g = 8%nat /\ Forall (fun line => length line = 8%nat) g.

Definition on_grid (r c : Z) : Prop := 0 <= r < ROWS /\ 0 <= c < COLS.

(** The slot at a position known to be on the grid. *)
Definition slot {A : Type} (g : list (list A)) (r c : Z) : option A :=
  match nth_error g (Z.to_nat r) with
  | Some line => nth_error line (Z.to_nat c)
  | None => None
  end.

(** Every piece sits in the slot that its own fields name. *)
Definition coherent (g : list (list cell)) : Prop :=
  forall r c p, on_grid r c -> slot g r c = Some (Occ p) ->
                Piece.row p = r /\ Piece.col p = c.

Definition well_formed (b : Board.t) : Prop :=
  grid_ok (Board.board b) /\ coherent (Board.board b).

Definition piece_on_grid (p : Piece.t) : Prop :=
  on_grid (Piece.row p) (Piece.col p).

(** Pieces of the grid not yet in a capture list: the measure under which
    the capture search terminates. *)
Definition uncaptured (skipped : list Piece.t) (c : cell) : bool :=
  match c with
  | Empty => false
  | Occ q => negb (existsb (Piece.eqb q) skipped)
  end.

Definition remaining (b : Board.t) (skipped : list Piece.t) : nat :=
  length (filter (uncaptured skipped) (concat (Board.board b))).

(** The bounds [get_valid_moves] and the search itself pass for the rows of
    a direction: at most two rows, all on the grid. *)
Definition rows_ok (start stop step : Z) : Prop :=
  (step = 1 /\ 0 <= start /\ stop <= ROWS /\ stop <= start + 2) \/
  (step = -1 /\ start <= ROWS - 1 /\ -1 <= stop /\ start - 2 <= stop).

Definition col_ok (sd : side) (c : Z) : Prop :=
  match sd with
  | SLeft => c < COLS
  | SRight => 0 <= c
  end.

(** A plain step onto [(r, c)], when that is an empty slot of the grid. *)
Definition step_target (b : Board.t) (r c : Z) : moves_t :=
  if (0 <=? r) && (r <? ROWS) && (0 <=? c) && (c <? COLS) then
    match slot (Board.board b) r c with
    | Some Empty => [((r, c), [])]
    | _ => []
    end
  else [].

(** The plain steps of a piece: towards row 0 for white and for kings,
    towards row 7 for black and for kings, left before right. *)
Definition simple_steps (b : Board.t) (p : Piece.t) : moves_t :=
  (if color_eqb (Piece.color p) WHITE || Piece.king p then
     step_target b (Piece.row p - 1) (Piece.col p - 1)
     ++ step_target b (Piece.row p - 1) (Piece.col p + 1)
   else [])
  ++
  (if color_eqb (Piece.color p) BLACK || Piece.king p then
     step_target b (Piece.row p + 1) (Piece.col p - 1)
     ++ step_target b (Piece.row p + 1) (Piece.col p + 1)
   else []).

(** The snapshot as the documentation describes it: white pieces give 0,
    black men ['B'], black kings ['BK']. *)
Definition tag_cell (c : cell) : scell :=
  match c with
  | Empty => SZero
  | Occ p =>
      if color_eqb (Piece.color p) WHITE then SZero
      else if Piece.king p then SStr "BK" else SStr "B"
  end.

Definition normalized (g : list (list cell)) : snapshot := map (map tag_cell) g.

(** The counter of the pieces of a color. *)
Definition left_of (b : Board.t) (color : Color) : Z :=
  match color with
  | WHITE => Board.white_left b
  | BLACK => Board.black_left b
  end.

(** The color [_change_turn] hands the turn to. *)
Definition next_turn (color : Color) : Color :=
  match color with
  | WHITE => BLACK
  | BLACK => WHITE
  end.

(** The counters [white_left] and [black_left] say how many pieces of
    each color stand on the grid. *)
Definition counts_agree (b : Board.t) : Prop :=
  forall color, left_of b color = Z.of_nat (length (Board.get_all_pieces b color)).

(** Some piece of the color has a capture. *)
Definition has_capture (b : Board.t) (color : Color) : Prop :=
  exists p m,
    In p (Board.get_all_pieces b color) /\ Board.get_valid_moves b p = Ok (m, true).

(** [nb] is the board after one move of [color]: a piece of the color, one
    entry of its valid moves, a piece with a capture whenever one exists,
    and the move played by [simulate_move]. *)
Definition successor (board : Board.t) (color : Color) (game : Game.t)
    (nb : Board.t) : Prop :=
  exists p m h move skip,
    In p (Board.get_all_pieces board color)
    /\ Board.get_valid_moves board p = Ok (m, h)
    /\ In (move, skip) m
    /\ (has_capture board color -> h = true)
    /\ Minimax.simulate_move (Occ p) move board game skip = Ok nb.

(** The selection of a game agrees with its board: the selected piece
    stands on the grid, belongs to the side to move, and [valid_moves] is
    what [get_valid_moves] gives for it; with nothing selected there is no
    destination. *)
Definition selection_ok (g : Game.t) : Prop :=
  match Game.selected g with
  | Some sel =>
      piece_on_grid sel
      /\ slot (Board.board (Game.board g)) (Piece.row sel) (Piece.col sel)
         = Some (Occ sel)
      /\ Piece.color sel = Game.turn g
      /\ exists h, Board.get_valid_moves (Game.board g) sel = Ok (Game.valid_moves g, h)
  | None => Game.valid_moves g = []
  end.

(** The states of a game in play. *)
Definition consistent (g : Game.t) : Prop :=
  well_formed (Game.board g)
  /\ counts_agree (Game.board g)
  /\ 0 <= Game.ai_intelligence g < Z.of_nat recursion_limit
  /\ selection_ok g.


(** No piece of the color has a move. *)
Definition blocked (b : Board.t) (color : Color) : Prop :=
  forall p, In p (Board.get_all_pieces b color) ->
            Board.get_valid_moves b p = Ok ([], false).




(** ** Vocabulary of the proofs *)

(** What the search may put in its result when called with [skipped]:
    an empty slot of the grid, with a capture list that extends [skipped];
    either the plain step onto the first slot, or a landing an odd number
    of rows from [start]; and, for a man, never behind [start]. *)
Definition entry_ok (b : Board.t) (k : bool) (start step c : Z)
    (skipped : list Piece.t) (kv : pos * list Piece.t) : Prop :=
  incl skipped (snd kv) /\
  on_grid (fst (fst kv)) (snd (fst kv)) /\
  slot (Board.board b) (fst (fst kv)) (snd (fst kv)) = Some Empty /\
  ((snd kv = [] /\ skipped = [] /\ fst kv = (start, c)) \/
   (snd kv <> [] /\ Z.odd (fst (fst kv) - start) = true)) /\
  (k = false -> 0 <= (fst (fst kv) - start) * step).

(** The same for the entries found after a capture, whose lists extend
    [base]. *)
Definition capture_ok (b : Board.t) (k : bool) (start step : Z)
    (base : list Piece.t) (kv : pos * list Piece.t) : Prop :=
  incl base (snd kv) /\
  on_grid (fst (fst kv)) (snd (fst kv)) /\
  slot (Board.board b) (fst (fst kv)) (snd (fst kv)) = Some Empty /\
  Z.odd (fst (fst kv) - start) = true /\
  (k = false -> 0 <= (fst (fst kv) - start) * step).

(** The search function [self] returns on every call the search makes with
    fewer than [n] pieces left to capture. *)
Definition self_ok (self : Board.searcher) (b : Board.t) (n : nat) : Prop :=
  forall sd k start stop step color c sk,
    rows_ok start stop step -> col_ok sd c -> (remaining b sk < n)%nat ->
    exists m, self sd k start stop step color c sk = Ok m
              /\ Forall (entry_ok b k start step c sk) m.

(** An entry of the dictionary [get_valid_moves] builds for a piece on
    [row]: plain steps are an odd number of rows away, landings an even
    number. *)
Definition found_ok (b : Board.t) (row : Z) (kv : pos * list Piece.t) : Prop :=
  on_grid (fst (fst kv)) (snd (fst kv)) /\
  slot (Board.board b) (fst (fst kv)) (snd (fst kv)) = Some Empty /\
  ((snd kv = [] /\ Z.odd (fst (fst kv) - row) = true) \/
   (snd kv <> [] /\ Z.odd (fst (fst kv) - row) = false)).

(** For a man, the destination lies in the direction of [step] from
    [row]. *)
Definition ahead (k : bool) (row step : Z) (kv : pos * list Piece.t) : Prop :=
  k = false -> 0 < (fst (fst kv) - row) * step.

(** A man moves towards row 0 when white and towards row 7 when black. *)
Definition man_ahead (p : Piece.t) (kv : pos * list Piece.t) : Prop :=
  Piece.king p = false ->
  if color_eqb (Piece.color p) WHITE then fst (fst kv) < Piece.row p
  else Piece.row p < fst (fst kv).

(** The slot at indices given as naturals. *)
Definition cell_at {A : Type} (g : list (list A)) (i j : nat) : option A :=
  match nth_error g i with
  | Some line => nth_error line j
  | None => None
  end.

(** The snapshot while [prepare_board_state] runs: the first [k] slots in
    row-major order are tagged, the others still hold the copied pieces. *)
Definition prepared (g : list (list cell)) (k : nat) (s : snapshot) : Prop :=
  grid_ok s /\
  forall i j, (i < 8)%nat -> (j < 8)%nat ->
    cell_at s i j
    = option_map (if (8 * i + j <? k)%nat then tag_cell else copy_cell) (cell_at g i j).

(** [x] occurs in [l] and [i] is the least index where it does. *)
Definition first_at {A : Type} (x : A) (l : list A) (i : nat) : Prop :=
  nth_error l i = Some x /\ forall j, (j < i)%nat -> nth_error l j <> Some x.

(** A jump from [(r, c)] in direction [(dr, dc)] is there to be made: an
    opponent piece not yet captured, and an empty slot of the grid behind
    it. *)
Definition jump_open (b : Board.t) (color : Color) (captured : list Piece.t)
    (r c dr dc : Z) : Prop :=
  exists q,
    slot (Board.board b) (r + dr) (c + dc) = Some (Occ q)
    /\ Piece.color q <> color
    /\ ~ In q captured
    /\ on_grid (r + 2 * dr) (c + 2 * dc)
    /\ slot (Board.board b) (r + 2 * dr) (c + 2 * dc) = Some Empty.

(** Number of pieces of a color in a list. *)
Definition count_color (color : Color) (pieces : list Piece.t) : Z :=
  Z.of_nat (length (filter (fun p => color_eqb (Piece.color p) color) pieces)).

(** A capture list: distinct pieces of the grid, none of the color that
    moves. *)
Definition capture_list_ok (b : Board.t) (color : Color) (sk : list Piece.t) : Prop :=
  NoDup sk
  /\ Forall (fun q => In (Occ q) (concat (Board.board b)) /\ Piece.color q <> color) sk.

(** Whatever the search function [self] returns, its capture lists are
    of that kind when the list it was given is. *)
Definition self_sound (self : Board.searcher) (b : Board.t) : Prop :=
  forall sd k start stop step color c sk m,
    self sd k start stop step color c sk = Ok m ->
    capture_list_ok b color sk ->
    Forall (fun kv => capture_list_ok b color (snd kv)) m.

(** The column step of a side. *)
Definition side_step (sd : side) : Z :=
  match sd with
  | SLeft => -1
  | SRight => 1
  end.

(** What a slot adds to the number of pieces of a color. *)
Definition weight (color : Color) (c : cell) : Z :=
  match c with
  | Empty => 0
  | Occ p => if color_eqb (Piece.color p) color then 1 else 0
  end.

Definition line_count (color : Color) (line : list cell) : Z :=
  fold_right (fun c acc => weight color c + acc) 0 line.

Definition grid_count (color : Color) (g : list (list cell)) : Z :=
  fold_right (fun line acc => line_count color line + acc) 0 g.


(** An entry found by the search of a man from row [start] in direction
    [step], called with [sk]: the plain step onto the first row, or a
    landing one row further for the first capture and two rows further
    for every capture after it. *)
Definition chain_ok (start step : Z) (sk : list Piece.t)
    (kv : pos * list Piece.t) : Prop :=
  (snd kv = [] /\ sk = [] /\ fst (fst kv) = start)
  \/ ((length sk < length (snd kv))%nat
      /\ (fst (fst kv) - start) * step
         = 2 * (Z.of_nat (length (snd kv)) - Z.of_nat (length sk)) - 1).

Definition self_chain (self : Board.searcher) : Prop :=
  forall sd start stop step color c sk m,
    (step = 1 \/ step = -1) ->
    (length (py_range start stop step) <= 2)%nat ->
    self sd false start stop step color c sk = Ok m ->
    Forall (chain_ok start step sk) m.

(** The destination of an entry lies an even number of steps along rows
    and columns from a slot whose row and column add up to [s]. *)
Definition diag_ok (s : Z) (kv : pos * list Piece.t) : Prop :=
  exists k, fst (fst kv) + snd (fst kv) - s = 2 * k.

Definition self_diag (self : Board.searcher) : Prop :=
  forall sd k start stop step color c sk m,
    (step = 1 \/ step = -1) ->
    self sd k start stop step color c sk = Ok m ->
    Forall (diag_ok (start + c)) m.

(** ** Positions used as examples *)

(** The board with the given pieces and counters that agree with it. *)
Definition setup (pieces : list Piece.t) : Board.t :=
  Board.mk
    (map (fun r =>
            map (fun c =>
                   match find (fun p => (Piece.row p =? r) && (Piece.col p =? c)) pieces with
                   | Some p => Occ p
                   | None => Empty
                   end)
                (py_range 0 COLS 1))
         (py_range 0 ROWS 1))
    (count_color BLACK pieces)
    (count_color WHITE pieces)
    (count_color BLACK (filter Piece.king pieces))
    (count_color WHITE (filter Piece.king pieces)).

(** The position after 5,2 -> 4,3 and 2,5 -> 3,4 from the start. *)
Definition after_two_plies : result Board.t :=
  '(b, _) <- Board.move Board.init (Piece.mk 5 2 WHITE false) 4 3 ;;
  '(b, _) <- Board.move b (Piece.mk 2 5 BLACK false) 3 4 ;;
  Ok b.

Definition two_plies : Board.t :=
  match after_two_plies with
  | Ok b => b
  | Raise _ => Board.init
  end.

(** The game after white has opened with 5,2 -> 4,3, as [_change_turn]
    hands it to [ai_move]. *)
Definition after_opening : Game.t :=
  match Board.move Board.init (Piece.mk 5 2 WHITE false) 4 3 with
  | Ok (b, _) => Game.mk b BLACK None [] [] 15 true 4
  | Raise _ => Game.default
  end.

(** White man on 7,0 shut in by the black men on 6,1 and 5,2. *)
Definition blocked_white : Board.t :=
  setup [Piece.mk 7 0 WHITE false; Piece.mk 6 1 BLACK false; Piece.mk 5 2 BLACK false].

(** Black man on 0,7 shut in by the white men on 1,6 and 2,5. *)
Definition blocked_black : Board.t :=
  setup [Piece.mk 0 7 BLACK false; Piece.mk 1 6 WHITE false; Piece.mk 2 5 WHITE false].

(** The last black piece has been captured. *)
Definition lone_white : Board.t := setup [Piece.mk 7 0 WHITE false].

(** The starting grid with the black counter at 0. *)
Definition start_black_zero : Board.t := Board.mk Board.create_board 0 12 0 0.

(** White man on 5,2; black men on 4,3 and 4,5.  After 5,2 x 4,3 the man
    lands on 3,4, from where 4,5 could be taken backwards onto 5,6. *)
Definition hook : Board.t :=
  setup [Piece.mk 5 2 WHITE false; Piece.mk 4 3 BLACK false; Piece.mk 4 5 BLACK false].

(** The same with a white king on 5,2. *)
Definition hook_king : Board.t :=
  setup [Piece.mk 5 2 WHITE true; Piece.mk 4 3 BLACK false; Piece.mk 4 5 BLACK false].

(** * Properties *)

(** ** Equality tests *)

Lemma color_eqb_eq (a b : Color) : color_eqb a b = true <-> a = b.
Proof. destruct a, b; simpl; split; congruence. Qed.

Lemma piece_eqb_eq (p q : Piece.t) : Piece.eqb p q = true <-> p = q.
Proof.
  destruct p as [r c k g], q as [r' c' k' g']; unfold Piece.eqb; simpl.
  rewrite !andb_true_iff, !Z.eqb_eq, color_eqb_eq, eqb_true_iff.
  split.
  - intros [[[-> ->] ->] ->]; reflexivity.
  - intros H; inversion H; auto.
Qed.

Lemma piece_eqb_refl (p : Piece.t) : Piece.eqb p p = true.
Proof. apply piece_eqb_eq; reflexivity. Qed.

Lemma pos_eqb_eq (a b : pos) : pos_eqb a b = true <-> a = b.
Proof.
  destruct a, b; unfold pos_eqb; simpl.
  rewrite andb_true_iff, !Z.eqb_eq. split.
  - intros [-> ->]; reflexivity.
  - intros H; inversion H; auto.
Qed.

Lemma pos_eqb_refl (a : pos) : pos_eqb a a = true.
Proof. apply pos_eqb_eq; reflexivity. Qed.

Lemma existsb_piece_In (q : Piece.t) (l : list Piece.t) :
  existsb (Piece.eqb q) l = true <-> In q l.
Proof.
  rewrite existsb_exists. split.
  - intros [x [Hin Heq]]. apply piece_eqb_eq in Heq. subst; assumption.
  - intros Hin. exists q. split; [assumption | apply piece_eqb_refl].
Qed.

Lemma nonempty_false {A : Type} (l : list A) : nonempty l = false <-> l = [].
Proof. destruct l; simpl; split; congruence. Qed.

Lemma nonempty_true {A : Type} (l : list A) : nonempty l = true <-> l <> [].
Proof. destruct l; simpl; split; congruence. Qed.

(** ** Indexing inside the grid *)

Lemma py_get_inside {A : Type} (l : list A) (i : Z) :
  0 <= i < Z.of_nat (length l) ->
  exists x, nth_error l (Z.to_nat i) = Some x /\ py_get l i = Ok x.
Proof.
  intros Hi. unfold py_get, py_index.
  replace ((0 <=? i) && (i <? Z.of_nat (length l))) with true
    by (symmetry; apply andb_true_iff; split; [apply Z.leb_le | apply Z.ltb_lt]; lia).
  destruct (nth_error l (Z.to_nat i)) as [x|] eqn:E.
  - exists x; auto.
  - apply nth_error_None in E. lia.
Qed.

Lemma py_set_inside {A : Type} (l : list A) (i : Z) (x : A) :
  0 <= i < Z.of_nat (length l) ->
  py_set l i x = Ok (list_set l (Z.to_nat i) x).
Proof.
  intros Hi. unfold py_set, py_index.
  replace ((0 <=? i) && (i <? Z.of_nat (length l))) with true
    by (symmetry; apply andb_true_iff; split; [apply Z.leb_le | apply Z.ltb_lt]; lia).
  reflexivity.
Qed.

Lemma grid_ok_line {A : Type} (g : list (list A)) (r : Z) :
  grid_ok g -> 0 <= r < ROWS ->
  exists line, nth_error g (Z.to_nat r) = Some line /\ length line = 8%nat
               /\ py_get g r = Ok line.
Proof.
  intros [Hlen Hall] Hr. unfold ROWS in Hr.
  destruct (py_get_inside g r) as [line [Hn Hg]]; [rewrite Hlen; lia|].
  exists line. repeat split; auto.
  rewrite Forall_forall in Hall. apply Hall. eapply nth_error_In; eauto.
Qed.

Lemma grid_get_slot {A : Type} (g : list (list A)) (r c : Z) :
  grid_ok g -> on_grid r c ->
  exists x, slot g r c = Some x /\ grid_get g r c = Ok x.
Proof.
  intros Hg [Hr Hc].
  destruct (grid_ok_line g r Hg Hr) as [line [Hn [Hl Hp]]].
  unfold COLS in Hc.
  destruct (py_get_inside line c) as [x [Hx Hpx]]; [rewrite Hl; lia|].
  exists x. unfold slot, grid_get. rewrite Hn, Hp. simpl. auto.
Qed.

Lemma slot_In_concat {A : Type} (g : list (list A)) (r c : Z) (x : A) :
  slot g r c = Some x -> In x (concat g).
Proof.
  unfold slot. destruct (nth_error g (Z.to_nat r)) as [line|] eqn:E; [|discriminate].
  intros H. apply in_concat. exists line. split.
  - eapply nth_error_In; eauto.
  - eapply nth_error_In; eauto.
Qed.

(** ** Dictionaries *)

Lemma dict_set_Forall (P : pos * list Piece.t -> Prop) (d : moves_t) k v :
  Forall P d -> P (k, v) -> Forall P (dict_set d k v).
Proof.
  induction d as [|[k' v'] d IH]; simpl; intros Hd Hkv.
  - constructor; auto.
  - inversion Hd; subst. destruct (pos_eqb k' k) eqn:E.
    + apply pos_eqb_eq in E; subst. constructor; auto.
    + constructor; auto.
Qed.

Lemma dict_update_Forall (P : pos * list Piece.t -> Prop) (o d : moves_t) :
  Forall P d -> Forall P o -> Forall P (dict_update d o).
Proof.
  unfold dict_update. revert d.
  induction o as [|[k v] o IH]; simpl; intros d Hd Ho; auto.
  inversion Ho; subst. apply IH; auto. apply dict_set_Forall; auto.
Qed.

Lemma dict_get_set_same (d : moves_t) k v : dict_get (dict_set d k v) k = Some v.
Proof.
  induction d as [|[k' v'] d IH]; simpl.
  - rewrite pos_eqb_refl; reflexivity.
  - destruct (pos_eqb k' k) eqn:E; simpl; rewrite E; auto.
Qed.

Lemma dict_get_set_keeps (d : moves_t) k v k0 :
  dict_get d k0 <> None -> dict_get (dict_set d k v) k0 <> None.
Proof.
  induction d as [|[k' v'] d IH]; simpl; [congruence|].
  destruct (pos_eqb k' k0) eqn:E0.
  - intros _. destruct (pos_eqb k' k); simpl; rewrite E0; congruence.
  - intros H. destruct (pos_eqb k' k); simpl; rewrite E0; auto.
Qed.

Lemma dict_get_update_keeps (o d : moves_t) k0 :
  dict_get d k0 <> None -> dict_get (dict_update d o) k0 <> None.
Proof.
  unfold dict_update. revert d.
  induction o as [|[k v] o IH]; simpl; intros d H; auto.
  apply IH. apply dict_get_set_keeps; auto.
Qed.

Lemma dict_get_In (d : moves_t) k v : dict_get d k = Some v -> In (k, v) d.
Proof.
  induction d as [|[k' v'] d IH]; simpl; [discriminate|].
  destruct (pos_eqb k' k) eqn:E.
  - apply pos_eqb_eq in E; subst. intros H; inversion H; auto.
  - auto.
Qed.

Lemma dict_lookup_present (P : pos * list Piece.t -> Prop) (d : moves_t) k :
  Forall P d -> dict_get d k <> None ->
  exists v, dict_lookup d k = Ok v /\ P (k, v).
Proof.
  intros HP H. unfold dict_lookup.
  destruct (dict_get d k) as [v|] eqn:E; [|congruence].
  exists v. split; auto. rewrite Forall_forall in HP. apply HP.
  apply dict_get_In; auto.
Qed.

(** ** Concrete boards *)

(** Settles [well_formed] for a board given slot by slot. *)
Ltac concrete_well_formed :=
  split;
  [ split; [reflexivity | repeat constructor]
  | let r := fresh "r" in
    let c := fresh "c" in
    let p := fresh "p" in
    let Hr := fresh "Hr" in
    let Hc := fresh "Hc" in
    let Hs := fresh "Hs" in
    intros r c p [Hr Hc] Hs; unfold ROWS, COLS in *;
    assert (r = 0 \/ r = 1 \/ r = 2 \/ r = 3 \/ r = 4 \/ r = 5 \/ r = 6 \/ r = 7)
      as [-> | [-> | [-> | [-> | [-> | [-> | [-> | ->]]]]]]] by lia;
    assert (c = 0 \/ c = 1 \/ c = 2 \/ c = 3 \/ c = 4 \/ c = 5 \/ c = 6 \/ c = 7)
      as [-> | [-> | [-> | [-> | [-> | [-> | [-> | ->]]]]]]] by lia;
    vm_compute in Hs; inversion Hs; subst; split; reflexivity ].

(** ** The measure of the capture search *)

Lemma filter_length_mono {A : Type} (f f' : A -> bool) (l : list A) :
  (forall x, In x l -> f' x = true -> f x = true) ->
  (length (filter f' l) <= length (filter f l))%nat.
Proof.
  induction l as [|a l IH]; simpl; intros H; [lia|].
  assert (IH' := IH (fun x Hx => H x (or_intror Hx))).
  destruct (f' a) eqn:E'.
  - rewrite (H a (or_introl eq_refl) E'). simpl. lia.
  - destruct (f a); simpl; lia.
Qed.

Lemma filter_length_strict {A : Type} (f f' : A -> bool) (l : list A) (a : A) :
  (forall x, In x l -> f' x = true -> f x = true) ->
  In a l -> f a = true -> f' a = false ->
  (length (filter f' l) < length (filter f l))%nat.
Proof.
  induction l as [|h l IH]; simpl; intros H Hin Hf Hf'; [contradiction|].
  assert (Hle := filter_length_mono f f' l (fun x Hx => H x (or_intror Hx))).
  destruct Hin as [->|Hin].
  - rewrite Hf, Hf'. simpl. lia.
  - assert (IH' := IH (fun x Hx => H x (or_intror Hx)) Hin Hf Hf').
    destruct (f' h) eqn:E'.
    + rewrite (H h (or_introl eq_refl) E'). simpl. lia.
    + destruct (f h); simpl; lia.
Qed.

Lemma uncaptured_mono (sk sk' : list Piece.t) (x : cell) :
  incl sk sk' -> uncaptured sk' x = true -> uncaptured sk x = true.
Proof.
  intros Hincl. destruct x as [|q]; simpl; auto.
  rewrite !negb_true_iff. intros H.
  destruct (existsb (Piece.eqb q) sk) eqn:E; auto.
  apply existsb_piece_In in E. apply Hincl in E.
  apply existsb_piece_In in E. congruence.
Qed.

Lemma remaining_le (b : Board.t) (sk sk' : list Piece.t) :
  incl sk sk' -> (remaining b sk' <= remaining b sk)%nat.
Proof.
  intros H. unfold remaining. apply filter_length_mono.
  intros x _. apply uncaptured_mono; assumption.
Qed.

Lemma remaining_lt (b : Board.t) (sk sk' : list Piece.t) (r c : Z) (q : Piece.t) :
  slot (Board.board b) r c = Some (Occ q) ->
  cell_in (Occ q) sk = false ->
  incl (q :: sk) sk' ->
  (remaining b sk' < remaining b sk)%nat.
Proof.
  intros Hs Hin Hincl. unfold remaining.
  apply filter_length_strict with (a := Occ q).
  - intros x _. apply uncaptured_mono. intros y Hy. apply Hincl. right; assumption.
  - eapply slot_In_concat; eauto.
  - simpl in *. rewrite Hin. reflexivity.
  - simpl. apply negb_false_iff. apply existsb_piece_In. apply Hincl. left; reflexivity.
Qed.

Lemma concat_length_uniform {A : Type} (g : list (list A)) (n : nat) :
  Forall (fun line => length line = n) g -> length (concat g) = (length g * n)%nat.
Proof.
  induction 1 as [|line g Hl _ IH]; simpl; auto.
  rewrite length_app, Hl, IH. reflexivity.
Qed.

Lemma remaining_bound (b : Board.t) (sk : list Piece.t) :
  grid_ok (Board.board b) -> (remaining b sk <= 64)%nat.
Proof.
  intros [Hlen Hall]. unfold remaining.
  etransitivity; [apply List.filter_length_le|].
  rewrite (concat_length_uniform _ 8 Hall), Hlen. simpl. lia.
Qed.

Lemma recursion_limit_large : (64 < recursion_limit)%nat.
Proof. unfold recursion_limit. lia. Qed.

(** ** Rows visited by one direction of the search *)

Lemma py_range_rows (start stop step : Z) :
  rows_ok start stop step ->
  py_range start stop step = []
  \/ (py_range start stop step = [start] /\ 0 <= start < ROWS)
  \/ (py_range start stop step = [start; start + step]
      /\ 0 <= start < ROWS /\ 0 <= start + step < ROWS).
Proof.
  unfold rows_ok, py_range, ROWS.
  intros [[-> [H1 [H2 H3]]]|[-> [H1 [H2 H3]]]]; simpl.
  - replace (stop - start + 1 - 1) with (stop - start) by lia.
    rewrite Z.div_1_r.
    destruct (Z.to_nat (stop - start)) as [|[|[|n]]] eqn:E; simpl.
    + left; reflexivity.
    + right; left. split; [reflexivity | lia].
    + right; right. split; [reflexivity | lia].
    + lia.
  - replace (start - stop - -1 - 1) with (start - stop) by lia.
    rewrite Z.div_1_r.
    destruct (Z.to_nat (start - stop)) as [|[|[|n]]] eqn:E; simpl.
    + left; reflexivity.
    + right; left. split; [reflexivity | lia].
    + right; right. split; [reflexivity | lia].
    + lia.
Qed.

Lemma odd_shift (a d e : Z) :
  Z.odd a = true -> (d = 1 \/ d = -1) -> Z.odd e = true -> Z.odd (a + d + e) = true.
Proof.
  intros Ha Hd He. rewrite !Z.odd_add, Ha, He.
  destruct Hd as [-> | ->]; reflexivity.
Qed.

Lemma off_board_col (sd : side) (c : Z) :
  col_ok sd c -> Board.off_board sd c = false -> 0 <= c < COLS.
Proof.
  unfold col_ok, Board.off_board, COLS.
  destruct sd; intros H E.
  - apply Z.ltb_ge in E. lia.
  - apply Z.leb_gt in E. lia.
Qed.

(** ** The capture search returns, and what its entries are *)

Lemma entry_to_capture (b : Board.t) (k : bool) (start step step' c' r : Z)
    (base sk : list Piece.t) (kv : pos * list Piece.t) :
  base <> [] -> incl base sk ->
  Z.odd (r - start) = true -> 0 <= (r - start) * step ->
  (step = 1 \/ step = -1) -> (step' = 1 \/ step' = -1) ->
  (k = false -> step' = step) ->
  entry_ok b k (r + step') step' c' sk kv -> capture_ok b k start step base kv.
Proof.
  intros Hne Hincl Hodd Hpos Hstep Hstep' Hman (Hi & Hg & Hs & Hcase & Hfwd).
  split; [|split; [exact Hg | split; [exact Hs | split]]].
  - intros x Hx. apply Hi, Hincl, Hx.
  - destruct Hcase as [(_ & Hsk & _) | (_ & Ho)].
    + subst sk. destruct base as [|x base]; [congruence|].
      exfalso. apply (Hincl x). left; reflexivity.
    + replace (fst (fst kv) - start)
        with ((fst (fst kv) - (r + step')) + step' + (r - start)) by lia.
      apply odd_shift; assumption.
  - intros Hk. specialize (Hfwd Hk). specialize (Hman Hk). subst step'.
    destruct Hstep as [-> | ->]; lia.
Qed.

Lemma chain_step (self : Board.searcher) (b : Board.t) (n : nat)
    (sd : side) (k : bool) (start step stop' step' r c c' : Z)
    (color : Color) (base : list Piece.t) (moves : moves_t) :
  self_ok self b n ->
  base <> [] -> (remaining b base < n)%nat ->
  Z.odd (r - start) = true -> 0 <= (r - start) * step ->
  (step = 1 \/ step = -1) -> (step' = 1 \/ step' = -1) ->
  (k = false -> step' = step) ->
  rows_ok (r + step') stop' step' -> col_ok sd c' ->
  Forall (capture_ok b k start step base) moves ->
  dict_get moves (r, c) <> None ->
  exists sk found,
    dict_lookup moves (r, c) = Ok sk
    /\ self sd k (r + step') stop' step' color c' sk = Ok found
    /\ Forall (capture_ok b k start step base) (dict_update moves found)
    /\ dict_get (dict_update moves found) (r, c) <> None.
Proof.
  intros Hself Hne Hrem Hodd Hpos Hstep Hstep' Hman Hrows Hcol Hall Hkey.
  destruct (dict_lookup_present _ moves (r, c) Hall Hkey) as [sk [Hlk Hsk]].
  assert (Hincl : incl base sk) by (destruct Hsk as [Hi _]; exact Hi).
  destruct (Hself sd k (r + step') stop' step' color c' sk Hrows Hcol)
    as [found [Hf Hall']].
  { eapply Nat.le_lt_trans; [apply remaining_le; exact Hincl | exact Hrem]. }
  exists sk, found. repeat split; auto.
  - apply dict_update_Forall; auto.
    eapply Forall_impl; [|exact Hall'].
    intros kv. eapply entry_to_capture; eauto.
  - apply dict_get_update_keeps; auto.
Qed.

Lemma continue_chain_ok (self : Board.searcher) (b : Board.t) (n : nat)
    (k : bool) (step start r c : Z) (color : Color)
    (base : list Piece.t) (moves : moves_t) :
  self_ok self b n ->
  (step = 1 \/ step = -1) -> on_grid r c ->
  base <> [] -> (remaining b base < n)%nat ->
  Z.odd (r - start) = true -> 0 <= (r - start) * step ->
  Forall (capture_ok b k start step base) moves ->
  dict_get moves (r, c) <> None ->
  exists m, Board.continue_chain self k step color r c moves = Ok m
            /\ Forall (capture_ok b k start step base) m.
Proof.
  intros Hself Hstep [Hr Hc] Hne Hrem Hodd Hpos Hall Hkey.
  unfold ROWS, COLS in Hr, Hc.
  assert (Hfwd : rows_ok (r + step)
                   (if step =? -1 then Z.max (r - 3) (-1) else Z.min (r + 3) ROWS) step).
  { unfold rows_ok, ROWS. destruct Hstep as [-> | ->]; simpl; [left | right]; lia. }
  assert (Hbwd : rows_ok (r + - step)
                   (if step =? -1 then Z.min (r + 3) ROWS else Z.max (r - 3) (-1)) (- step)).
  { unfold rows_ok, ROWS. destruct Hstep as [-> | ->]; simpl; [right | left]; lia. }
  assert (Hd' : - step = 1 \/ - step = -1) by lia.
  assert (HL : col_ok SLeft (c - 1)) by (unfold col_ok, COLS; lia).
  assert (HR : col_ok SRight (c + 1)) by (unfold col_ok; lia).
  unfold Board.continue_chain.
  destruct (chain_step self b n SLeft k start step _ step r c (c - 1)
              color base moves Hself Hne Hrem Hodd Hpos Hstep Hstep (fun _ => eq_refl)
              Hfwd HL Hall Hkey)
    as (sk1 & f1 & E1 & F1 & A1 & K1).
  rewrite E1; cbn [bind]. rewrite F1; cbn [bind].
  destruct (chain_step self b n SRight k start step _ step r c (c + 1)
              color base _ Hself Hne Hrem Hodd Hpos Hstep Hstep (fun _ => eq_refl)
              Hfwd HR A1 K1)
    as (sk2 & f2 & E2 & F2 & A2 & K2).
  rewrite E2; cbn [bind]. rewrite F2; cbn [bind].
  destruct k.
  - assert (Hking : true = false -> - step = step) by discriminate.
    destruct (chain_step self b n SLeft true start step _ (- step) r c (c - 1)
                color base _ Hself Hne Hrem Hodd Hpos Hstep Hd' Hking Hbwd HL A2 K2)
      as (sk3 & f3 & E3 & F3 & A3 & K3).
    change (r - step) with (r + - step).
    rewrite E3; cbn [bind]. rewrite F3; cbn [bind].
    destruct (chain_step self b n SRight true start step _ (- step) r c (c + 1)
                color base _ Hself Hne Hrem Hodd Hpos Hstep Hd' Hking Hbwd HR A3 K3)
      as (sk4 & f4 & E4 & F4 & A4 & K4).
    rewrite E4; cbn [bind]. rewrite F4; cbn [bind].
    eexists; split; [reflexivity | assumption].
  - eexists; split; [reflexivity | assumption].
Qed.

Lemma capture_to_entry (b : Board.t) (k : bool) (start step c : Z) (q : Piece.t)
    (sk : list Piece.t) (kv : pos * list Piece.t) :
  capture_ok b k start step (q :: sk) kv -> entry_ok b k start step c sk kv.
Proof.
  intros (Hi & Hg & Hs & Ho & Hfwd).
  split; [|split; [exact Hg | split; [exact Hs | split; [|exact Hfwd]]]].
  - intros x Hx. apply Hi. right; assumption.
  - right. split; auto. intros E. rewrite E in Hi.
    apply (Hi q). left; reflexivity.
Qed.

(** The second round of the loop: the slot behind an opponent piece. *)
Lemma landing_round (self : Board.searcher) (b : Board.t) (n : nat)
    (sd : side) (k : bool) (start step c r0 c0 : Z) (color : Color)
    (q : Piece.t) (sk : list Piece.t) :
  grid_ok (Board.board b) -> self_ok self b n ->
  (step = 1 \/ step = -1) ->
  slot (Board.board b) r0 c0 = Some (Occ q) ->
  cell_in (Occ q) sk = false ->
  (remaining b sk < S n)%nat ->
  0 <= start + step < ROWS -> col_ok sd c ->
  exists m,
    Board.search_loop self b sd k step color sk [start + step] c [q] = Ok m
    /\ Forall (capture_ok b k start step (q :: sk)) m.
Proof.
  intros Hg Hself Hstep Hq Hin Hrem Hrow Hcol.
  simpl. destruct (Board.off_board sd c) eqn:Eoff.
  { eexists; split; [reflexivity | constructor]. }
  assert (Hc := off_board_col sd c Hcol Eoff).
  destruct (grid_get_slot (Board.board b) (start + step) c Hg (conj Hrow Hc))
    as [x [Hslot Hget]].
  unfold Board.get_piece. rewrite Hget; simpl.
  destruct (cell_in x sk) eqn:Ein.
  { eexists; split; [reflexivity | constructor]. }
  destruct x as [|q'].
  - rewrite andb_false_r.
    cut (exists m,
            Board.continue_chain self k step color (start + step) c
              [((start + step, c), q :: sk)] = Ok m
            /\ Forall (capture_ok b k start step (q :: sk)) m).
    { destruct sk; simpl; auto. }
    assert (Hodd : Z.odd (start + step - start) = true).
    { replace (start + step - start) with step by lia.
      destruct Hstep as [-> | ->]; reflexivity. }
    assert (Hpos : 0 <= (start + step - start) * step)
      by (destruct Hstep as [-> | ->]; lia).
    destruct (continue_chain_ok self b n k step start (start + step) c color
                (q :: sk) [((start + step, c), q :: sk)]) as [m [Hm Hall]]; auto.
    + split; assumption.
    + congruence.
    + assert (H := remaining_lt b sk (q :: sk) r0 c0 q Hq Hin (incl_refl _)). lia.
    + constructor; [|constructor].
      split; [apply incl_refl | split; [split; assumption | split; [exact Hslot|]]].
      split; [exact Hodd | intros _; exact Hpos].
    + simpl. rewrite pos_eqb_refl. congruence.
    + exists m. split; auto.
  - destruct (color_eqb (Piece.color q') color);
      eexists; (split; [reflexivity | constructor]).
Qed.

Lemma search_body_ok (self : Board.searcher) (b : Board.t) (n : nat) :
  grid_ok (Board.board b) -> self_ok self b n ->
  self_ok (Board.search_body self b) b (S n).
Proof.
  intros Hg Hself sd k start stop step color c sk Hrows Hcol Hrem.
  assert (Hstep : step = 1 \/ step = -1) by (destruct Hrows as [[? _]|[? _]]; auto).
  unfold Board.search_body.
  assert (Hfirst : forall rs, 0 <= start < ROWS ->
            (rs = [] \/ (rs = [start + step] /\ 0 <= start + step < ROWS)) ->
            exists m, Board.search_loop self b sd k step color sk (start :: rs) c [] = Ok m
                      /\ Forall (entry_ok b k start step c sk) m).
  { intros rs Hrow Hrs. simpl.
    destruct (Board.off_board sd c) eqn:Eoff.
    { eexists; split; [reflexivity | constructor]. }
    assert (Hc := off_board_col sd c Hcol Eoff).
    destruct (grid_get_slot (Board.board b) start c Hg (conj Hrow Hc)) as [x [Hslot Hget]].
    unfold Board.get_piece. rewrite Hget; simpl.
    destruct (cell_in x sk) eqn:Ein.
    { eexists; split; [reflexivity | constructor]. }
    destruct x as [|q].
    - destruct sk as [|s sk]; simpl.
      + eexists; split; [reflexivity|].
        constructor; [|constructor].
        split; [apply incl_refl | split; [split; assumption | split; [exact Hslot|]]].
        split; [left; auto | intros _; simpl; lia].
      + eexists; split; [reflexivity | constructor].
    - destruct (color_eqb (Piece.color q) color).
      { eexists; split; [reflexivity | constructor]. }
      destruct Hrs as [-> | [-> Hrow']].
      + simpl. eexists; split; [reflexivity | constructor].
      + destruct (landing_round self b n sd k start step (Board.advance sd c) start c
                    color q sk) as [m [Hm Hall]]; auto.
        { unfold col_ok, Board.advance, COLS in *. destruct sd; lia. }
        exists m. split; auto.
        eapply Forall_impl; [|exact Hall]. intros kv. apply capture_to_entry. }
  destruct (py_range_rows start stop step Hrows) as [E | [[E Hr] | [E [Hr Hr']]]];
    rewrite E.
  - simpl. eexists; split; [reflexivity | constructor].
  - apply Hfirst; auto.
  - apply Hfirst; auto.
Qed.

Lemma search_ok (fuel : nat) (b : Board.t) :
  grid_ok (Board.board b) -> self_ok (Board._search fuel b) b fuel.
Proof.
  intros Hg. induction fuel as [|n IH].
  - intros sd k start stop step color c sk _ _ H. lia.
  - simpl. apply search_body_ok; assumption.
Qed.

(** The first call of a direction, with nothing captured yet: either the
    plain step, or nothing but captures. *)
Lemma top_round (self : Board.searcher) (b : Board.t) (n : nat)
    (sd : side) (k : bool) (start stop step c : Z) (color : Color) :
  grid_ok (Board.board b) -> self_ok self b n ->
  rows_ok start stop step -> col_ok sd c ->
  (0 <= start < ROWS -> py_range start stop step <> []) ->
  (remaining b [] < S n)%nat ->
  exists m,
    Board.search_body self b sd k start stop step color c [] = Ok m
    /\ (m = step_target b start c
        \/ (step_target b start c = []
            /\ exists q, Forall (capture_ok b k start step [q]) m)).
Proof.
  intros Hg Hself Hrows Hcol Hne Hrem.
  assert (Hstep : step = 1 \/ step = -1) by (destruct Hrows as [[? _]|[? _]]; auto).
  unfold Board.search_body.
  assert (Hfirst : forall rs, 0 <= start < ROWS ->
            (rs = [] \/ (rs = [start + step] /\ 0 <= start + step < ROWS)) ->
            exists m, Board.search_loop self b sd k step color [] (start :: rs) c [] = Ok m
                      /\ (m = step_target b start c
                          \/ (step_target b start c = []
                              /\ exists q, Forall (capture_ok b k start step [q]) m))).
  { intros rs Hrow Hrs. simpl. unfold step_target.
    replace ((0 <=? start) && (start <? ROWS)) with true
      by (symmetry; apply andb_true_iff; split; [apply Z.leb_le | apply Z.ltb_lt]; lia).
    simpl.
    destruct (Board.off_board sd c) eqn:Eoff.
    { eexists; split; [reflexivity | left].
      unfold Board.off_board, col_ok, COLS in *. destruct sd.
      - apply Z.ltb_lt in Eoff.
        replace (0 <=? c) with false by (symmetry; apply Z.leb_gt; lia). reflexivity.
      - apply Z.leb_le in Eoff.
        replace (c <? 8) with false by (symmetry; apply Z.ltb_ge; lia).
        rewrite andb_false_r. reflexivity. }
    assert (Hc := off_board_col sd c Hcol Eoff).
    replace ((0 <=? c) && (c <? COLS)) with true
      by (symmetry; apply andb_true_iff; split; [apply Z.leb_le | apply Z.ltb_lt]; lia).
    destruct (grid_get_slot (Board.board b) start c Hg (conj Hrow Hc)) as [x [Hslot Hget]].
    unfold Board.get_piece. rewrite Hget, Hslot; simpl.
    destruct x as [|q]; simpl.
    - eexists; split; [reflexivity | left; reflexivity].
    - destruct (color_eqb (Piece.color q) color).
      { eexists; split; [reflexivity | left; reflexivity]. }
      destruct Hrs as [-> | [-> Hrow']].
      + simpl. eexists; split; [reflexivity | left; reflexivity].
      + destruct (landing_round self b n sd k start step (Board.advance sd c) start c
                    color q []) as [m [Hm Hall]]; auto.
        { unfold col_ok, Board.advance, COLS in *. destruct sd; lia. }
        exists m. split; auto. right. split; auto. exists q. exact Hall. }
  destruct (py_range_rows start stop step Hrows) as [E | [[E Hr] | [E [Hr Hr']]]].
  - rewrite E. simpl. eexists; split; [reflexivity | left].
    unfold step_target.
    destruct ((0 <=? start) && (start <? ROWS)) eqn:Er; [|reflexivity].
    apply andb_true_iff in Er. destruct Er as [E1 E2].
    apply Z.leb_le in E1. apply Z.ltb_lt in E2.
    exfalso. apply Hne; auto.
  - rewrite E. apply Hfirst; auto.
  - rewrite E. apply Hfirst; auto.
Qed.

(** ** What [get_valid_moves] discovers *)

Lemma search_unfold (b : Board.t) :
  Board._search recursion_limit b
  = Board.search_body (Board._search (pred recursion_limit) b) b.
Proof. reflexivity. Qed.

Lemma step_target_found (b : Board.t) (row r c : Z) :
  (r = row + 1 \/ r = row - 1) ->
  Forall (found_ok b row) (step_target b r c).
Proof.
  intros Hr. unfold step_target.
  destruct ((0 <=? r) && (r <? ROWS) && (0 <=? c) && (c <? COLS)) eqn:E;
    [|constructor].
  destruct (slot (Board.board b) r c) as [[|q]|] eqn:Es; try constructor; [|constructor].
  rewrite !andb_true_iff, !Z.leb_le, !Z.ltb_lt in E.
  split; [|split]; simpl.
  - unfold on_grid. lia.
  - exact Es.
  - left. split; auto.
    destruct Hr as [-> | ->]; [replace (row + 1 - row) with 1 by lia
                              | replace (row - 1 - row) with (-1) by lia]; reflexivity.
Qed.

Lemma capturing_all (m : moves_t) :
  Forall (fun kv => snd kv <> []) m -> Board.capturing m = m.
Proof.
  unfold Board.capturing. induction 1 as [|kv m H _ IH]; simpl; auto.
  destruct (snd kv) eqn:E; [congruence|]. simpl. rewrite IH. reflexivity.
Qed.

Lemma part_found (b : Board.t) (k : bool) (row step c : Z) (m : moves_t) :
  (step = 1 \/ step = -1) ->
  (m = step_target b (row + step) c
   \/ (step_target b (row + step) c = []
       /\ exists q, Forall (capture_ok b k (row + step) step [q]) m)) ->
  Forall (found_ok b row) m
  /\ Forall (ahead k row step) m
  /\ (Board.capturing m = [] -> m = step_target b (row + step) c).
Proof.
  intros Hs [-> | [Ht [q Hall]]].
  - split; [|split]; auto.
    + apply step_target_found. destruct Hs as [-> | ->]; [left | right]; lia.
    + unfold step_target.
      destruct ((0 <=? row + step) && (row + step <? ROWS) && (0 <=? c) && (c <? COLS));
        [|constructor].
      destruct (slot (Board.board b) (row + step) c) as [[|q]|]; repeat constructor.
      intros _. simpl. destruct Hs as [-> | ->]; lia.
  - assert (Hne : Forall (fun kv => snd kv <> []) m).
    { eapply Forall_impl; [|exact Hall]. intros kv (Hi & _) E.
      rewrite E in Hi. apply (Hi q). left; reflexivity. }
    split; [|split].
    + rewrite Forall_forall in *. intros kv Hkv.
      destruct (Hall kv Hkv) as (Hi & Hg & Hsl & Ho & _).
      split; [exact Hg | split; [exact Hsl | right]].
      split; [apply Hne; assumption|].
      replace (fst (fst kv) - row)
        with ((fst (fst kv) - (row + step)) + step) by lia.
      rewrite Z.odd_add, Ho.
      destruct Hs as [-> | ->]; reflexivity.
    + eapply Forall_impl; [|exact Hall].
      intros kv (_ & _ & _ & _ & Hfwd) Hk. specialize (Hfwd Hk).
      destruct Hs as [-> | ->]; lia.
    + rewrite (capturing_all m Hne). intros ->. symmetry; assumption.
Qed.

Lemma found_same_key (b : Board.t) (row : Z) (k : pos) (v v' : list Piece.t) :
  found_ok b row (k, v) -> found_ok b row (k, v') -> v = [] -> v' = [].
Proof.
  intros (_ & _ & H) (_ & _ & H') ->. simpl in *.
  destruct H as [[_ Ho] | [Hne _]]; [|congruence].
  destruct H' as [[E _] | [_ Ho']]; [assumption | congruence].
Qed.

Lemma capturing_set (b : Board.t) (row : Z) (d : moves_t) k v :
  Forall (found_ok b row) d -> found_ok b row (k, v) ->
  Board.capturing (dict_set d k v) = [] ->
  Board.capturing d = [] /\ v = [].
Proof.
  unfold Board.capturing.
  induction d as [|[k' v'] d IH]; simpl; intros Hd Hkv Hc.
  - destruct v; simpl in Hc; [auto | discriminate].
  - inversion Hd as [|? ? Hh Ht]; subst.
    destruct (pos_eqb k' k) eqn:E.
    + apply pos_eqb_eq in E; subst k'. simpl in Hc.
      destruct v; simpl in Hc; [|discriminate].
      rewrite (found_same_key b row k [] v' Hkv Hh eq_refl). simpl. auto.
    + simpl in Hc. destruct v'; simpl in *; [|discriminate].
      apply IH; auto.
Qed.

Lemma capturing_update (b : Board.t) (row : Z) (o d : moves_t) :
  Forall (found_ok b row) d -> Forall (found_ok b row) o ->
  Board.capturing (dict_update d o) = [] ->
  Board.capturing d = [] /\ Board.capturing o = [].
Proof.
  unfold dict_update. revert d.
  induction o as [|[k v] o IH]; simpl; intros d Hd Ho Hc; [auto|].
  inversion Ho as [|? ? Hh Ht]; subst.
  destruct (IH (dict_set d k v)) as [H1 H2]; auto.
  { apply dict_set_Forall; auto. }
  destruct (capturing_set b row d k v Hd Hh H1) as [H3 ->].
  split; auto.
Qed.

Lemma dict_set_fresh (d : moves_t) k v :
  dict_get d k = None -> dict_set d k v = d ++ [(k, v)].
Proof.
  induction d as [|[k' v'] d IH]; simpl; auto.
  destruct (pos_eqb k' k); [discriminate|]. intros H. rewrite IH; auto.
Qed.

Lemma dict_get_app_none (d e : moves_t) k :
  dict_get d k = None -> dict_get e k = None -> dict_get (d ++ e) k = None.
Proof.
  induction d as [|[k' v'] d IH]; simpl; auto.
  destruct (pos_eqb k' k); [discriminate | auto].
Qed.

Lemma step_target_other (b : Board.t) (r c : Z) (k : pos) :
  k <> (r, c) -> dict_get (step_target b r c) k = None.
Proof.
  intros H. unfold step_target.
  destruct ((0 <=? r) && (r <? ROWS) && (0 <=? c) && (c <? COLS)); [|reflexivity].
  destruct (slot (Board.board b) r c) as [[|q]|]; try reflexivity.
  simpl. destruct (pos_eqb (r, c) k) eqn:E; [|reflexivity].
  apply pos_eqb_eq in E. congruence.
Qed.

Lemma update_step_target (b : Board.t) (d : moves_t) (r c : Z) :
  dict_get d (r, c) = None ->
  dict_update d (step_target b r c) = d ++ step_target b r c.
Proof.
  intros H. unfold step_target.
  destruct ((0 <=? r) && (r <? ROWS) && (0 <=? c) && (c <? COLS));
    [|simpl; rewrite app_nil_r; reflexivity].
  destruct (slot (Board.board b) r c) as [[|q]|];
    try (simpl; rewrite app_nil_r; reflexivity).
  unfold dict_update; simpl. apply dict_set_fresh; assumption.
Qed.

(** One direction of [get_valid_moves]. *)
Lemma direction_ok (b : Board.t) (sd : side) (k : bool) (row c step : Z) (color : Color) :
  grid_ok (Board.board b) -> 0 <= row < ROWS -> col_ok sd c ->
  (step = 1 \/ step = -1) ->
  exists m,
    Board._search recursion_limit b sd k (row + step)
      (if step =? -1 then Z.max (row - 3) (-1) else Z.min (row + 3) ROWS)
      step color c [] = Ok m
    /\ Forall (found_ok b row) m
    /\ Forall (ahead k row step) m
    /\ (Board.capturing m = [] -> m = step_target b (row + step) c).
Proof.
  intros Hg Hrow Hcol Hstep. rewrite search_unfold. unfold ROWS in *.
  destruct (top_round (Board._search (pred recursion_limit) b) b (pred recursion_limit)
              sd k (row + step)
              (if step =? -1 then Z.max (row - 3) (-1) else Z.min (row + 3) ROWS)
              step c color) as [m [Hm Hcase]]; auto.
  - apply search_ok; assumption.
  - unfold rows_ok, ROWS. destruct Hstep as [-> | ->]; simpl; [left | right]; lia.
  - intros Hs. unfold py_range, ROWS in *. destruct Hstep as [-> | ->]; simpl.
    + replace (Z.min (row + 3) 8 - (row + 1) + 1 - 1) with (Z.min (row + 3) 8 - (row + 1)) by lia.
      rewrite Z.div_1_r.
      destruct (Z.to_nat (Z.min (row + 3) 8 - (row + 1))) eqn:E; [lia | simpl; congruence].
    + replace (row + -1 - Z.max (row - 3) (-1) - -1 - 1)
        with (row + -1 - Z.max (row - 3) (-1)) by lia.
      rewrite Z.div_1_r.
      destruct (Z.to_nat (row + -1 - Z.max (row - 3) (-1))) eqn:E; [lia | simpl; congruence].
  - assert (H := remaining_bound b [] Hg). assert (H' := recursion_limit_large).
    unfold recursion_limit in *. simpl. lia.
  - exists m. split; auto.
    apply part_found; auto.
Qed.

Lemma direction_up (b : Board.t) (sd : side) (k : bool) (row c : Z) (color : Color) :
  grid_ok (Board.board b) -> 0 <= row < ROWS -> col_ok sd c ->
  exists m,
    Board._search recursion_limit b sd k (row - 1) (Z.max (row - 3) (-1)) (-1) color c []
    = Ok m
    /\ Forall (found_ok b row) m
    /\ Forall (ahead k row (-1)) m
    /\ (Board.capturing m = [] -> m = step_target b (row - 1) c).
Proof.
  intros Hg Hr Hc.
  exact (direction_ok b sd k row c (-1) color Hg Hr Hc (or_intror eq_refl)).
Qed.

Lemma direction_down (b : Board.t) (sd : side) (k : bool) (row c : Z) (color : Color) :
  grid_ok (Board.board b) -> 0 <= row < ROWS -> col_ok sd c ->
  exists m,
    Board._search recursion_limit b sd k (row + 1) (Z.min (row + 3) ROWS) 1 color c []
    = Ok m
    /\ Forall (found_ok b row) m
    /\ Forall (ahead k row 1) m
    /\ (Board.capturing m = [] -> m = step_target b (row + 1) c).
Proof.
  intros Hg Hr Hc.
  exact (direction_ok b sd k row c 1 color Hg Hr Hc (or_introl eq_refl)).
Qed.

(** Two directions of the same row, left then right, merged into [d]. *)
Lemma pair_ok (b : Board.t) (row col r : Z) (d ml mr : moves_t) :
  (r = row + 1 \/ r = row - 1) ->
  Forall (found_ok b row) d ->
  Forall (found_ok b row) ml -> Forall (found_ok b row) mr ->
  (Board.capturing ml = [] -> ml = step_target b r (col - 1)) ->
  (Board.capturing mr = [] -> mr = step_target b r (col + 1)) ->
  (Board.capturing d = [] ->
   dict_get d (r, col - 1) = None /\ dict_get d (r, col + 1) = None) ->
  Forall (found_ok b row) (dict_update (dict_update d ml) mr)
  /\ (Board.capturing (dict_update (dict_update d ml) mr) = [] ->
      Board.capturing d = []
      /\ dict_update (dict_update d ml) mr
         = d ++ step_target b r (col - 1) ++ step_target b r (col + 1)).
Proof.
  intros Hr Hd Hl Hrt El Er Hfresh.
  assert (Hdl : Forall (found_ok b row) (dict_update d ml))
    by (apply dict_update_Forall; auto).
  split; [apply dict_update_Forall; auto|].
  intros Hc.
  destruct (capturing_update b row mr (dict_update d ml) Hdl Hrt Hc) as [H1 H2].
  destruct (capturing_update b row ml d Hd Hl H1) as [H3 H4].
  destruct (Hfresh H3) as [Gl Gr].
  split; auto.
  rewrite (El H4), (Er H2).
  rewrite (update_step_target b d r (col - 1) Gl).
  rewrite update_step_target.
  - rewrite app_assoc. reflexivity.
  - apply dict_get_app_none; auto.
    apply step_target_other. intros E. inversion E. lia.
Qed.

Lemma ahead_up (p : Piece.t) (m : moves_t) :
  color_eqb (Piece.color p) WHITE || Piece.king p = true ->
  color_eqb (Piece.color p) BLACK || Piece.king p = false ->
  Forall (ahead (Piece.king p) (Piece.row p) (-1)) m -> Forall (man_ahead p) m.
Proof.
  intros Hup Hdown. apply Forall_impl. intros kv H Hk. specialize (H Hk).
  rewrite Hk, orb_false_r in Hup. rewrite Hup. lia.
Qed.

Lemma ahead_down (p : Piece.t) (m : moves_t) :
  color_eqb (Piece.color p) WHITE || Piece.king p = false ->
  Forall (ahead (Piece.king p) (Piece.row p) 1) m -> Forall (man_ahead p) m.
Proof.
  intros Hup. apply Forall_impl. intros kv H Hk. specialize (H Hk).
  rewrite Hk, orb_false_r in Hup. rewrite Hup. lia.
Qed.

Lemma discover_spec (b : Board.t) (p : Piece.t) :
  grid_ok (Board.board b) -> piece_on_grid p ->
  exists all,
    Board.discover b p = Ok all
    /\ Forall (found_ok b (Piece.row p)) all
    /\ Forall (man_ahead p) all
    /\ (Board.capturing all = [] -> all = simple_steps b p).
Proof.
  intros Hg [Hr Hc].
  assert (HL : col_ok SLeft (Piece.col p - 1)) by (unfold col_ok, COLS in *; lia).
  assert (HR : col_ok SRight (Piece.col p + 1)) by (unfold col_ok, COLS in *; lia).
  destruct (direction_up b SLeft (Piece.king p) _ _ (Piece.color p) Hg Hr HL)
    as (m1 & E1 & F1 & A1 & S1).
  destruct (direction_up b SRight (Piece.king p) _ _ (Piece.color p) Hg Hr HR)
    as (m2 & E2 & F2 & A2 & S2).
  destruct (direction_down b SLeft (Piece.king p) _ _ (Piece.color p) Hg Hr HL)
    as (m3 & E3 & F3 & A3 & S3).
  destruct (direction_down b SRight (Piece.king p) _ _ (Piece.color p) Hg Hr HR)
    as (m4 & E4 & F4 & A4 & S4).
  destruct (pair_ok b (Piece.row p) (Piece.col p) (Piece.row p - 1) [] m1 m2)
    as [U1 U2]; auto.
  unfold Board.discover, Board._search_left, Board._search_right, simple_steps.
  destruct (color_eqb (Piece.color p) WHITE || Piece.king p) eqn:Eup;
    destruct (color_eqb (Piece.color p) BLACK || Piece.king p) eqn:Edown.
  - rewrite E1; cbn [bind]. rewrite E2; cbn [bind]. rewrite E3; cbn [bind].
    rewrite E4; cbn [bind].
    destruct (pair_ok b (Piece.row p) (Piece.col p) (Piece.row p + 1)
                (dict_update (dict_update [] m1) m2) m3 m4) as [D1 D2]; auto.
    + intros Hc1. destruct (U2 Hc1) as [_ ->]. simpl.
      split; apply dict_get_app_none; apply step_target_other;
        intros E; inversion E; lia.
    + eexists; split; [reflexivity|]. split; [exact D1|]. split.
      * assert (Hking : Piece.king p = true).
        { destruct (Piece.king p); [reflexivity|]. rewrite !orb_false_r in *.
          destruct (Piece.color p); discriminate. }
        rewrite Forall_forall. intros kv _ Hk. congruence.
      * intros Hcap. destruct (D2 Hcap) as [Hc1 ->].
        destruct (U2 Hc1) as [_ ->]. reflexivity.
  - rewrite E1; cbn [bind]. rewrite E2; cbn [bind].
    eexists; split; [reflexivity|]. split; [exact U1|]. split.
    + repeat apply dict_update_Forall; try constructor;
        apply ahead_up; assumption.
    + intros Hcap. destruct (U2 Hcap) as [_ ->]. simpl. rewrite app_nil_r. reflexivity.
  - cbn [bind]. rewrite E3; cbn [bind]. rewrite E4; cbn [bind].
    destruct (pair_ok b (Piece.row p) (Piece.col p) (Piece.row p + 1) [] m3 m4)
      as [D1 D2]; auto.
    eexists; split; [reflexivity|]. split; [exact D1|]. split.
    + repeat apply dict_update_Forall; try constructor;
        apply ahead_down; assumption.
    + intros Hcap. destruct (D2 Hcap) as [_ ->]. reflexivity.
  - cbn [bind]. eexists; split; [reflexivity|].
    split; [constructor | split; [constructor | reflexivity]].
Qed.

Lemma capturing_In (m : moves_t) (kv : pos * list Piece.t) :
  In kv (Board.capturing m) <-> In kv m /\ snd kv <> [].
Proof.
  unfold Board.capturing. rewrite filter_In, nonempty_true. tauto.
Qed.

Lemma capturing_nil (m : moves_t) :
  Board.capturing m = [] <-> ~ (exists kv, In kv m /\ snd kv <> []).
Proof.
  split.
  - intros E [kv H]. apply capturing_In in H. rewrite E in H. exact H.
  - intros H. destruct (Board.capturing m) as [|kv l] eqn:E; auto.
    exfalso. apply H. exists kv. apply capturing_In. rewrite E. left; reflexivity.
Qed.

Lemma simple_steps_plain (b : Board.t) (p : Piece.t) :
  Forall (fun kv => snd kv = []) (simple_steps b p).
Proof.
  assert (H : forall r c, Forall (fun kv : pos * list Piece.t => snd kv = [])
                                 (step_target b r c)).
  { intros r c. unfold step_target.
    destruct ((0 <=? r) && (r <? ROWS) && (0 <=? c) && (c <? COLS)); [|constructor].
    destruct (slot (Board.board b) r c) as [[|q]|]; repeat constructor. }
  unfold simple_steps.
  apply Forall_app; split;
    match goal with |- Forall _ (if ?c then _ else _) => destruct c end;
    try constructor; apply Forall_app; split; apply H.
Qed.

(** [get_valid_moves] returns for every piece of an 8 x 8 grid. *)
Lemma get_valid_moves_ok (b : Board.t) (p : Piece.t) :
  grid_ok (Board.board b) -> piece_on_grid p ->
  exists m h,
    Board.get_valid_moves b p = Ok (m, h)
    /\ Forall (found_ok b (Piece.row p)) m
    /\ Forall (man_ahead p) m
    /\ (h = true -> m <> [] /\ Forall (fun kv => snd kv <> []) m)
    /\ (h = false -> m = simple_steps b p).
Proof.
  intros Hg Hp.
  destruct (discover_spec b p Hg Hp) as (all & Ed & Hall & Hahead & Hplain).
  unfold Board.get_valid_moves. rewrite Ed; cbn [bind].
  destruct (Board.capturing all) as [|kv l] eqn:Ec; cbn [nonempty].
  - exists all, false. repeat split; auto; discriminate.
  - exists (kv :: l), true. rewrite <- Ec.
    split; [reflexivity|]. split; [|split; [|split]].
    + rewrite Forall_forall in *. intros x Hx. apply capturing_In in Hx.
      apply Hall. tauto.
    + rewrite Forall_forall in *. intros x Hx. apply capturing_In in Hx.
      apply Hahead. tauto.
    + intros _. split.
      * rewrite Ec. discriminate.
      * rewrite Forall_forall. intros x Hx. apply capturing_In in Hx. tauto.
    + discriminate.
Qed.

(** ** Pieces of a color *)

Lemma get_all_pieces_In (b : Board.t) (color : Color) (p : Piece.t) :
  In p (Board.get_all_pieces b color)
  <-> In (Occ p) (concat (Board.board b)) /\ Piece.color p = color.
Proof.
  unfold Board.get_all_pieces. rewrite in_flat_map. split.
  - intros [line [Hl Hp]]. apply in_flat_map in Hp. destruct Hp as [x [Hx Hp]].
    destruct x as [|q]; [contradiction|].
    destruct (color_eqb (Piece.color q) color) eqn:E; [|contradiction].
    destruct Hp as [->|[]]. apply color_eqb_eq in E. split; auto.
    apply in_concat. exists line; auto.
  - intros [Hin Hc]. apply in_concat in Hin. destruct Hin as [line [Hl Hp]].
    exists line. split; auto. apply in_flat_map. exists (Occ p). split; auto.
    apply color_eqb_eq in Hc. rewrite Hc. left; reflexivity.
Qed.

Lemma concat_slot {A : Type} (g : list (list A)) (x : A) :
  grid_ok g -> In x (concat g) ->
  exists r c, on_grid r c /\ slot g r c = Some x.
Proof.
  intros [Hlen Hall] Hin. apply in_concat in Hin. destruct Hin as [line [Hl Hx]].
  assert (Hline : length line = 8%nat) by (rewrite Forall_forall in Hall; auto).
  apply In_nth_error in Hl. destruct Hl as [i Hi].
  apply In_nth_error in Hx. destruct Hx as [j Hj].
  assert (i < 8)%nat by (rewrite <- Hlen; apply nth_error_Some; congruence).
  assert (j < 8)%nat by (rewrite <- Hline; apply nth_error_Some; congruence).
  exists (Z.of_nat i), (Z.of_nat j). split.
  - unfold on_grid, ROWS, COLS. lia.
  - unfold slot. rewrite !Nat2Z.id, Hi. exact Hj.
Qed.

Lemma pieces_on_grid (b : Board.t) (color : Color) (p : Piece.t) :
  well_formed b -> In p (Board.get_all_pieces b color) ->
  piece_on_grid p
  /\ slot (Board.board b) (Piece.row p) (Piece.col p) = Some (Occ p)
  /\ Piece.color p = color.
Proof.
  intros [Hg Hc] Hin. apply get_all_pieces_In in Hin. destruct Hin as [Hin Hcol].
  destruct (concat_slot _ _ Hg Hin) as (r & c & Hrc & Hs).
  destruct (Hc r c p Hrc Hs) as [Er Ecol]. subst r c.
  split; [exact Hrc | split; assumption].
Qed.

Lemma slot_piece (b : Board.t) (r c : Z) (p : Piece.t) :
  slot (Board.board b) r c = Some (Occ p) ->
  In p (Board.get_all_pieces b (Piece.color p)).
Proof.
  intros H. apply get_all_pieces_In. split; auto. eapply slot_In_concat; eauto.
Qed.

(** C5.  For every piece on the grid, [get_valid_moves] returns a pair
    [(m, h)]: [h] is true exactly when some capture list of [m] is not
    empty; when some discovered destination has captures, [m] keeps the
    capturing entries of the discovered dictionary and drops all others;
    otherwise [m] is the list of the plain steps of the piece, each with an
    empty capture list. *)
Theorem get_valid_moves_forced_capture (b : Board.t) (p : Piece.t) :
  grid_ok (Board.board b) -> piece_on_grid p ->
  exists all m h,
    Board.discover b p = Ok all
    /\ Board.get_valid_moves b p = Ok (m, h)
    /\ (h = true <-> exists kv, In kv m /\ snd kv <> [])
    /\ ((exists kv, In kv all /\ snd kv <> []) ->
        m = Board.capturing all
        /\ forall kv, In kv m <-> In kv all /\ snd kv <> [])
    /\ (~ (exists kv, In kv all /\ snd kv <> []) ->
        m = simple_steps b p /\ Forall (fun kv => snd kv = []) m).
Proof.
  intros Hg Hp.
  destruct (discover_spec b p Hg Hp) as (all & Ed & Hall & Hahead & Hplain).
  exists all. unfold Board.get_valid_moves. rewrite Ed; cbn [bind].
  destruct (Board.capturing all) as [|kv l] eqn:Ec; cbn [nonempty].
  - assert (Hnone := proj1 (capturing_nil all) Ec).
    exists all, false. split; [reflexivity | split; [reflexivity|]].
    split; [|split].
    + split; [discriminate | intros H; exfalso; apply Hnone; exact H].
    + intros H. exfalso. apply Hnone; exact H.
    + intros _. rewrite (Hplain eq_refl). split; [reflexivity|].
      apply simple_steps_plain.
  - assert (Hkv : In kv (Board.capturing all)) by (rewrite Ec; left; reflexivity).
    exists (kv :: l), true. rewrite <- Ec.
    split; [reflexivity | split; [reflexivity|]].
    split; [|split].
    + split; [|reflexivity]. intros _. exists kv.
      split; [exact Hkv | apply capturing_In in Hkv; tauto].
    + intros _. split; [reflexivity|]. intros x. apply capturing_In.
    + intros H. exfalso. apply H. exists kv. apply capturing_In. exact Hkv.
Qed.

Lemma get_valid_moves_forced_capture_witness :
  exists all m h,
    Board.discover Board.init (Piece.mk 5 2 WHITE false) = Ok all
    /\ Board.get_valid_moves Board.init (Piece.mk 5 2 WHITE false) = Ok (m, h)
    /\ (h = true <-> exists kv, In kv m /\ snd kv <> [])
    /\ ((exists kv, In kv all /\ snd kv <> []) ->
        m = Board.capturing all
        /\ forall kv, In kv m <-> In kv all /\ snd kv <> [])
    /\ (~ (exists kv, In kv all /\ snd kv <> []) ->
        m = simple_steps Board.init (Piece.mk 5 2 WHITE false)
        /\ Forall (fun kv => snd kv = []) m).
Proof.
  apply (get_valid_moves_forced_capture Board.init (Piece.mk 5 2 WHITE false)).
  - split; [reflexivity | repeat constructor].
  - unfold piece_on_grid, on_grid, ROWS, COLS; simpl; lia.
Defined.

(** ** Forced capture at selection *)

Lemma skip_status_loop_ok (b : Board.t) (pieces : list Piece.t) (skp : bool) :
  (forall p, In p pieces -> exists m h, Board.get_valid_moves b p = Ok (m, h)) ->
  exists r,
    Game.skip_status_loop b pieces skp = Ok r
    /\ (r = true <->
        skp = true
        \/ exists p m, In p pieces /\ Board.get_valid_moves b p = Ok (m, true)).
Proof.
  revert skp. induction pieces as [|p pieces IH]; intros skp Hall; simpl.
  - exists skp. split; auto. split; auto. intros [H | (p & m & [] & _)]; auto.
  - destruct (Hall p (or_introl eq_refl)) as (m & h & E). rewrite E; cbn [bind].
    destruct (IH (if h then true else skp)) as (r & Er & Hr).
    { intros q Hq. apply Hall. right; assumption. }
    exists r. split; auto. rewrite Hr. split.
    + intros [H | (q & mq & Hq & Eq)].
      * destruct h; [right; exists p, m; auto | left; assumption].
      * right. exists q, mq. auto.
    + intros [H | (q & mq & [<- | Hq] & Eq)].
      * left. subst skp. destruct h; reflexivity.
      * left. rewrite E in Eq. inversion Eq; subst. reflexivity.
      * right. exists q, mq. auto.
Qed.

Lemma pick_refuses (g : Game.t) (row col : Z) (p q : Piece.t) (m mq : moves_t) :
  well_formed (Game.board g) ->
  on_grid row col ->
  slot (Board.board (Game.board g)) row col = Some (Occ p) ->
  Piece.color p = Game.turn g ->
  In q (Board.get_all_pieces (Game.board g) (Game.turn g)) ->
  Board.get_valid_moves (Game.board g) q = Ok (mq, true) ->
  Board.get_valid_moves (Game.board g) p = Ok (m, false) ->
  Play.pick g row col = Ok (Play.with_selection g None [], false).
Proof.
  intros Hwf Hrc Hs Hcol Hq Eq Ep.
  unfold Play.pick, Board.get_piece.
  destruct (grid_get_slot _ row col (proj1 Hwf) Hrc) as [x [Hx Hget]].
  rewrite Hs in Hx. inversion Hx; subst x. rewrite Hget; cbn [bind].
  replace (color_eqb (Piece.color p) (Game.turn g)) with true
    by (symmetry; apply color_eqb_eq; assumption).
  unfold Game.get_skip_status. cbn [Play.with_selection Game.board Game.turn].
  destruct (skip_status_loop_ok (Game.board g)
              (Board.get_all_pieces (Game.board g) (Game.turn g)) false)
    as (r & Er & Hr).
  { intros p' Hp'. destruct (pieces_on_grid _ _ _ Hwf Hp') as [Hon _].
    destruct (get_valid_moves_ok _ p' (proj1 Hwf) Hon) as (m' & h' & E' & _).
    exists m', h'. exact E'. }
  assert (r = true) by (apply Hr; right; exists q, mq; auto). subst r.
  rewrite Er; cbn [bind]. rewrite Ep; cbn [bind]. reflexivity.
Qed.

Lemma select_rec_step (n : nat) (g : Game.t) (row col : Z) :
  Play.select_rec (S n) g row col
  = (g <- match Game.selected g with
          | Some _ =>
              '(g, result) <- Play._move g row col ;;
              if negb result then
                let g := Play.with_selection g None [] in
                '(g, _) <- Play.select_rec n g row col ;;
                Ok g
              else Ok g
          | None => Ok g
          end ;;
     Play.pick g row col).
Proof. reflexivity. Qed.

Lemma select_refuses (g : Game.t) (row col : Z) (p q : Piece.t) (m mq : moves_t) :
  well_formed (Game.board g) ->
  on_grid row col ->
  slot (Board.board (Game.board g)) row col = Some (Occ p) ->
  Piece.color p = Game.turn g ->
  In q (Board.get_all_pieces (Game.board g) (Game.turn g)) ->
  Board.get_valid_moves (Game.board g) q = Ok (mq, true) ->
  Board.get_valid_moves (Game.board g) p = Ok (m, false) ->
  Play.select g row col = Ok (Play.with_selection g None [], false).
Proof.
  intros Hwf Hrc Hs Hcol Hq Eq Ep.
  assert (Hpick : forall sel vm,
            Play.pick (Play.with_selection g sel vm) row col
            = Ok (Play.with_selection g None [], false)).
  { intros sel vm.
    apply (pick_refuses (Play.with_selection g sel vm) row col p q m mq); assumption. }
  unfold Play.select.
  change recursion_limit with (S (S (pred (pred recursion_limit)))).
  rewrite select_rec_step.
  destruct (Game.selected g) as [sel|] eqn:Esel.
  - unfold Play._move, Board.get_piece.
    destruct (grid_get_slot _ row col (proj1 Hwf) Hrc) as [x [Hx Hget]].
    rewrite Hs in Hx. inversion Hx; subst x. rewrite Hget; cbn [bind].
    rewrite Esel. cbn [bind negb]. rewrite select_rec_step.
    cbn [Play.with_selection Game.selected bind].
    rewrite (Hpick None []). cbn [bind]. apply (Hpick None []).
  - cbn [bind]. apply (pick_refuses g row col p q m mq); assumption.
Qed.

(** ** Writing into a grid *)

Lemma list_set_length {A : Type} (l : list A) (k : nat) (x : A) :
  length (list_set l k x) = length l.
Proof.
  revert k. induction l as [|h l IH]; intros [|k]; simpl; auto.
Qed.

Lemma list_set_same {A : Type} (l : list A) (k : nat) (x : A) :
  (k < length l)%nat -> nth_error (list_set l k x) k = Some x.
Proof.
  revert k. induction l as [|h l IH]; intros [|k]; simpl; intros H; try lia; auto.
  apply IH. lia.
Qed.

Lemma list_set_other {A : Type} (l : list A) (k k' : nat) (x : A) :
  k' <> k -> nth_error (list_set l k x) k' = nth_error l k'.
Proof.
  revert k k'. induction l as [|h l IH]; intros [|k] [|k']; simpl; intros H;
    try congruence; auto.
Qed.

Lemma py_index_bound {A : Type} (l : list A) (i : Z) (k : nat) :
  py_index l i = Some k -> (k < length l)%nat.
Proof.
  unfold py_index.
  destruct ((0 <=? i) && (i <? Z.of_nat (length l))) eqn:E1.
  - apply andb_true_iff in E1. destruct E1 as [E1 E2].
    apply Z.leb_le in E1. apply Z.ltb_lt in E2. intros H; inversion H. lia.
  - destruct ((i <? 0) && (0 <=? i + Z.of_nat (length l))) eqn:E2; [|discriminate].
    apply andb_true_iff in E2. destruct E2 as [E2 E3].
    apply Z.ltb_lt in E2. apply Z.leb_le in E3. intros H; inversion H. lia.
Qed.

Lemma py_index_inside {A : Type} (l : list A) (i : Z) :
  0 <= i < Z.of_nat (length l) -> py_index l i = Some (Z.to_nat i).
Proof.
  intros H. unfold py_index.
  replace ((0 <=? i) && (i <? Z.of_nat (length l))) with true
    by (symmetry; apply andb_true_iff; split; [apply Z.leb_le | apply Z.ltb_lt]; lia).
  reflexivity.
Qed.

(** A write that succeeds changes one slot and keeps the shape. *)
Lemma grid_set_shape {A : Type} (g g' : list (list A)) (r c : Z) (x : A) :
  grid_set g r c x = Ok g' ->
  exists i j line,
    py_index g r = Some i /\ nth_error g i = Some line /\ py_index line c = Some j
    /\ g' = list_set g i (list_set line j x).
Proof.
  unfold grid_set, py_get, py_set. intros H.
  destruct (py_index g r) as [i|] eqn:Ei; [|discriminate].
  destruct (nth_error g i) as [line|] eqn:El; [|discriminate].
  cbn [bind] in H.
  destruct (py_index line c) as [j|] eqn:Ej; [|discriminate].
  cbn [bind] in H. inversion H. exists i, j, line. auto.
Qed.

Lemma grid_set_ok {A : Type} (g g' : list (list A)) (r c : Z) (x : A) :
  grid_set g r c x = Ok g' -> grid_ok g -> grid_ok g'.
Proof.
  intros H [Hlen Hall].
  destruct (grid_set_shape g g' r c x H) as (i & j & line & Ei & El & Ej & ->).
  split; [rewrite list_set_length; assumption|].
  rewrite Forall_forall in *. intros l Hl.
  apply In_nth_error in Hl. destruct Hl as [n Hn].
  destruct (Nat.eq_dec n i) as [->|Hne].
  - rewrite list_set_same in Hn by (apply nth_error_Some; congruence).
    inversion Hn. rewrite list_set_length. apply Hall. eapply nth_error_In; eauto.
  - rewrite list_set_other in Hn by assumption.
    apply Hall. eapply nth_error_In; eauto.
Qed.

Lemma cell_at_set {A : Type} (g : list (list A)) (line : list A) (i j i' j' : nat) (x : A) :
  nth_error g i = Some line -> (j < length line)%nat ->
  cell_at (list_set g i (list_set line j x)) i' j'
  = if (i' =? i)%nat && (j' =? j)%nat then Some x else cell_at g i' j'.
Proof.
  intros Hl Hj. unfold cell_at.
  destruct (Nat.eqb_spec i' i) as [->|Hi]; simpl.
  - rewrite list_set_same by (apply nth_error_Some; congruence).
    rewrite Hl.
    destruct (Nat.eqb_spec j' j) as [->|Hj'].
    + apply list_set_same; assumption.
    + apply list_set_other; assumption.
  - rewrite list_set_other by assumption. reflexivity.
Qed.

Lemma slot_cell_at {A : Type} (g : list (list A)) (r c : Z) :
  slot g r c = cell_at g (Z.to_nat r) (Z.to_nat c).
Proof. reflexivity. Qed.

(** Inside the grid, a write succeeds and is seen at its own slot only. *)
Lemma grid_set_inside {A : Type} (g : list (list A)) (r c : Z) (x : A) :
  grid_ok g -> on_grid r c ->
  exists g',
    grid_set g r c x = Ok g' /\ grid_ok g'
    /\ slot g' r c = Some x
    /\ (forall r' c', on_grid r' c' -> (r', c') <> (r, c) -> slot g' r' c' = slot g r' c').
Proof.
  intros Hg [Hr Hc].
  destruct (grid_ok_line g r Hg Hr) as (line & Hn & Hl & Hp).
  unfold COLS in Hc.
  assert (Hset : grid_set g r c x = Ok (list_set g (Z.to_nat r) (list_set line (Z.to_nat c) x))).
  { unfold grid_set. rewrite Hp; cbn [bind].
    rewrite py_set_inside by (rewrite Hl; lia). cbn [bind].
    apply py_set_inside. destruct Hg as [Hlen _]. unfold ROWS in Hr. rewrite Hlen. lia. }
  eexists. split; [exact Hset|]. split; [eapply grid_set_ok; eauto|].
  split.
  - rewrite slot_cell_at, (cell_at_set g line) by (auto; rewrite Hl; lia).
    rewrite !Nat.eqb_refl. reflexivity.
  - intros r' c' [Hr' Hc'] Hne. unfold ROWS, COLS in *.
    rewrite !slot_cell_at, (cell_at_set g line) by (auto; rewrite Hl; lia).
    destruct (Nat.eqb_spec (Z.to_nat r') (Z.to_nat r)) as [E1|]; simpl; auto.
    destruct (Nat.eqb_spec (Z.to_nat c') (Z.to_nat c)) as [E2|]; simpl; auto.
    exfalso. apply Hne. f_equal; lia.
Qed.

(** Clearing a slot keeps every piece where its fields say. *)
Lemma clear_coherent (g g' : list (list cell)) (r c : Z) :
  grid_set g r c Empty = Ok g' -> coherent g -> coherent g'.
Proof.
  intros H Hc r' c' p Hrc Hs.
  destruct (grid_set_shape g g' r c Empty H) as (i & j & line & Ei & El & Ej & ->).
  rewrite slot_cell_at, (cell_at_set g line) in Hs
    by (auto; eapply py_index_bound; eauto).
  destruct ((Z.to_nat r' =? i)%nat && (Z.to_nat c' =? j)%nat); [discriminate|].
  apply (Hc r' c' p Hrc Hs).
Qed.

(** ** [Board.move] and [Board.remove] *)

Lemma remove_spec (pieces : list Piece.t) (b : Board.t) :
  grid_ok (Board.board b) -> Forall piece_on_grid pieces ->
  exists b',
    Board.remove b pieces = Ok b'
    /\ grid_ok (Board.board b')
    /\ Board.white_kings b' = Board.white_kings b
    /\ Board.black_kings b' = Board.black_kings b
    /\ Board.white_left b' = Board.white_left b - count_color WHITE pieces
    /\ Board.black_left b' = Board.black_left b - count_color BLACK pieces
    /\ (forall r c, on_grid r c ->
          slot (Board.board b') r c
          = if existsb (fun p => (Piece.row p =? r) && (Piece.col p =? c)) pieces
            then Some Empty else slot (Board.board b) r c).
Proof.
  revert b. induction pieces as [|p pieces IH]; intros b Hg Hall.
  - exists b. simpl. unfold count_color; simpl.
    repeat split; auto; try lia; apply Hg.
  - inversion Hall as [|? ? Hp Hrest]; subst.
    destruct (grid_set_inside (Board.board b) (Piece.row p) (Piece.col p) Empty Hg Hp)
      as (g' & Eset & Hg' & Hsame & Hother).
    simpl. rewrite Eset; cbn [bind].
    assert (Hslot : forall b1, Board.board b1 = g' ->
              forall b', (forall r c, on_grid r c ->
                 slot (Board.board b') r c
                 = if existsb (fun p => (Piece.row p =? r) && (Piece.col p =? c)) pieces
                   then Some Empty else slot (Board.board b1) r c) ->
              forall r c, on_grid r c ->
                 slot (Board.board b') r c
                 = if ((Piece.row p =? r) && (Piece.col p =? c))
                      || existsb (fun p => (Piece.row p =? r) && (Piece.col p =? c)) pieces
                   then Some Empty else slot (Board.board b) r c).
    { intros b1 Hb1 b' H r c Hrc. rewrite (H r c Hrc), Hb1.
      destruct (existsb _ pieces); [rewrite orb_true_r; reflexivity|].
      rewrite orb_false_r.
      destruct ((Piece.row p =? r) && (Piece.col p =? c)) eqn:E.
      - apply andb_true_iff in E. destruct E as [E1 E2].
        apply Z.eqb_eq in E1, E2. subst. assumption.
      - apply Hother; auto. intros Heq. inversion Heq; subst.
        rewrite !Z.eqb_refl in E. discriminate. }
    unfold count_color. simpl filter.
    destruct (Piece.color p) eqn:Ecol; simpl color_eqb; cbv iota.
    + destruct (IH (Board.mk g' (Board.black_left b) (Board.white_left b - 1)
                      (Board.black_kings b) (Board.white_kings b)) Hg' Hrest)
        as (b' & E & H1 & H2 & H3 & H4 & H5 & H6).
      exists b'. cbn [Board.white_kings Board.black_kings Board.white_left
                      Board.black_left] in H2, H3, H4, H5.
      unfold count_color in *. cbn [length].
      split; [exact E|]. split; [exact H1|]. split; [exact H2|]. split; [exact H3|].
      split; [lia|]. split; [lia|].
      cbn [existsb]. eapply Hslot; eauto. reflexivity.
    + destruct (IH (Board.mk g' (Board.black_left b - 1) (Board.white_left b)
                      (Board.black_kings b) (Board.white_kings b)) Hg' Hrest)
        as (b' & E & H1 & H2 & H3 & H4 & H5 & H6).
      exists b'. cbn [Board.white_kings Board.black_kings Board.white_left
                      Board.black_left] in H2, H3, H4, H5.
      unfold count_color in *. cbn [length].
      split; [exact E|]. split; [exact H1|]. split; [exact H2|]. split; [exact H3|].
      split; [lia|]. split; [lia|].
      cbn [existsb]. eapply Hslot; eauto. reflexivity.
Qed.

(** C10.  [Board.remove] clears the slots of the pieces it is given and
    lowers [white_left] and [black_left] by the number of white and black
    pieces in the list; [white_kings] and [black_kings] keep their values
    whatever the king flags of the removed pieces, so [evaluate] on the new
    board still adds half of the old king counters. *)
Theorem remove_leaves_king_counters (b : Board.t) (pieces : list Piece.t) :
  grid_ok (Board.board b) -> Forall piece_on_grid pieces ->
  exists b',
    Board.remove b pieces = Ok b'
    /\ Board.white_kings b' = Board.white_kings b
    /\ Board.black_kings b' = Board.black_kings b
    /\ Board.white_left b' = Board.white_left b - count_color WHITE pieces
    /\ Board.black_left b' = Board.black_left b - count_color BLACK pieces
    /\ (forall p, In p pieces ->
          slot (Board.board b') (Piece.row p) (Piece.col p) = Some Empty)
    /\ (forall r c, on_grid r c ->
          (forall p, In p pieces -> (Piece.row p, Piece.col p) <> (r, c)) ->
          slot (Board.board b') r c = slot (Board.board b) r c)
    /\ Board.evaluate b'
       = ((inject_Z (Board.black_left b - count_color BLACK pieces)
           + (1 # 2) * inject_Z (Board.black_kings b))
          - (inject_Z (Board.white_left b - count_color WHITE pieces)
             + (1 # 2) * inject_Z (Board.white_kings b)))%Q.
Proof.
  intros Hg Hall.
  destruct (remove_spec pieces b Hg Hall) as (b' & E & H1 & H2 & H3 & H4 & H5 & H6).
  exists b'. split; [exact E|]. split; [exact H2|]. split; [exact H3|].
  split; [exact H4|]. split; [exact H5|]. split; [|split].
  - intros p Hp. rewrite Forall_forall in Hall. rewrite (H6 _ _ (Hall p Hp)).
    replace (existsb _ pieces) with true; [reflexivity|].
    symmetry. apply existsb_exists. exists p. split; auto.
    rewrite !Z.eqb_refl. reflexivity.
  - intros r c Hrc Hno. rewrite (H6 r c Hrc).
    destruct (existsb _ pieces) eqn:Ex; [|reflexivity].
    apply existsb_exists in Ex. destruct Ex as (p & Hp & Ep).
    apply andb_true_iff in Ep. destruct Ep as [E1 E2]. apply Z.eqb_eq in E1, E2.
    exfalso. apply (Hno p Hp). congruence.
  - unfold Board.evaluate. rewrite H2, H3, H4, H5. reflexivity.
Qed.

(** A black king at 4,3 is captured: the king counter stays at 1 and the
    evaluation is -1/2 although no black piece is left. *)
Lemma remove_leaves_king_counters_witness :
  let b := setup [Piece.mk 5 2 WHITE false; Piece.mk 4 3 BLACK true] in
  exists b',
    Board.remove b [Piece.mk 4 3 BLACK true] = Ok b'
    /\ Board.black_left b' = 0 /\ Board.black_kings b' = 1
    /\ (Board.evaluate b' == - (1 # 2))%Q.
Proof.
  intros b.
  destruct (remove_leaves_king_counters b [Piece.mk 4 3 BLACK true])
    as (b' & E & H1 & H2 & H3 & H4 & _ & _ & H7).
  - split; [reflexivity | repeat constructor].
  - repeat constructor; simpl; unfold ROWS, COLS; lia.
  - exists b'. split; [exact E|]. rewrite H4, H2, H7.
    split; [reflexivity | split; [reflexivity|]]. vm_compute. reflexivity.
Defined.

(** C1.  What [Board.move] does on a back row: the piece comes out a king
    and it is [black_kings] that grows by one, for a white piece as for a
    black one and for a piece that was a king already; [white_kings] keeps
    its value. *)
Theorem move_to_back_row_counts_black (b b' : Board.t) (p p' : Piece.t) (row col : Z) :
  Board.move b p row col = Ok (b', p') ->
  row = ROWS - 1 \/ row = 0 ->
  Piece.king p' = true
  /\ Board.black_kings b' = Board.black_kings b + 1
  /\ Board.white_kings b' = Board.white_kings b.
Proof.
  unfold Board.move. intros H Hrow.
  destruct (grid_get (Board.board b) row col) as [there|]; [|discriminate].
  cbn [bind] in H.
  destruct (grid_get (Board.board b) (Piece.row p) (Piece.col p)) as [here|];
    [|discriminate].
  cbn [bind] in H.
  destruct (grid_set (Board.board b) (Piece.row p) (Piece.col p) there) as [g|];
    [|discriminate].
  cbn [bind] in H.
  destruct (grid_set g row col here) as [g1|]; [|discriminate].
  cbn [bind] in H.
  replace ((row =? ROWS - 1) || (row =? 0)) with true in H.
  - cbn [Piece.elevate_to_king Piece.king negb] in H. rewrite andb_false_r in H.
    inversion H; subst. simpl. auto.
  - symmetry. apply orb_true_iff. destruct Hrow as [-> | ->]; [left | right]; reflexivity.
Qed.

(** A white man steps from 1,2 onto 0,1: no white king is counted and a
    black king is. *)
Lemma move_to_back_row_counts_black_witness :
  let b := setup [Piece.mk 1 2 WHITE false; Piece.mk 6 5 BLACK false] in
  exists b' p',
    Board.move b (Piece.mk 1 2 WHITE false) 0 1 = Ok (b', p')
    /\ Piece.king p' = true
    /\ Board.white_kings b' = 0
    /\ Board.black_kings b' = 1.
Proof.
  intros b.
  destruct (Board.move b (Piece.mk 1 2 WHITE false) 0 1) as [[b' p']|] eqn:E;
    [|vm_compute in E; discriminate].
  exists b', p'. split; [reflexivity|].
  destruct (move_to_back_row_counts_black b b' _ p' 0 1 E (or_intror eq_refl))
    as (H1 & H2 & H3).
  rewrite H2, H3. auto.
Defined.

(** ** [Board.get_all_moves] and [Board.winner] *)

Lemma extend_all_length (b : Board.t) (pieces : list Piece.t)
    (acc ms : list (moves_t + bool)) :
  Board.extend_all b pieces acc = Ok ms ->
  length ms = (length acc + 2 * length pieces)%nat.
Proof.
  revert acc. induction pieces as [|p pieces IH]; simpl; intros acc H.
  - inversion H. lia.
  - destruct (Board.get_valid_moves b p) as [vm|]; [|discriminate].
    cbn [bind] in H. apply IH in H. rewrite length_app in H. simpl in H. lia.
Qed.

Lemma extend_all_ok (b : Board.t) (pieces : list Piece.t) (acc : list (moves_t + bool)) :
  grid_ok (Board.board b) -> Forall piece_on_grid pieces ->
  exists ms, Board.extend_all b pieces acc = Ok ms.
Proof.
  intros Hg. revert acc. induction pieces as [|p pieces IH]; simpl; intros acc Hall.
  - eexists; reflexivity.
  - inversion Hall; subst.
    destruct (get_valid_moves_ok b p Hg) as (m & h & E & _); auto.
    rewrite E; cbn [bind]. apply IH; assumption.
Qed.

(** The list is empty exactly when the color has no piece on the grid. *)
Lemma get_all_moves_pieces (b : Board.t) (color : Color) (ms : list (moves_t + bool)) :
  Board.get_all_moves b color = Ok ms ->
  (nonempty ms = false <-> Board.get_all_pieces b color = []).
Proof.
  unfold Board.get_all_moves. intros H. apply extend_all_length in H. simpl in H.
  rewrite nonempty_false. split; intros E.
  - rewrite E in H. simpl in H.
    destruct (Board.get_all_pieces b color); [reflexivity | simpl in H; lia].
  - rewrite E in H. simpl in H. destruct ms; [reflexivity | simpl in H; lia].
Qed.

Lemma get_all_moves_ok (b : Board.t) (color : Color) :
  well_formed b -> exists ms, Board.get_all_moves b color = Ok ms.
Proof.
  intros Hwf. apply extend_all_ok; [apply Hwf|].
  rewrite Forall_forall. intros p Hp. apply (pieces_on_grid b color p Hwf Hp).
Qed.

(** C2.  What [Board.winner] does when both counters allow play and both
    colors have a piece on the grid: it returns none, whether or not the
    pieces of a color can move. *)
Theorem winner_none_while_pieces_stand (b : Board.t) :
  well_formed b ->
  0 < Board.white_left b -> 0 <= Board.black_left b ->
  Board.get_all_pieces b WHITE <> [] ->
  Board.get_all_pieces b BLACK <> [] ->
  Board.winner b = Ok None.
Proof.
  intros Hwf Hw Hb Hpw Hpb. unfold Board.winner.
  replace (Board.white_left b <=? 0) with false by (symmetry; apply Z.leb_gt; lia).
  replace (Board.black_left b <? 0) with false by (symmetry; apply Z.ltb_ge; lia).
  destruct (get_all_moves_ok b WHITE Hwf) as [whites Ew].
  destruct (get_all_moves_ok b BLACK Hwf) as [blacks Eb].
  rewrite Ew; cbn [bind].
  destruct (nonempty whites) eqn:Nw.
  - cbn [negb]. rewrite Eb; cbn [bind].
    destruct (nonempty blacks) eqn:Nb; [reflexivity|].
    exfalso. apply Hpb. apply (get_all_moves_pieces b BLACK blacks Eb). exact Nb.
  - exfalso. apply Hpw. apply (get_all_moves_pieces b WHITE whites Ew). exact Nw.
Qed.

Lemma blocked_white_well_formed : well_formed blocked_white.
Proof. concrete_well_formed. Qed.

(** The only white piece of [blocked_white] has no move, yet no winner is
    reported. *)
Lemma winner_none_while_pieces_stand_witness :
  Board.get_all_pieces blocked_white WHITE = [Piece.mk 7 0 WHITE false]
  /\ Board.get_valid_moves blocked_white (Piece.mk 7 0 WHITE false) = Ok ([], false)
  /\ Board.winner blocked_white = Ok None.
Proof.
  split; [reflexivity|]. split; [reflexivity|].
  apply winner_none_while_pieces_stand.
  - exact blocked_white_well_formed.
  - vm_compute; reflexivity.
  - vm_compute; discriminate.
  - vm_compute; discriminate.
  - vm_compute; discriminate.
Defined.

(** C3.  With [white_left <= 0] the winner is BLACK.  The test on the other
    counter is strict: with [black_left < 0] (and white pieces left) the
    winner is WHITE, but [black_left = 0] alone does not give WHITE: then
    WHITE is returned only if no black piece stands on the grid, and on
    the starting grid with [black_left = 0] no winner is returned. *)
Theorem winner_depletion_asymmetric (b : Board.t) :
  (Board.white_left b <= 0 -> Board.winner b = Ok (Some BLACK))
  /\ (0 < Board.white_left b -> Board.black_left b < 0 ->
      Board.winner b = Ok (Some WHITE))
  /\ (0 < Board.white_left b -> Board.black_left b = 0 ->
      Board.winner b = Ok (Some WHITE) -> Board.get_all_pieces b BLACK = [])
  /\ (Board.black_left start_black_zero = 0
      /\ 0 < Board.white_left start_black_zero
      /\ Board.winner start_black_zero = Ok None).
Proof.
  split; [|split; [|split]].
  - intros H. unfold Board.winner.
    replace (Board.white_left b <=? 0) with true by (symmetry; apply Z.leb_le; lia).
    reflexivity.
  - intros Hw Hb. unfold Board.winner.
    replace (Board.white_left b <=? 0) with false by (symmetry; apply Z.leb_gt; lia).
    replace (Board.black_left b <? 0) with true by (symmetry; apply Z.ltb_lt; lia).
    reflexivity.
  - intros Hw Hb. unfold Board.winner.
    replace (Board.white_left b <=? 0) with false by (symmetry; apply Z.leb_gt; lia).
    replace (Board.black_left b <? 0) with false by (symmetry; apply Z.ltb_ge; lia).
    destruct (Board.get_all_moves b WHITE) as [whites|]; [|discriminate].
    cbn [bind]. destruct (nonempty whites); cbn [negb]; [|discriminate].
    destruct (Board.get_all_moves b BLACK) as [blacks|] eqn:Eb; [|discriminate].
    cbn [bind]. destruct (nonempty blacks) eqn:Nb; cbn [negb]; [discriminate|].
    intros _. apply (get_all_moves_pieces b BLACK blacks Eb). exact Nb.
  - split; [reflexivity | split; [reflexivity | vm_compute; reflexivity]].
Qed.

Lemma winner_depletion_asymmetric_witness :
  Board.winner (setup [Piece.mk 2 1 BLACK false]) = Ok (Some BLACK)
  /\ Board.winner (Board.mk Board.create_board (-1) 12 0 0) = Ok (Some WHITE).
Proof.
  split.
  - apply (proj1 (winner_depletion_asymmetric (setup [Piece.mk 2 1 BLACK false]))).
    vm_compute. discriminate.
  - apply (proj1 (proj2 (winner_depletion_asymmetric
                           (Board.mk Board.create_board (-1) 12 0 0)))).
    + vm_compute. reflexivity.
    + vm_compute. reflexivity.
Defined.

(** ** [prepare_board_state] *)

Lemma cell_at_map {A B : Type} (f : A -> B) (g : list (list A)) (i j : nat) :
  cell_at (map (map f) g) i j = option_map f (cell_at g i j).
Proof.
  unfold cell_at. rewrite nth_error_map.
  destruct (nth_error g i) as [line|]; simpl; [apply nth_error_map | reflexivity].
Qed.

Lemma grid_ok_map {A B : Type} (f : A -> B) (g : list (list A)) :
  grid_ok g -> grid_ok (map (map f) g).
Proof.
  intros [Hlen Hall]. split; [rewrite length_map; assumption|].
  rewrite Forall_forall in *. intros l Hl. apply in_map_iff in Hl.
  destruct Hl as (l0 & <- & Hl0). rewrite length_map. auto.
Qed.

Lemma cell_at_inside {A : Type} (g : list (list A)) (i j : nat) :
  grid_ok g -> (i < 8)%nat -> (j < 8)%nat ->
  exists line x, nth_error g i = Some line /\ length line = 8%nat
                 /\ nth_error line j = Some x /\ cell_at g i j = Some x.
Proof.
  intros [Hlen Hall] Hi Hj.
  destruct (nth_error g i) as [line|] eqn:El;
    [|apply nth_error_None in El; lia].
  assert (Hl : length line = 8%nat).
  { rewrite Forall_forall in Hall. apply Hall. eapply nth_error_In; eauto. }
  destruct (nth_error line j) as [x|] eqn:Ex;
    [|apply nth_error_None in Ex; lia].
  exists line, x. unfold cell_at. rewrite El. auto.
Qed.

Lemma grid_ext {A : Type} (s s' : list (list A)) :
  grid_ok s -> grid_ok s' ->
  (forall i j, (i < 8)%nat -> (j < 8)%nat -> cell_at s i j = cell_at s' i j) ->
  s = s'.
Proof.
  intros Hs Hs' H. apply nth_error_ext. intros i.
  destruct (Nat.lt_ge_cases i 8) as [Hi|Hi].
  - destruct (cell_at_inside s i 0 Hs Hi) as (l & _ & El & Hl & _); [lia|].
    destruct (cell_at_inside s' i 0 Hs' Hi) as (l' & _ & El' & Hl' & _); [lia|].
    rewrite El, El'. f_equal. apply nth_error_ext. intros j.
    destruct (Nat.lt_ge_cases j 8) as [Hj|Hj].
    + specialize (H i j Hi Hj). unfold cell_at in H. rewrite El, El' in H. exact H.
    + rewrite (proj2 (nth_error_None l j)) by lia.
      rewrite (proj2 (nth_error_None l' j)) by lia. reflexivity.
  - destruct Hs as [Hlen _], Hs' as [Hlen' _].
    rewrite (proj2 (nth_error_None s i)) by lia.
    rewrite (proj2 (nth_error_None s' i)) by lia. reflexivity.
Qed.

Lemma prepared_start (g : list (list cell)) :
  grid_ok g -> prepared g 0 (deepcopy_grid g).
Proof.
  intros Hg. split; [apply grid_ok_map; assumption|].
  intros i j _ _. apply (cell_at_map copy_cell).
Qed.

Lemma prepared_end (g : list (list cell)) (s : snapshot) :
  grid_ok g -> prepared g 64 s -> s = normalized g.
Proof.
  intros Hg [Hs H]. apply grid_ext; auto.
  - apply grid_ok_map; assumption.
  - intros i j Hi Hj. rewrite (H i j Hi Hj).
    replace (8 * i + j <? 64)%nat with true by (symmetry; apply Nat.ltb_lt; lia).
    symmetry. apply (cell_at_map tag_cell).
Qed.

Section Prepare.

Variable g : list (list cell).
Hypothesis Hg : grid_ok g.
Hypothesis Hc : coherent g.

(** One round of the inner loop, at slot [(i, j)]. *)
Lemma prepare_cell_step (s : snapshot) (i j : nat) :
  (i < 8)%nat -> (j < 8)%nat ->
  prepared g (8 * i + j) s ->
  exists piece s',
    nth_error (nth i s []) j = Some piece
    /\ Game.prepare_cell s piece = Ok s'
    /\ prepared g (8 * i + j + 1) s'.
Proof.
  intros Hi Hj [Hs H].
  destruct (cell_at_inside g i j Hg Hi Hj) as (gl & x & Egl & _ & Ex & Hx).
  destruct (cell_at_inside s i j Hs Hi Hj) as (sl & y & Esl & _ & Ey & Hy).
  assert (Hyx : y = copy_cell x).
  { specialize (H i j Hi Hj). rewrite Hx, Hy in H.
    rewrite Nat.ltb_irrefl in H. simpl in H. congruence. }
  exists y. rewrite (nth_error_nth s i [] Esl), Ey.
  assert (Hkeep : forall v s1,
            grid_ok s1 ->
            (forall i' j', (i' < 8)%nat -> (j' < 8)%nat ->
               cell_at s1 i' j' = if (i' =? i)%nat && (j' =? j)%nat then Some v
                                  else cell_at s i' j') ->
            v = tag_cell x ->
            prepared g (8 * i + j + 1) s1).
  { intros v s1 Hs1 Hcells Hv. split; auto. intros i' j' Hi' Hj'.
    rewrite (Hcells i' j' Hi' Hj').
    destruct (Nat.eqb_spec i' i) as [->|Hne]; cbn [andb].
    - destruct (Nat.eqb_spec j' j) as [->|Hne'].
      + rewrite Hx. replace (8 * i + j <? 8 * i + j + 1)%nat with true
          by (symmetry; apply Nat.ltb_lt; lia). rewrite Hv. reflexivity.
      + rewrite (H i j' Hi' Hj').
        replace (8 * i + j' <? 8 * i + j + 1)%nat with (8 * i + j' <? 8 * i + j)%nat;
          [reflexivity|].
        destruct (Nat.ltb_spec (8 * i + j') (8 * i + j));
          destruct (Nat.ltb_spec (8 * i + j') (8 * i + j + 1)); auto; lia.
    - rewrite (H i' j' Hi' Hj').
      replace (8 * i' + j' <? 8 * i + j + 1)%nat with (8 * i' + j' <? 8 * i + j)%nat;
        [reflexivity|].
      destruct (Nat.ltb_spec (8 * i' + j') (8 * i + j));
        destruct (Nat.ltb_spec (8 * i' + j') (8 * i + j + 1)); auto; lia. }
  destruct x as [|p]; subst y; simpl copy_cell.
  - exists s. split; [reflexivity|]. split; [reflexivity|].
    apply (Hkeep SZero); auto.
    intros i' j' Hi' Hj'.
    destruct (Nat.eqb_spec i' i) as [->|]; cbn [andb]; auto.
    destruct (Nat.eqb_spec j' j) as [->|]; cbn [andb]; auto.
  - assert (Hon : on_grid (Z.of_nat i) (Z.of_nat j))
      by (unfold on_grid, ROWS, COLS; lia).
    destruct (Hc (Z.of_nat i) (Z.of_nat j) p Hon) as [Er Ec].
    { rewrite slot_cell_at, !Nat2Z.id. exact Hx. }
    assert (Hwrite : forall v, v = tag_cell (Occ p) ->
              exists s', grid_set s (Piece.row p) (Piece.col p) v = Ok s'
                         /\ prepared g (8 * i + j + 1) s').
    { intros v Hv. rewrite Er, Ec.
      destruct (grid_set_inside s (Z.of_nat i) (Z.of_nat j) v Hs Hon)
        as (s' & Eset & Hs' & Hsame & Hother).
      exists s'. split; auto. apply (Hkeep v); auto.
      intros i' j' Hi' Hj'.
      destruct (Nat.eqb_spec i' i) as [->|Hne]; cbn [andb].
      - destruct (Nat.eqb_spec j' j) as [->|Hne'].
        + rewrite slot_cell_at, !Nat2Z.id in Hsame. exact Hsame.
        + specialize (Hother (Z.of_nat i) (Z.of_nat j')).
          rewrite !slot_cell_at, !Nat2Z.id in Hother. apply Hother.
          * unfold on_grid, ROWS, COLS; lia.
          * intros E. inversion E. lia.
      - specialize (Hother (Z.of_nat i') (Z.of_nat j')).
        rewrite !slot_cell_at, !Nat2Z.id in Hother. apply Hother.
        + unfold on_grid, ROWS, COLS; lia.
        + intros E. inversion E. lia. }
    assert (Hfin : exists s', Game.prepare_cell s (SPiece p) = Ok s'
                              /\ prepared g (8 * i + j + 1) s').
    { unfold Game.prepare_cell, tag_cell in *.
      destruct (color_eqb (Piece.color p) WHITE); [apply Hwrite; reflexivity|].
      destruct (Piece.king p); apply Hwrite; reflexivity. }
    destruct Hfin as (s' & E1 & E2).
    exists s'. split; [reflexivity | split; assumption].
Qed.

Lemma prepare_row_ok (i : nat) :
  (i < 8)%nat ->
  forall n j s, (j + n = 8)%nat -> prepared g (8 * i + j) s ->
  exists s', Game.prepare_row s i (seq j n) = Ok s' /\ prepared g (8 * i + 8) s'.
Proof.
  intros Hi. induction n as [|n IH]; intros j s Hjn Hp.
  - exists s. split; [reflexivity|]. replace 8%nat with j at 2 by lia. exact Hp.
  - destruct (prepare_cell_step s i j Hi) as (piece & s1 & E1 & E2 & Hp1);
      [lia | exact Hp|].
    cbn [seq Game.prepare_row]. rewrite E1, E2; cbn [bind].
    apply (IH (S j) s1); [lia|].
    replace (8 * i + S j)%nat with (8 * i + j + 1)%nat by lia. exact Hp1.
Qed.

Lemma prepare_rows_ok :
  forall n i s, (i + n = 8)%nat -> prepared g (8 * i) s ->
  exists s', Game.prepare_rows s (seq i n) = Ok s' /\ prepared g 64 s'.
Proof.
  induction n as [|n IH]; intros i s Hin Hp.
  - exists s. split; [reflexivity|]. replace 64%nat with (8 * i)%nat by lia. exact Hp.
  - assert (Hi : (i < 8)%nat) by lia.
    destruct (cell_at_inside s i 0 (proj1 Hp) Hi) as (l & _ & El & Hl & _); [lia|].
    cbn [seq Game.prepare_rows]. rewrite (nth_error_nth s i [] El), Hl.
    destruct (prepare_row_ok i Hi 8 0 s) as (s1 & E1 & Hp1); [lia | |].
    { replace (8 * i + 0)%nat with (8 * i)%nat by lia. exact Hp. }
    rewrite E1; cbn [bind].
    apply (IH (S i) s1); [lia|].
    replace (8 * S i)%nat with (8 * i + 8)%nat by lia. exact Hp1.
Qed.

End Prepare.

(** On a copy of a well-formed board the loops return the tagged grid. *)
Lemma prepare_board_state_normalized (b : Board.t) :
  well_formed b ->
  Game.prepare_board_state (deepcopy_grid (Board.board b))
  = Ok (normalized (Board.board b)).
Proof.
  intros [Hg Hc]. unfold Game.prepare_board_state.
  assert (Hlen : length (deepcopy_grid (Board.board b)) = 8%nat).
  { unfold deepcopy_grid. rewrite length_map. apply Hg. }
  rewrite Hlen.
  destruct (prepare_rows_ok (Board.board b) Hg Hc 8 0 (deepcopy_grid (Board.board b)))
    as (s' & E & Hp); [lia | apply prepared_start; assumption|].
  rewrite E. f_equal. apply prepared_end; assumption.
Qed.

(** ** Snapshots in the history *)

Lemma list_eqb_eq {A : Type} (eqb : A -> A -> bool) :
  (forall x y, eqb x y = true <-> x = y) ->
  forall l m, list_eqb eqb l m = true <-> l = m.
Proof.
  intros H. induction l as [|x l IH]; intros [|y m]; simpl;
    try (split; congruence).
  rewrite andb_true_iff, H, IH. split.
  - intros [-> ->]; reflexivity.
  - intros E; inversion E; auto.
Qed.

Lemma scell_eqb_eq (a b : scell) : scell_eqb a b = true <-> a = b.
Proof.
  destruct a, b; simpl; try (split; congruence).
  - rewrite piece_eqb_eq. split; congruence.
  - rewrite String.eqb_eq. split; congruence.
Qed.

Lemma snapshot_eqb_eq (a b : snapshot) : snapshot_eqb a b = true <-> a = b.
Proof. apply list_eqb_eq, list_eqb_eq, scell_eqb_eq. Qed.

Lemma index_of_first (x : snapshot) (history : list snapshot) (i : nat) :
  first_at x history i -> index_of x history = Some i.
Proof.
  revert i. induction history as [|y rest IH]; intros i [Hn Hfirst].
  - destruct i; discriminate.
  - simpl. destruct i as [|i].
    + simpl in Hn. inversion Hn; subst.
      replace (snapshot_eqb x x) with true by (symmetry; apply snapshot_eqb_eq; auto).
      reflexivity.
    + destruct (snapshot_eqb y x) eqn:E.
      * apply snapshot_eqb_eq in E. subst y.
        exfalso. apply (Hfirst O); [lia | reflexivity].
      * rewrite (IH i); [reflexivity|]. split; [exact Hn|].
        intros j Hj. apply (Hfirst (S j)). lia.
Qed.

Lemma index_of_absent (x : snapshot) (history : list snapshot) :
  ~ In x history -> index_of x history = None.
Proof.
  induction history as [|y rest IH]; simpl; intros H; auto.
  destruct (snapshot_eqb y x) eqn:E.
  - apply snapshot_eqb_eq in E. exfalso. apply H. left; assumption.
  - rewrite IH; auto.
Qed.

(** ** minimax *)

Lemma minimax_unfold :
  Minimax.minimax = Minimax.minimax_body (Minimax.minimax_rec (pred recursion_limit)).
Proof. reflexivity. Qed.

(** C7.  A call of [minimax] with [depth = 0] or with a winner returns the
    position itself; its score is [evaluate()] divided by the length of the
    history minus the first index at which the normalized snapshot of the
    board occurs in the history, and plain [evaluate()] when the snapshot
    does not occur there. *)
Theorem minimax_terminal (position : Board.t) (depth : Z) (max_player : bool)
    (game : Game.t) (alpha beta : score) :
  well_formed position ->
  (depth = 0 \/ exists w, Board.winner position = Ok (Some w)) ->
  (forall i, first_at (normalized (Board.board position)) (Game.board_history game) i ->
     Minimax.minimax position depth max_player game alpha beta
     = Ok (Fin (Board.evaluate position
                / inject_Z (Z.of_nat (length (Game.board_history game)) - Z.of_nat i))%Q,
           Some position))
  /\ (~ In (normalized (Board.board position)) (Game.board_history game) ->
      Minimax.minimax position depth max_player game alpha beta
      = Ok (Fin (Board.evaluate position), Some position)).
Proof.
  intros Hwf Hterm.
  assert (Et : Minimax.is_terminal position depth = Ok true).
  { unfold Minimax.is_terminal. destruct Hterm as [-> | [w Ew]]; [reflexivity|].
    destruct (depth =? 0); [reflexivity|]. rewrite Ew. reflexivity. }
  rewrite minimax_unfold. unfold Minimax.minimax_body.
  rewrite Et; cbn [bind]. rewrite (prepare_board_state_normalized position Hwf).
  cbn [bind]. split.
  - intros i Hi. rewrite (index_of_first _ _ i Hi). reflexivity.
  - intros Hno. rewrite (index_of_absent _ _ Hno). reflexivity.
Qed.

Lemma init_well_formed : well_formed Board.init.
Proof. concrete_well_formed. Qed.

(** The starting position at depth 0, its snapshot second in a history of
    two: the evaluation 0 is divided by 2 - 1. *)
Lemma minimax_terminal_witness :
  let history := [normalized (Board.board blocked_white);
                  normalized (Board.board Board.init)] in
  let game := Game.mk Board.init BLACK None [] history 15 true 0 in
  Minimax.minimax Board.init 0 true game NegInf PosInf
  = Ok (Fin (Board.evaluate Board.init / inject_Z (2 - 1))%Q, Some Board.init).
Proof.
  intros history game.
  apply (proj1 (minimax_terminal Board.init 0 true game NegInf PosInf
                  init_well_formed (or_introl eq_refl)) 1%nat).
  split; [reflexivity|].
  intros j Hj. assert (j = 0)%nat by lia. subst j. vm_compute. discriminate.
Defined.

(** C8, with the test for a winner.  A call of [minimax] at a depth above 0 on a
    position without winner, for which no resulting board is enumerated,
    returns none as best move; and [ai_move], when [minimax] gives it none,
    returns normally with the game unchanged. *)
Theorem minimax_without_moves (g : Game.t) (position : Board.t) (depth : Z)
    (max_player : bool) (alpha beta : score) :
  (0 < depth ->
   Board.winner position = Ok None ->
   Minimax.get_all_moves position (if max_player then BLACK else WHITE) g = Ok [] ->
   Minimax.minimax position depth max_player g alpha beta
   = Ok (if max_player then NegInf else PosInf, None))
  /\ (forall value,
        Minimax.minimax (Game.get_board g) (Game.ai_intelligence g) true g NegInf PosInf
        = Ok (value, None) ->
        Play.ai_move g = Ok g).
Proof.
  split.
  - intros Hd Hw Hm. rewrite minimax_unfold.
    unfold Minimax.minimax_body, Minimax.is_terminal.
    replace (depth =? 0) with false by (symmetry; apply Z.eqb_neq; lia).
    rewrite Hw; cbn [bind].
    destruct max_player; rewrite Hm; reflexivity.
  - intros value H. unfold Play.ai_move, Play.ai_move_body. rewrite H. reflexivity.
Qed.

Lemma minimax_without_moves_witness :
  let g := Game.mk blocked_black BLACK None [] [] 15 true 4 in
  Minimax.minimax blocked_black 4 true g NegInf PosInf = Ok (NegInf, None)
  /\ Play.ai_move g = Ok g.
Proof.
  intros g.
  destruct (minimax_without_moves g blocked_black 4 true NegInf PosInf) as [H1 H2].
  assert (E : Minimax.minimax blocked_black 4 true g NegInf PosInf = Ok (NegInf, None)).
  { apply H1; [reflexivity | vm_compute; reflexivity | vm_compute; reflexivity]. }
  split; [exact E|]. apply (H2 NegInf). exact E.
Defined.

(** C8 does not hold once a winner exists: with the last black piece gone
    nothing is enumerated for BLACK at the root, and [minimax] returns the
    position it was given, not none. *)
Lemma minimax_returns_position_without_moves :
  ~ (forall (position : Board.t) (depth : Z) (game : Game.t),
       0 < depth ->
       Minimax.get_all_moves position BLACK game = Ok [] ->
       exists value,
         Minimax.minimax position depth true game NegInf PosInf = Ok (value, None)).
Proof.
  intros H.
  destruct (H lone_white 4 (Game.mk lone_white BLACK None [] [] 15 true 4))
    as [value E]; [reflexivity | vm_compute; reflexivity|].
  vm_compute in E. discriminate.
Qed.

(** ** Boards produced by the search stay well formed *)

Lemma remove_well_formed (pieces : list Piece.t) (b b' : Board.t) :
  well_formed b -> Board.remove b pieces = Ok b' -> well_formed b'.
Proof.
  revert b. induction pieces as [|p pieces IH]; simpl; intros b Hwf H.
  - inversion H; subst; assumption.
  - destruct (grid_set (Board.board b) (Piece.row p) (Piece.col p) Empty) as [g|] eqn:E;
      [|discriminate].
    cbn [bind] in H.
    assert (Hg : grid_ok g /\ coherent g).
    { split; [eapply grid_set_ok; [exact E | apply Hwf]
             | eapply clear_coherent; [exact E | apply Hwf]]. }
    destruct (color_eqb (Piece.color p) WHITE); eapply IH; try exact H; exact Hg.
Qed.

Lemma cell_eqb_eq (a b : cell) : cell_eqb a b = true <-> a = b.
Proof.
  destruct a, b; simpl; try (split; congruence).
  rewrite piece_eqb_eq. split; congruence.
Qed.

Lemma move_well_formed (b b' : Board.t) (p p' : Piece.t) (r c : Z) :
  well_formed b -> piece_on_grid p ->
  slot (Board.board b) (Piece.row p) (Piece.col p) = Some (Occ p) ->
  on_grid r c -> slot (Board.board b) r c = Some Empty ->
  Board.move b p r c = Ok (b', p') ->
  well_formed b'.
Proof.
  intros [Hg Hc] Hp Hhere Hrc Hthere H.
  unfold Board.move in H.
  destruct (grid_get_slot _ r c Hg Hrc) as (x & Hx & Ex).
  rewrite Hthere in Hx. inversion Hx; subst x. rewrite Ex in H; cbn [bind] in H.
  destruct (grid_get_slot _ _ _ Hg Hp) as (y & Hy & Ey).
  rewrite Hhere in Hy. inversion Hy; subst y. rewrite Ey in H; cbn [bind] in H.
  destruct (grid_set_inside (Board.board b) _ _ Empty Hg Hp) as (g1 & E1 & Hg1 & S1 & O1).
  rewrite E1 in H; cbn [bind] in H.
  destruct (grid_set_inside g1 r c (Occ p) Hg1 Hrc) as (g2 & E2 & Hg2 & S2 & O2).
  rewrite E2 in H; cbn [bind] in H.
  assert (Hne : (Piece.row p, Piece.col p) <> (r, c)).
  { intros E. inversion E; subst. congruence. }
  assert (Hfinal : forall q, Piece.row q = r -> Piece.col q = c ->
            well_formed (Board.with_board b (Board.rebind g2 p q))).
  { intros q Hqr Hqc. split; cbn [Board.with_board Board.board].
    - apply grid_ok_map; assumption.
    - intros r' c' q' Hrc' Hs. unfold Board.rebind in Hs.
      rewrite slot_cell_at, cell_at_map, <- slot_cell_at in Hs.
      destruct (slot g2 r' c') as [z|] eqn:Ez; [|discriminate].
      simpl in Hs.
      assert (Hcase : (r', c') = (r, c) \/ (r', c') <> (r, c)).
      { destruct (Z.eq_dec r' r); destruct (Z.eq_dec c' c); subst; auto;
          right; intros E; inversion E; contradiction. }
      destruct Hcase as [E | Hother].
      + inversion E; subst r' c'. rewrite S2 in Ez. inversion Ez; subst z.
        replace (cell_eqb (Occ p) (Occ p)) with true in Hs
          by (symmetry; apply cell_eqb_eq; reflexivity).
        inversion Hs; subst q'. auto.
      + rewrite (O2 r' c' Hrc' Hother) in Ez.
        assert (Hcase' : (r', c') = (Piece.row p, Piece.col p)
                         \/ (r', c') <> (Piece.row p, Piece.col p)).
        { destruct (Z.eq_dec r' (Piece.row p)); destruct (Z.eq_dec c' (Piece.col p));
            subst; auto; right; intros E; inversion E; contradiction. }
        destruct Hcase' as [E | Hother'].
        * inversion E; subst r' c'. rewrite S1 in Ez. inversion Ez; subst z.
          simpl in Hs. discriminate.
        * rewrite (O1 r' c' Hrc' Hother') in Ez.
          destruct (cell_eqb z (Occ p)) eqn:Eq.
          -- apply cell_eqb_eq in Eq. subst z.
             destruct (Hc r' c' p Hrc' Ez) as [<- <-]. exfalso. apply Hother'. reflexivity.
          -- inversion Hs; subst z. apply (Hc r' c' q' Hrc' Ez). }
  destruct ((r =? ROWS - 1) || (r =? 0)).
  - cbn [Piece.elevate_to_king Piece.king negb] in H. rewrite andb_false_r in H.
    inversion H; subst.
    apply (Hfinal (Piece.elevate_to_king (Piece.move p r c))); reflexivity.
  - inversion H; subst. apply (Hfinal (Piece.move p r c)); reflexivity.
Qed.

Lemma boards_of_well_formed (board : Board.t) (game : Game.t) (piece : Piece.t)
    (items : moves_t) (acc boards : list Board.t) :
  well_formed board -> piece_on_grid piece ->
  slot (Board.board board) (Piece.row piece) (Piece.col piece) = Some (Occ piece) ->
  Forall (found_ok board (Piece.row piece)) items ->
  Forall well_formed acc ->
  Minimax.boards_of board game piece items acc = Ok boards ->
  Forall well_formed boards.
Proof.
  intros Hwf Hp Hs. revert acc.
  induction items as [|[move skip] items IH]; simpl; intros acc Hitems Hacc H.
  - inversion H; subst; assumption.
  - inversion Hitems as [|? ? Hfirst Hrest]; subst.
    destruct Hfirst as (Hon & Hempty & _). simpl in Hon, Hempty.
    destruct (grid_get_slot _ _ _ (proj1 Hwf) Hp) as (y & Hy & Ey).
    rewrite Hs in Hy. inversion Hy; subst y.
    unfold Board.get_piece in H. rewrite Ey in H; cbn [bind] in H.
    unfold Minimax.simulate_move in H.
    destruct (Board.move board piece (fst move) (snd move)) as [[b1 p1]|] eqn:Em;
      [|discriminate].
    cbn [bind] in H.
    assert (Hb1 : well_formed b1) by (eapply move_well_formed; eauto).
    destruct (nonempty skip).
    + destruct (Board.remove b1 skip) as [b2|] eqn:Er; [|discriminate].
      cbn [bind] in H. apply (IH (acc ++ [b2])); auto.
      apply Forall_app. split; auto. constructor; auto.
      eapply remove_well_formed; eauto.
    + cbn [bind] in H. apply (IH (acc ++ [b1])); auto.
      apply Forall_app. split; auto.
Qed.

Lemma collect_well_formed (board : Board.t) (game : Game.t) (skp : bool)
    (pieces : list Piece.t) (acc boards : list Board.t) :
  well_formed board ->
  Forall (fun p => piece_on_grid p
                   /\ slot (Board.board board) (Piece.row p) (Piece.col p) = Some (Occ p))
         pieces ->
  Forall well_formed acc ->
  Minimax.collect board game skp pieces acc = Ok boards ->
  Forall well_formed boards.
Proof.
  intros Hwf. revert acc.
  induction pieces as [|p pieces IH]; simpl; intros acc Hps Hacc H.
  - inversion H; subst; assumption.
  - inversion Hps as [|? ? [Hp Hs] Hrest]; subst.
    destruct (get_valid_moves_ok board p (proj1 Hwf) Hp) as (m & h & E & Hm & _).
    rewrite E in H; cbn [bind] in H.
    destruct (skp && negb h).
    + eapply IH; eauto.
    + destruct (Minimax.boards_of board game p m acc) as [acc'|] eqn:Eb; [|discriminate].
      cbn [bind] in H. eapply IH; [exact Hrest | | exact H].
      eapply boards_of_well_formed; eauto.
Qed.

Lemma get_all_moves_well_formed (board : Board.t) (color : Color) (game : Game.t)
    (boards : list Board.t) :
  well_formed board ->
  Minimax.get_all_moves board color game = Ok boards ->
  Forall well_formed boards.
Proof.
  intros Hwf H. unfold Minimax.get_all_moves in H.
  destruct (Minimax.any_capture board (Board.get_all_pieces board color) false)
    as [skp|]; [|discriminate].
  cbn [bind] in H.
  apply (collect_well_formed board game skp (Board.get_all_pieces board color) []
           boards Hwf); [|constructor | exact H].
  rewrite Forall_forall. intros p Hp.
  destruct (pieces_on_grid board color p Hwf Hp) as (H1 & H2 & _). auto.
Qed.

Lemma max_loop_choice (self : Minimax.searcher) (depth : Z) (max_player : bool)
    (game : Game.t) (beta : score) (moves : list Board.t) :
  forall best_score best_move alpha value chosen,
    Minimax.max_loop self depth max_player game beta moves best_score best_move alpha
    = Ok (value, Some chosen) ->
    best_move = Some chosen \/ In chosen moves.
Proof.
  induction moves as [|move rest IH]; simpl; intros bs bm alpha value chosen H.
  - inversion H; auto.
  - destruct (self move (depth - 1) (negb max_player) game alpha beta) as [[sc unused]|];
      [|discriminate].
    cbn [bind] in H.
    destruct (score_leb bs sc).
    + destruct (score_leb beta (score_max alpha sc)).
      * inversion H; auto.
      * apply IH in H. destruct H as [H | H]; [inversion H|]; auto.
    + destruct (score_leb beta (score_max alpha bs)).
      * inversion H; auto.
      * apply IH in H. destruct H as [H | H]; auto.
Qed.

Lemma min_loop_choice (self : Minimax.searcher) (depth : Z) (max_player : bool)
    (game : Game.t) (alpha : score) (moves : list Board.t) :
  forall best_score best_move beta value chosen,
    Minimax.min_loop self depth max_player game alpha moves best_score best_move beta
    = Ok (value, Some chosen) ->
    best_move = Some chosen \/ In chosen moves.
Proof.
  induction moves as [|move rest IH]; simpl; intros bs bm beta value chosen H.
  - inversion H; auto.
  - destruct (self move (depth - 1) (negb max_player) game alpha beta) as [[sc unused]|];
      [|discriminate].
    cbn [bind] in H.
    destruct (score_leb sc bs).
    + destruct (score_leb (score_min beta sc) alpha).
      * inversion H; auto.
      * apply IH in H. destruct H as [H | H]; [inversion H|]; auto.
    + destruct (score_leb (score_min beta bs) alpha).
      * inversion H; auto.
      * apply IH in H. destruct H as [H | H]; auto.
Qed.

(** The board [minimax] returns is the position or one of the enumerated
    boards, so it is well formed when the position is. *)
Lemma minimax_well_formed (position chosen : Board.t) (depth : Z) (max_player : bool)
    (game : Game.t) (alpha beta value : score) :
  well_formed position ->
  Minimax.minimax position depth max_player game alpha beta = Ok (value, Some chosen) ->
  well_formed chosen.
Proof.
  intros Hwf. rewrite minimax_unfold. unfold Minimax.minimax_body. intros H.
  destruct (Minimax.is_terminal position depth) as [[|]|]; [| |discriminate];
    cbn [bind] in H.
  - rewrite (prepare_board_state_normalized position Hwf) in H. cbn [bind] in H.
    destruct (index_of _ _); inversion H; subst; assumption.
  - destruct max_player.
    + destruct (Minimax.get_all_moves position BLACK game) as [moves|] eqn:Em;
        [|discriminate].
      cbn [bind] in H. apply max_loop_choice in H.
      destruct H as [H | H]; [discriminate|].
      assert (Hall := get_all_moves_well_formed _ _ _ _ Hwf Em).
      rewrite Forall_forall in Hall. auto.
    + destruct (Minimax.get_all_moves position WHITE game) as [moves|] eqn:Em;
        [|discriminate].
      cbn [bind] in H. apply min_loop_choice in H.
      destruct H as [H | H]; [discriminate|].
      assert (Hall := get_all_moves_well_formed _ _ _ _ Hwf Em).
      rewrite Forall_forall in Hall. auto.
Qed.

(** ** The automated turn *)

Lemma change_turn_black (g : Game.t) :
  Game.turn g = BLACK ->
  Play._change_turn g = Ok (Play.with_turn (Play.with_selection g None []) WHITE).
Proof.
  intros H. unfold Play._change_turn.
  change recursion_limit with (S (pred recursion_limit)).
  cbn [Play.change_turn_rec Play.with_selection Game.turn]. rewrite H. reflexivity.
Qed.

(** C9.  When [minimax] gives [ai_move] a board, the game adopts it and the
    normalized snapshot of that board is put in front of the history; if
    the history is then longer than [history_length] its last entry is
    removed, so a history within the capacity stays within it. *)
Theorem ai_move_records_snapshot (g : Game.t) (value : score) (new_board : Board.t) :
  well_formed (Game.board g) ->
  Game.turn g = BLACK ->
  Z.of_nat (length (Game.board_history g)) <= Game.history_length g ->
  Minimax.minimax (Game.get_board g) (Game.ai_intelligence g) true g NegInf PosInf
  = Ok (value, Some new_board) ->
  exists g',
    Play.ai_move g = Ok g'
    /\ Game.board g' = new_board
    /\ Game.turn g' = WHITE
    /\ Game.history_length g' = Game.history_length g
    /\ (Z.of_nat (length (Game.board_history g)) < Game.history_length g ->
        Game.board_history g'
        = normalized (Board.board new_board) :: Game.board_history g)
    /\ (Z.of_nat (length (Game.board_history g)) = Game.history_length g ->
        Game.board_history g'
        = removelast (normalized (Board.board new_board) :: Game.board_history g))
    /\ Game.board_history g'
       = firstn (Z.to_nat (Game.history_length g))
                (normalized (Board.board new_board) :: Game.board_history g)
    /\ Z.of_nat (length (Game.board_history g')) <= Game.history_length g'.
Proof.
  intros Hwf Hturn Hcap Hmm.
  assert (Hnew : well_formed new_board)
    by (eapply minimax_well_formed; [exact Hwf | exact Hmm]).
  unfold Play.ai_move, Play.ai_move_body. rewrite Hmm. cbn [bind].
  rewrite (prepare_board_state_normalized new_board Hnew). cbn [bind].
  cbn [Play.with_board Play.with_history Game.board_history Game.history_length
       Game.board Game.turn Game.selected Game.valid_moves Game.ai
       Game.ai_intelligence app].
  set (snap := normalized (Board.board new_board)).
  set (h := Game.board_history g) in *.
  destruct (Z.ltb_spec (Game.history_length g) (Z.of_nat (length (snap :: h))))
    as [Hover | Hfits]; cbn [length] in *; clearbody h snap.
  - rewrite change_turn_black by exact Hturn.
    eexists. split; [reflexivity|].
    cbn [Play.with_turn Play.with_selection Play.with_history Play.with_board
         Game.board Game.turn Game.history_length Game.board_history].
    assert (Hlen : Z.to_nat (Game.history_length g) = length h) by lia.
    split; [reflexivity | split; [reflexivity | split; [reflexivity|]]].
    split; [intros; lia|]. split; [reflexivity|]. split.
    + rewrite Hlen. rewrite removelast_firstn_len. reflexivity.
    + rewrite removelast_firstn_len, length_firstn. cbn [length]. lia.
  - rewrite change_turn_black by exact Hturn.
    eexists. split; [reflexivity|].
    cbn [Play.with_turn Play.with_selection Play.with_history Play.with_board
         Game.board Game.turn Game.history_length Game.board_history].
    split; [reflexivity | split; [reflexivity | split; [reflexivity|]]].
    split; [reflexivity|]. split; [intros; lia|]. split.
    + rewrite firstn_all2; [reflexivity|]. cbn [length]. lia.
    + cbn [length]. lia.
Qed.

Lemma after_opening_well_formed : well_formed (Game.board after_opening).
Proof. concrete_well_formed. Qed.

Lemma ai_move_records_snapshot_witness :
  exists g',
    Play.ai_move after_opening = Ok g'
    /\ Game.turn g' = WHITE
    /\ Game.board_history g' = [normalized (Board.board (Game.board g'))].
Proof.
  destruct (Minimax.minimax (Game.get_board after_opening)
              (Game.ai_intelligence after_opening) true after_opening NegInf PosInf)
    as [[value [new_board|]]|] eqn:E;
    [|vm_compute in E; discriminate | vm_compute in E; discriminate].
  destruct (ai_move_records_snapshot after_opening value new_board
              after_opening_well_formed eq_refl) as (g' & H1 & H2 & H3 & _ & H5 & _);
    [vm_compute; discriminate | exact E|].
  exists g'. split; [exact H1|]. split; [exact H3|].
  rewrite H2. apply H5. vm_compute. reflexivity.
Defined.

(** ** Continuation of a capture *)

(** The man of [hook] is offered 3,4 only; the king of [hook_king] is also
    offered 5,6 with both captures. *)
Lemma hook_moves :
  Board.get_valid_moves hook (Piece.mk 5 2 WHITE false)
  = Ok ([((3, 4), [Piece.mk 4 3 BLACK false])], true)
  /\ Board.get_valid_moves hook_king (Piece.mk 5 2 WHITE true)
     = Ok ([((3, 4), [Piece.mk 4 3 BLACK false]);
            ((5, 6), [Piece.mk 4 5 BLACK false; Piece.mk 4 3 BLACK false])], true).
Proof. split; vm_compute; reflexivity. Qed.

(** C6 does not hold for a man: a jump open behind the landing slot is not
    followed. *)
Lemma man_does_not_jump_backwards :
  ~ (forall (b : Board.t) (p : Piece.t) (all : moves_t) (landing : pos)
            (captured : list Piece.t) (dr dc : Z),
       Board.discover b p = Ok all ->
       In (landing, captured) all -> captured <> [] ->
       (dr = 1 \/ dr = -1) -> (dc = 1 \/ dc = -1) ->
       jump_open b (Piece.color p) captured (fst landing) (snd landing) dr dc ->
       dict_get all (fst landing + 2 * dr, snd landing + 2 * dc) <> None).
Proof.
  intros H.
  apply (H hook (Piece.mk 5 2 WHITE false)
           [((4, 1), []); ((3, 4), [Piece.mk 4 3 BLACK false])]
           (3, 4) [Piece.mk 4 3 BLACK false] 1 1).
  - vm_compute. reflexivity.
  - right. left. reflexivity.
  - discriminate.
  - left. reflexivity.
  - left. reflexivity.
  - exists (Piece.mk 4 5 BLACK false). simpl.
    split; [reflexivity|]. split; [discriminate|]. split.
    + intros [E | []]. discriminate.
    + split; [unfold on_grid, ROWS, COLS; lia | reflexivity].
  - reflexivity.
Qed.

(** C6, with the king test.  When a direction of the search meets an
    opponent piece with an empty slot behind it, the landing slot is
    recorded with the captured piece in front of the capture list, and the
    search goes on from the landing slot along the two diagonals that keep
    the row direction of the jump; the two diagonals of the opposite row
    direction are searched only for a king.  Accordingly every destination
    [get_valid_moves] gives a man lies ahead of it: on a lower row for
    white, on a higher row for black. *)
Theorem capture_continuation :
  (forall (fuel : nat) (b : Board.t) (sd : side) (is_king : bool)
          (start stop step c : Z) (color : Color)
          (skipped : list Piece.t) (q : Piece.t),
     py_range start stop step = [start; start + step] ->
     Board.off_board sd c = false ->
     Board.get_piece b start c = Ok (Occ q) ->
     cell_in (Occ q) skipped = false ->
     color_eqb (Piece.color q) color = false ->
     Board.off_board sd (Board.advance sd c) = false ->
     Board.get_piece b (start + step) (Board.advance sd c) = Ok Empty ->
     let r := start + step in
     let c' := Board.advance sd c in
     let ahead_stop := if step =? -1 then Z.max (r - 3) (-1) else Z.min (r + 3) ROWS in
     let behind_stop := if step =? -1 then Z.min (r + 3) ROWS else Z.max (r - 3) (-1) in
     let moves0 := [((r, c'), q :: skipped)] in
     Board._search (S fuel) b sd is_king start stop step color c skipped
     = (found <- Board._search fuel b SLeft is_king (r + step) ahead_stop step color
                   (c' - 1) (q :: skipped) ;;
        let moves1 := dict_update moves0 found in
        sk <- dict_lookup moves1 (r, c') ;;
        found <- Board._search fuel b SRight is_king (r + step) ahead_stop step color
                   (c' + 1) sk ;;
        let moves2 := dict_update moves1 found in
        if is_king then
          sk <- dict_lookup moves2 (r, c') ;;
          found <- Board._search fuel b SLeft is_king (r - step) behind_stop (- step)
                     color (c' - 1) sk ;;
          let moves3 := dict_update moves2 found in
          sk <- dict_lookup moves3 (r, c') ;;
          found <- Board._search fuel b SRight is_king (r - step) behind_stop (- step)
                     color (c' + 1) sk ;;
          Ok (dict_update moves3 found)
        else Ok moves2))
  /\ (forall (b : Board.t) (p : Piece.t) (m : moves_t) (h : bool),
        grid_ok (Board.board b) -> piece_on_grid p ->
        Piece.king p = false ->
        Board.get_valid_moves b p = Ok (m, h) ->
        Forall (fun kv => if color_eqb (Piece.color p) WHITE
                          then fst (fst kv) < Piece.row p
                          else Piece.row p < fst (fst kv)) m).
Proof.
  split.
  - intros fuel b sd is_king start stop step c color skipped q
           Hrange Hoff Hq Hin Hopp Hoff' Hland r c' ahead_stop behind_stop moves0.
    cbn [Board._search]. unfold Board.search_body. rewrite Hrange.
    cbn [Board.search_loop]. rewrite Hoff, Hq. cbn [bind]. rewrite Hin, Hopp.
    rewrite Hoff', Hland. cbn [bind cell_in nonempty negb].
    rewrite andb_false_r.
    replace (if nonempty skipped
             then dict_set [] (start + step, Board.advance sd c) ([q] ++ skipped)
             else dict_set [] (start + step, Board.advance sd c) [q]) with moves0
      by (unfold moves0, r, c'; destruct skipped; reflexivity).
    unfold Board.continue_chain, moves0, ahead_stop, behind_stop, r, c'.
    unfold dict_lookup at 1. cbn [dict_get].
    rewrite pos_eqb_refl. cbn [bind]. reflexivity.
  - intros b p m h Hg Hp Hman E.
    destruct (get_valid_moves_ok b p Hg Hp) as (m' & h' & E' & _ & Hahead & _).
    rewrite E in E'. inversion E'; subst m' h'.
    eapply Forall_impl; [|exact Hahead]. intros kv H. apply H. exact Hman.
Qed.

Lemma capture_continuation_witness :
  Forall (fun kv : pos * list Piece.t => fst (fst kv) < 5)
         [((3, 4), [Piece.mk 4 3 BLACK false])]
  /\ Board._search 2 hook SRight false 4 2 (-1) WHITE 3 []
     = Ok [((3, 4), [Piece.mk 4 3 BLACK false])].
Proof.
  split.
  - apply (proj2 capture_continuation hook (Piece.mk 5 2 WHITE false)
             [((3, 4), [Piece.mk 4 3 BLACK false])] true).
    + split; [reflexivity | repeat constructor].
    + unfold piece_on_grid, on_grid, ROWS, COLS; simpl; lia.
    + reflexivity.
    + vm_compute; reflexivity.
  - rewrite (proj1 capture_continuation 1%nat hook SRight false 4 2 (-1) 3 WHITE []
               (Piece.mk 4 3 BLACK false));
      vm_compute; reflexivity.
Defined.

(** ** Forced capture: [get_valid_moves] and [select] *)

Lemma two_plies_well_formed : well_formed two_plies.
Proof. concrete_well_formed. Qed.

(** C4 does not hold of [get_valid_moves] alone: in [two_plies] the white
    man on 4,3 can capture, and the white man on 5,6 is still given its two
    plain steps. *)
Lemma plain_steps_beside_a_capture :
  ~ (forall (b : Board.t) (color : Color) (q p : Piece.t) (mq m : moves_t) (h : bool),
       In q (Board.get_all_pieces b color) ->
       Board.get_valid_moves b q = Ok (mq, true) ->
       In p (Board.get_all_pieces b color) ->
       Board.get_valid_moves b p = Ok (m, h) ->
       Forall (fun kv => snd kv <> []) m).
Proof.
  intros H.
  assert (Hall := H two_plies WHITE (Piece.mk 4 3 WHITE false) (Piece.mk 5 6 WHITE false)
                    [((2, 5), [Piece.mk 3 4 BLACK false])]
                    [((4, 5), []); ((4, 7), [])] false).
  assert (Hbad : Forall (fun kv : pos * list Piece.t => snd kv <> [])
                        [((4, 5), []); ((4, 7), [])]).
  { apply Hall.
    - vm_compute. tauto.
    - vm_compute. reflexivity.
    - vm_compute. tauto.
    - vm_compute. reflexivity. }
  inversion Hbad as [|? ? Hhead _]. apply Hhead. reflexivity.
Qed.

(** C4, piece by piece.  When some piece of the side to move has a
    capture, [get_valid_moves] still answers piece by piece: for a piece
    with a capture of its own it returns capturing entries only, for a
    piece without one it returns the plain steps of that piece and the flag
    false.  The rule is enforced by [select]: on a slot that holds a piece
    of the side to move without a capture it returns false and leaves no
    piece selected and no destination. *)
Theorem forced_capture_at_selection (g : Game.t) (row col : Z) (p q : Piece.t)
    (mq : moves_t) :
  well_formed (Game.board g) ->
  on_grid row col ->
  slot (Board.board (Game.board g)) row col = Some (Occ p) ->
  Piece.color p = Game.turn g ->
  In q (Board.get_all_pieces (Game.board g) (Game.turn g)) ->
  Board.get_valid_moves (Game.board g) q = Ok (mq, true) ->
  (forall p', In p' (Board.get_all_pieces (Game.board g) (Game.turn g)) ->
     exists m h,
       Board.get_valid_moves (Game.board g) p' = Ok (m, h)
       /\ (h = true -> m <> [] /\ Forall (fun kv => snd kv <> []) m)
       /\ (h = false -> m = simple_steps (Game.board g) p'))
  /\ (forall m, Board.get_valid_moves (Game.board g) p = Ok (m, false) ->
        exists g',
          Play.select g row col = Ok (g', false)
          /\ Game.selected g' = None
          /\ Game.valid_moves g' = []
          /\ Game.board g' = Game.board g
          /\ Game.turn g' = Game.turn g).
Proof.
  intros Hwf Hrc Hs Hcol Hq Eq. split.
  - intros p' Hp'. destruct (pieces_on_grid _ _ _ Hwf Hp') as [Hon _].
    destruct (get_valid_moves_ok _ p' (proj1 Hwf) Hon) as (m & h & E & _ & _ & H1 & H2).
    exists m, h. auto.
  - intros m Ep. exists (Play.with_selection g None []).
    split; [|repeat split].
    apply (select_refuses g row col p q m mq); assumption.
Qed.

Lemma forced_capture_at_selection_witness :
  let g := Game.mk two_plies WHITE None [] [] 15 true 4 in
  exists g',
    Play.select g 5 6 = Ok (g', false)
    /\ Game.selected g' = None
    /\ Game.valid_moves g' = [].
Proof.
  intros g.
  destruct (forced_capture_at_selection g 5 6 (Piece.mk 5 6 WHITE false)
              (Piece.mk 4 3 WHITE false) [((2, 5), [Piece.mk 3 4 BLACK false])])
    as [_ H].
  - exact two_plies_well_formed.
  - unfold on_grid, ROWS, COLS; lia.
  - vm_compute; reflexivity.
  - reflexivity.
  - vm_compute; tauto.
  - vm_compute; reflexivity.
  - destruct (H [((4, 5), []); ((4, 7), [])]) as (g' & H1 & H2 & H3 & _).
    + vm_compute; reflexivity.
    + exists g'. auto.
Defined.

(** ** Mouse positions *)

Lemma get_position_inside (x y : Z) :
  BOARD_OFFSET <= x <= BOARD_OFFSET + BOARD_WIDTH ->
  BOARD_OFFSET <= y <= BOARD_OFFSET + BOARD_WIDTH ->
  let '(row, col) := Game.get_position (x, y) in
  0 <= row <= ROWS /\ 0 <= col <= COLS
  /\ (row = ROWS <-> y = BOARD_OFFSET + BOARD_WIDTH)
  /\ (col = COLS <-> x = BOARD_OFFSET + BOARD_WIDTH).
Proof.
  unfold Game.get_position, BOARD_OFFSET, BOARD_WIDTH, ROWS, COLS.
  change SQUARE_SIZE with 125. intros Hx Hy.
  replace (x <? 100) with false by (symmetry; apply Z.ltb_ge; lia).
  replace (y <? 100) with false by (symmetry; apply Z.ltb_ge; lia).
  replace (1000 + 100 <? x) with false by (symmetry; apply Z.ltb_ge; lia).
  replace (1000 + 100 <? y) with false by (symmetry; apply Z.ltb_ge; lia).
  cbn [orb].
  assert (Hq : forall z, 100 <= z <= 100 + 1000 ->
            0 <= (z - 100) / 125 <= 8 /\ ((z - 100) / 125 = 8 <-> z = 100 + 1000)).
  { intros z Hz.
    assert (H1 := Z.div_pos (z - 100) 125).
    assert (H2 : (z - 100) / 125 <= 1000 / 125) by (apply Z.div_le_mono; lia).
    change (1000 / 125) with 8 in H2.
    split; [lia|]. split; intros E.
    - assert (H3 := Z.mul_div_le (z - 100) 125). lia.
    - subst z. reflexivity. }
  destruct (Hq x Hx) as [H1 H2]. destruct (Hq y Hy) as [H3 H4]. tauto.
Qed.

(** X1.  For a mouse position inside the board square, borders included,
    [get_position] returns a row and a column between 0 and 8; row 8 is
    returned exactly on the last pixel line of the square and column 8
    exactly on its last pixel column, so the range 0 to 7 is left there.
    For every position outside the square it returns (-1, -1). *)
Theorem get_position_range (x y : Z) :
  (BOARD_OFFSET <= x <= BOARD_OFFSET + BOARD_WIDTH ->
   BOARD_OFFSET <= y <= BOARD_OFFSET + BOARD_WIDTH ->
   let '(row, col) := Game.get_position (x, y) in
   0 <= row <= ROWS /\ 0 <= col <= COLS
   /\ (row = ROWS <-> y = BOARD_OFFSET + BOARD_WIDTH)
   /\ (col = COLS <-> x = BOARD_OFFSET + BOARD_WIDTH))
  /\ (~ (BOARD_OFFSET <= x <= BOARD_OFFSET + BOARD_WIDTH
         /\ BOARD_OFFSET <= y <= BOARD_OFFSET + BOARD_WIDTH) ->
      Game.get_position (x, y) = (-1, -1)).
Proof.
  split; [exact (get_position_inside x y)|].
  unfold Game.get_position, BOARD_OFFSET, BOARD_WIDTH. intros H.
  destruct (Z.ltb_spec x 100); [reflexivity|].
  destruct (Z.ltb_spec y 100); [reflexivity|].
  destruct (Z.ltb_spec (1000 + 100) x); [reflexivity|].
  destruct (Z.ltb_spec (1000 + 100) y); [reflexivity|].
  exfalso. apply H. lia.
Qed.

(** X2.  The screen position [calculate_position] gives a piece that
    stands on the grid lies in the square of that piece: [get_position]
    maps it back to the row and the column of the piece. *)
Theorem get_position_of_piece (p : Piece.t) :
  piece_on_grid p ->
  Game.get_position (Piece.calculate_position p) = (Piece.row p, Piece.col p).
Proof.
  intros [Hr Hc]. unfold ROWS, COLS in *.
  unfold Game.get_position, Piece.calculate_position, BOARD_OFFSET, BOARD_WIDTH.
  change SQUARE_SIZE with 125. change (125 / 8) with 15.
  replace (125 * Piece.col p + 15 + 100 <? 100) with false by (symmetry; apply Z.ltb_ge; lia).
  replace (125 * Piece.row p + 15 + 100 <? 100) with false by (symmetry; apply Z.ltb_ge; lia).
  replace (1000 + 100 <? 125 * Piece.col p + 15 + 100) with false
    by (symmetry; apply Z.ltb_ge; lia).
  replace (1000 + 100 <? 125 * Piece.row p + 15 + 100) with false
    by (symmetry; apply Z.ltb_ge; lia).
  cbn [orb]. f_equal.
  - replace (125 * Piece.row p + 15 + 100 - 100) with (Piece.row p * 125 + 15) by lia.
    rewrite Z.div_add_l by lia. change (15 / 125) with 0. lia.
  - replace (125 * Piece.col p + 15 + 100 - 100) with (Piece.col p * 125 + 15) by lia.
    rewrite Z.div_add_l by lia. change (15 / 125) with 0. lia.
Qed.

(** ** Coordinates outside the grid *)

Lemma py_get_outside {A : Type} (l : list A) (i : Z) :
  ~ (- Z.of_nat (length l) <= i < Z.of_nat (length l)) -> py_get l i = Raise IndexError.
Proof.
  intros H. unfold py_get, py_index.
  destruct ((0 <=? i) && (i <? Z.of_nat (length l))) eqn:E1.
  { apply andb_true_iff in E1. destruct E1 as [E1 E2].
    apply Z.leb_le in E1. apply Z.ltb_lt in E2. lia. }
  destruct ((i <? 0) && (0 <=? i + Z.of_nat (length l))) eqn:E2; [|reflexivity].
  apply andb_true_iff in E2. destruct E2 as [E2 E3].
  apply Z.ltb_lt in E2. apply Z.leb_le in E3. lia.
Qed.

Lemma py_get_negative {A : Type} (l : list A) (i : Z) :
  - Z.of_nat (length l) <= i < 0 -> py_get l i = py_get l (i + Z.of_nat (length l)).
Proof.
  intros H. unfold py_get, py_index.
  replace ((0 <=? i) && (i <? Z.of_nat (length l))) with false
    by (symmetry; apply andb_false_iff; left; apply Z.leb_gt; lia).
  replace ((i <? 0) && (0 <=? i + Z.of_nat (length l))) with true
    by (symmetry; apply andb_true_iff; split; [apply Z.ltb_lt | apply Z.leb_le]; lia).
  replace ((0 <=? i + Z.of_nat (length l))
           && (i + Z.of_nat (length l) <? Z.of_nat (length l))) with true
    by (symmetry; apply andb_true_iff; split; [apply Z.leb_le | apply Z.ltb_lt]; lia).
  reflexivity.
Qed.

Lemma wrap_negative (i : Z) : -8 <= i < 0 -> i + 8 = i mod 8.
Proof.
  intros H. symmetry. rewrite <- (Z_mod_plus_full i 1 8).
  apply Z.mod_small. lia.
Qed.

Lemma get_piece_outside (b : Board.t) (r c : Z) :
  grid_ok (Board.board b) ->
  ~ (- ROWS <= r < ROWS /\ - COLS <= c < COLS) ->
  Board.get_piece b r c = Raise IndexError.
Proof.
  intros Hg. unfold Board.get_piece, ROWS, COLS. intros H.
  assert (Hlen : Z.of_nat (length (Board.board b)) = 8) by (destruct Hg as [-> _]; reflexivity).
  unfold grid_get.
  destruct (Z_lt_le_dec r (-8)) as [Hlo | Hlo];
    [rewrite py_get_outside by lia; reflexivity|].
  destruct (Z_lt_le_dec r 8) as [Hhi | Hhi];
    [|rewrite py_get_outside by lia; reflexivity].
  assert (Hrow : exists line, py_get (Board.board b) r = Ok line /\ length line = 8%nat).
  { destruct (Z.neg_nonneg_cases r) as [Hn | Hn].
    - rewrite py_get_negative by lia.
      destruct (grid_ok_line _ (r + Z.of_nat (length (Board.board b))) Hg)
        as (line & _ & Hl & Hp); [unfold ROWS; lia|]. eauto.
    - destruct (grid_ok_line _ r Hg) as (line & _ & Hl & Hp); [unfold ROWS; lia|].
      eauto. }
  destruct Hrow as (line & Hp & Hl). rewrite Hp. cbn [bind].
  apply py_get_outside. rewrite Hl. lia.
Qed.

(** X3.  On an 8 x 8 grid [get_piece] returns the slot of a position on
    the grid; a row or column from -8 to -1 is not refused but counted
    from the end, so the call reads the slot of the coordinates taken
    modulo 8; any other coordinate raises IndexError. *)
Theorem get_piece_range (b : Board.t) (r c : Z) :
  grid_ok (Board.board b) ->
  (on_grid r c ->
   exists x, Board.get_piece b r c = Ok x /\ slot (Board.board b) r c = Some x)
  /\ (- ROWS <= r < ROWS -> - COLS <= c < COLS ->
      Board.get_piece b r c = Board.get_piece b (r mod ROWS) (c mod COLS))
  /\ (~ (- ROWS <= r < ROWS /\ - COLS <= c < COLS) ->
      Board.get_piece b r c = Raise IndexError).
Proof.
  intros Hg. unfold Board.get_piece. split; [|split].
  - intros Hrc. destruct (grid_get_slot _ r c Hg Hrc) as (x & H1 & H2). eauto.
  - unfold ROWS, COLS. intros Hr Hc.
    assert (Hlen : Z.of_nat (length (Board.board b)) = 8) by (destruct Hg as [-> _]; reflexivity).
    assert (Hrow : py_get (Board.board b) r = py_get (Board.board b) (r mod 8)).
    { destruct (Z.neg_nonneg_cases r) as [Hn | Hn].
      - rewrite py_get_negative by lia. rewrite Hlen. f_equal.
        apply wrap_negative; lia.
      - rewrite Z.mod_small by lia. reflexivity. }
    unfold grid_get. rewrite Hrow.
    destruct (grid_ok_line _ (r mod 8) Hg) as (line & Hn & Hl & Hp).
    { unfold ROWS. apply Z.mod_pos_bound. lia. }
    rewrite Hp. cbn [bind].
    assert (Hlen' : Z.of_nat (length line) = 8) by (rewrite Hl; reflexivity).
    destruct (Z.neg_nonneg_cases c) as [Hn' | Hn'].
    + rewrite py_get_negative by lia. rewrite Hlen'. f_equal.
      apply wrap_negative; lia.
    + rewrite Z.mod_small by lia. reflexivity.
  - exact (get_piece_outside b r c Hg).
Qed.

Lemma get_piece_range_witness :
  Board.get_piece Board.init (-1) (-2) = Board.get_piece Board.init 7 6
  /\ Board.get_piece Board.init 3 8 = Raise IndexError.
Proof.
  destruct (get_piece_range Board.init (-1) (-2)) as (_ & H & _);
    [split; [reflexivity | repeat constructor]|].
  destruct (get_piece_range Board.init 3 8) as (_ & _ & H');
    [split; [reflexivity | repeat constructor]|].
  split.
  - apply H; unfold ROWS, COLS; lia.
  - apply H'. unfold ROWS, COLS. lia.
Defined.

Lemma get_position_range_witness :
  Game.get_position (1100, 350) = (2, 8) /\ Game.get_position (99, 350) = (-1, -1).
Proof.
  split; [reflexivity|].
  apply (proj2 (get_position_range 99 350)).
  unfold BOARD_OFFSET, BOARD_WIDTH. lia.
Defined.

Lemma get_position_of_piece_witness :
  Game.get_position (Piece.calculate_position (Piece.mk 5 2 WHITE false)) = (5, 2).
Proof.
  apply (get_position_of_piece (Piece.mk 5 2 WHITE false)).
  unfold piece_on_grid, on_grid, ROWS, COLS; simpl; lia.
Defined.

(** ** A click on the far edge *)

Lemma select_off_grid (g : Game.t) (row col : Z) :
  grid_ok (Board.board (Game.board g)) ->
  ~ (- ROWS <= row < ROWS /\ - COLS <= col < COLS) ->
  Play.select g row col = Raise IndexError.
Proof.
  intros Hg Hout.
  assert (Hget : Board.get_piece (Game.board g) row col = Raise IndexError)
    by (apply (get_piece_outside _ row col Hg); exact Hout).
  unfold Play.select. change recursion_limit with (S (pred recursion_limit)).
  rewrite select_rec_step.
  destruct (Game.selected g).
  - unfold Play._move. rewrite Hget. reflexivity.
  - cbn [bind]. unfold Play.pick. rewrite Hget. reflexivity.
Qed.

(** X4.  A mouse click on the last pixel line or column of the board
    square passes the bounds test of [get_position], reaches [select] with
    row or column 8, and the event branch of [run] ends in IndexError. *)
Theorem mouse_button_down_far_edge (g : Game.t) (x y : Z) :
  grid_ok (Board.board (Game.board g)) ->
  BOARD_OFFSET <= x <= BOARD_OFFSET + BOARD_WIDTH ->
  BOARD_OFFSET <= y <= BOARD_OFFSET + BOARD_WIDTH ->
  x = BOARD_OFFSET + BOARD_WIDTH \/ y = BOARD_OFFSET + BOARD_WIDTH ->
  Play.mouse_button_down g (x, y) = Raise IndexError.
Proof.
  intros Hg Hx Hy Hedge.
  assert (H := get_position_inside x y Hx Hy).
  unfold Play.mouse_button_down.
  destruct (Game.get_position (x, y)) as [row col].
  destruct H as (Hr & Hc & Er & Ec). unfold ROWS, COLS in *.
  replace (row =? -1) with false by (symmetry; apply Z.eqb_neq; lia).
  replace (col =? -1) with false by (symmetry; apply Z.eqb_neq; lia).
  cbn [negb andb].
  rewrite select_off_grid; [reflexivity | exact Hg|].
  unfold ROWS, COLS. destruct Hedge as [E | E]; [apply Ec in E | apply Er in E]; lia.
Qed.

Lemma mouse_button_down_far_edge_witness :
  Play.mouse_button_down Game.default (1100, 350) = Raise IndexError.
Proof.
  apply mouse_button_down_far_edge.
  - split; [reflexivity | repeat constructor].
  - unfold BOARD_OFFSET, BOARD_WIDTH; lia.
  - unfold BOARD_OFFSET, BOARD_WIDTH; lia.
  - left; reflexivity.
Defined.

(** ** The starting position *)

(** X5.  The board a new [Board] holds: it is well formed, its twelve
    black and twelve white pieces are as many as the counters say, all are
    men on squares whose row and column have an odd sum, black on the rows
    up to 2 and white on the rows from 5, and [evaluate] is 0. *)
Theorem create_board_start :
  well_formed Board.init
  /\ Z.of_nat (length (Board.get_all_pieces Board.init BLACK)) = Board.black_left Board.init
  /\ Z.of_nat (length (Board.get_all_pieces Board.init WHITE)) = Board.white_left Board.init
  /\ Forall (fun p => Piece.king p = false
                      /\ Z.odd (Piece.row p + Piece.col p) = true
                      /\ Piece.row p <= 2)
            (Board.get_all_pieces Board.init BLACK)
  /\ Forall (fun p => Piece.king p = false
                      /\ Z.odd (Piece.row p + Piece.col p) = true
                      /\ 5 <= Piece.row p)
            (Board.get_all_pieces Board.init WHITE)
  /\ (Board.evaluate Board.init == 0)%Q.
Proof.
  split; [exact init_well_formed|].
  split; [reflexivity|]. split; [reflexivity|].
  split; [|split].
  - apply Forall_forall. intros p Hp.
    assert (H : forallb (fun p => negb (Piece.king p)
                                  && Z.odd (Piece.row p + Piece.col p)
                                  && (Piece.row p <=? 2))
                        (Board.get_all_pieces Board.init BLACK) = true)
      by (vm_compute; reflexivity).
    rewrite forallb_forall in H. specialize (H p Hp).
    rewrite !andb_true_iff, negb_true_iff, Z.leb_le in H. tauto.
  - apply Forall_forall. intros p Hp.
    assert (H : forallb (fun p => negb (Piece.king p)
                                  && Z.odd (Piece.row p + Piece.col p)
                                  && (5 <=? Piece.row p))
                        (Board.get_all_pieces Board.init WHITE) = true)
      by (vm_compute; reflexivity).
    rewrite forallb_forall in H. specialize (H p Hp).
    rewrite !andb_true_iff, negb_true_iff, Z.leb_le in H. tauto.
  - vm_compute. reflexivity.
Qed.

(** ** [get_skip_status] *)

(** X6.  On a well-formed board [get_skip_status] returns, and its answer
    is true exactly when some piece of the given color has a capture
    according to [get_valid_moves]. *)
Theorem get_skip_status_captures (g : Game.t) (color : Color) :
  well_formed (Game.board g) ->
  exists flag,
    Game.get_skip_status g color = Ok flag
    /\ (flag = true <->
        exists p m, In p (Board.get_all_pieces (Game.board g) color)
                    /\ Board.get_valid_moves (Game.board g) p = Ok (m, true)).
Proof.
  intros Hwf. unfold Game.get_skip_status.
  destruct (skip_status_loop_ok (Game.board g)
              (Board.get_all_pieces (Game.board g) color) false) as (r & Er & Hr).
  - intros p Hp. destruct (pieces_on_grid _ _ _ Hwf Hp) as [Hon _].
    destruct (get_valid_moves_ok _ p (proj1 Hwf) Hon) as (m & h & E & _).
    exists m, h. exact E.
  - exists r. split; [exact Er|]. rewrite Hr. split.
    + intros [H | H]; [discriminate | exact H].
    + intros H. right. exact H.
Qed.

Lemma get_skip_status_captures_witness :
  Game.get_skip_status (Game.mk two_plies WHITE None [] [] 15 true 4) WHITE = Ok true
  /\ Game.get_skip_status Game.default WHITE = Ok false.
Proof.
  split.
  - destruct (get_skip_status_captures (Game.mk two_plies WHITE None [] [] 15 true 4) WHITE
                two_plies_well_formed) as (flag & E & H).
    rewrite E. f_equal. apply H.
    exists (Piece.mk 4 3 WHITE false), [((2, 5), [Piece.mk 3 4 BLACK false])].
    split; [vm_compute; tauto | vm_compute; reflexivity].
  - vm_compute. reflexivity.
Defined.

(** ** [winner] on a well-formed board *)

(** X7.  On a well-formed board [winner] never raises, and its answer is
    fixed by the two counters and by which colors still have a piece on
    the grid: BLACK when [white_left] is at most 0, else WHITE when
    [black_left] is negative, else BLACK when no white piece stands, else
    WHITE when no black piece stands, else none. Whether the pieces can
    move plays no part. *)
Theorem winner_table (b : Board.t) :
  well_formed b ->
  Board.winner b
  = Ok (if Board.white_left b <=? 0 then Some BLACK
        else if Board.black_left b <? 0 then Some WHITE
        else if negb (nonempty (Board.get_all_pieces b WHITE)) then Some BLACK
        else if negb (nonempty (Board.get_all_pieces b BLACK)) then Some WHITE
        else None).
Proof.
  intros Hwf. unfold Board.winner.
  destruct (Board.white_left b <=? 0); [reflexivity|].
  destruct (Board.black_left b <? 0); [reflexivity|].
  destruct (get_all_moves_ok b WHITE Hwf) as [whites Ew].
  destruct (get_all_moves_ok b BLACK Hwf) as [blacks Eb].
  rewrite Ew; cbn [bind].
  assert (Hw := get_all_moves_pieces b WHITE whites Ew).
  assert (Hb := get_all_moves_pieces b BLACK blacks Eb).
  destruct (nonempty whites) eqn:Nw.
  - destruct (nonempty (Board.get_all_pieces b WHITE)) eqn:Pw.
    + cbn [negb]. rewrite Eb; cbn [bind].
      destruct (nonempty blacks) eqn:Nb.
      * destruct (nonempty (Board.get_all_pieces b BLACK)) eqn:Pb; [reflexivity|].
        apply nonempty_false in Pb. apply Hb in Pb. discriminate.
      * destruct (nonempty (Board.get_all_pieces b BLACK)) eqn:Pb; [|reflexivity].
        assert (E : Board.get_all_pieces b BLACK = []) by (apply Hb; reflexivity).
        rewrite E in Pb. discriminate.
    + apply nonempty_false in Pw. apply Hw in Pw. discriminate.
  - assert (E : Board.get_all_pieces b WHITE = []) by (apply Hw; reflexivity).
    rewrite E. reflexivity.
Qed.

Lemma winner_table_witness :
  Board.winner lone_white = Ok (Some WHITE) /\ Board.winner blocked_black = Ok None.
Proof.
  split.
  - rewrite (winner_table lone_white); [reflexivity | concrete_well_formed].
  - rewrite (winner_table blocked_black); [reflexivity | concrete_well_formed].
Defined.

(** ** The board [minimax] returns *)

Lemma max_loop_some (self : Minimax.searcher) (depth : Z) (max_player : bool)
    (game : Game.t) (beta : score) (moves : list Board.t) :
  forall best_score best_move alpha value,
    Minimax.max_loop self depth max_player game beta moves best_score best_move alpha
    = Ok (value, None) ->
    best_move = None /\ (best_score = NegInf -> moves = []).
Proof.
  induction moves as [|move rest IH]; simpl; intros bs bm alpha value H.
  - inversion H; auto.
  - destruct (self move (depth - 1) (negb max_player) game alpha beta) as [[sc unused]|];
      [|discriminate].
    cbn [bind] in H.
    destruct (score_leb bs sc) eqn:E.
    + destruct (score_leb beta (score_max alpha sc)); [discriminate|].
      apply IH in H. destruct H as [H _]. discriminate.
    + destruct (score_leb beta (score_max alpha bs)).
      * inversion H; subst. split; auto. intros ->. discriminate.
      * apply IH in H. destruct H as [H _]. split; auto. intros ->. discriminate.
Qed.

Lemma min_loop_some (self : Minimax.searcher) (depth : Z) (max_player : bool)
    (game : Game.t) (alpha : score) (moves : list Board.t) :
  forall best_score best_move beta value,
    Minimax.min_loop self depth max_player game alpha moves best_score best_move beta
    = Ok (value, None) ->
    best_move = None /\ (best_score = PosInf -> moves = []).
Proof.
  induction moves as [|move rest IH]; simpl; intros bs bm beta value H.
  - inversion H; auto.
  - destruct (self move (depth - 1) (negb max_player) game alpha beta) as [[sc unused]|];
      [|discriminate].
    cbn [bind] in H.
    destruct (score_leb sc bs) eqn:E.
    + destruct (score_leb (score_min beta sc) alpha); [discriminate|].
      apply IH in H. destruct H as [H _]. discriminate.
    + destruct (score_leb (score_min beta bs) alpha).
      * inversion H; subst. split; auto. intros ->.
        destruct sc; discriminate.
      * apply IH in H. destruct H as [H _]. split; auto. intros ->.
        destruct sc; discriminate.
Qed.

(** X8.  The board [minimax] returns is the position it was given or one
    of the boards [get_all_moves] enumerates for the side to move; it
    returns no board only at a depth other than 0, on a position without a
    winner, when nothing is enumerated. *)
Theorem minimax_choice (position : Board.t) (depth : Z) (max_player : bool)
    (game : Game.t) (alpha beta value : score) (best_move : option Board.t) :
  Minimax.minimax position depth max_player game alpha beta = Ok (value, best_move) ->
  match best_move with
  | Some chosen =>
      chosen = position
      \/ exists boards,
           Minimax.get_all_moves position (if max_player then BLACK else WHITE) game
           = Ok boards
           /\ In chosen boards
  | None =>
      depth <> 0
      /\ Board.winner position = Ok None
      /\ Minimax.get_all_moves position (if max_player then BLACK else WHITE) game = Ok []
  end.
Proof.
  rewrite minimax_unfold. unfold Minimax.minimax_body, Minimax.is_terminal. intros H.
  destruct (depth =? 0) eqn:Ed.
  - cbn [bind] in H.
    destruct (Game.prepare_board_state _) as [pos|]; [|discriminate]. cbn [bind] in H.
    destruct (index_of _ _); inversion H; subst; left; reflexivity.
  - destruct (Board.winner position) as [[w|]|] eqn:Ew; [| |discriminate];
      cbn [bind] in H.
    + destruct (Game.prepare_board_state _) as [pos|]; [|discriminate]. cbn [bind] in H.
      destruct (index_of _ _); inversion H; subst; left; reflexivity.
    + apply Z.eqb_neq in Ed.
      destruct max_player.
      * destruct (Minimax.get_all_moves position BLACK game) as [moves|] eqn:Em;
          [|discriminate].
        cbn [bind] in H. destruct best_move as [chosen|].
        -- apply max_loop_choice in H. destruct H as [H | H]; [discriminate|].
           right. exists moves. auto.
        -- apply max_loop_some in H. destruct H as [_ H].
           rewrite (H eq_refl). auto.
      * destruct (Minimax.get_all_moves position WHITE game) as [moves|] eqn:Em;
          [|discriminate].
        cbn [bind] in H. destruct best_move as [chosen|].
        -- apply min_loop_choice in H. destruct H as [H | H]; [discriminate|].
           right. exists moves. auto.
        -- apply min_loop_some in H. destruct H as [_ H].
           rewrite (H eq_refl). auto.
Qed.

Lemma minimax_choice_witness :
  Board.winner blocked_black = Ok None
  /\ Minimax.get_all_moves blocked_black BLACK Game.default = Ok [].
Proof.
  assert (H := minimax_choice blocked_black 4 true Game.default NegInf PosInf NegInf None).
  cbv beta iota in H. apply H. vm_compute. reflexivity.
Defined.

(** ** [select] away from the pieces of the side to move *)

Lemma pick_elsewhere (g : Game.t) (row col : Z) (x : cell) :
  grid_ok (Board.board (Game.board g)) ->
  on_grid row col ->
  slot (Board.board (Game.board g)) row col = Some x ->
  match x with
  | Empty => True
  | Occ p => Piece.color p <> Game.turn g
  end ->
  Play.pick g row col = Ok (g, false).
Proof.
  intros Hg Hrc Hs Hx. unfold Play.pick, Board.get_piece.
  destruct (grid_get_slot _ row col Hg Hrc) as [y [Hy Hget]].
  rewrite Hs in Hy. inversion Hy; subst y. rewrite Hget; cbn [bind].
  destruct x as [|p]; [reflexivity|].
  destruct (color_eqb (Piece.color p) (Game.turn g)) eqn:E; [|reflexivity].
  apply color_eqb_eq in E. contradiction.
Qed.

(** X9.  A call of [select] on an empty slot that is not a destination of
    the selected piece, or on a piece of the side not to move, returns
    false; it leaves board and turn as they are and clears a selection
    that was there. *)
Theorem select_elsewhere (g : Game.t) (row col : Z) (x : cell) :
  grid_ok (Board.board (Game.board g)) ->
  on_grid row col ->
  slot (Board.board (Game.board g)) row col = Some x ->
  match x with
  | Empty => Game.selected g = None \/ dict_mem (Game.valid_moves g) (row, col) = false
  | Occ p => Piece.color p <> Game.turn g
  end ->
  Play.select g row col
  = Ok (match Game.selected g with
        | Some _ => Play.with_selection g None []
        | None => g
        end, false).
Proof.
  intros Hg Hrc Hs Hx.
  assert (Hx' : match x with Empty => True | Occ p => Piece.color p <> Game.turn g end)
    by (destruct x; auto).
  unfold Play.select.
  change recursion_limit with (S (S (pred (pred recursion_limit)))).
  rewrite select_rec_step.
  destruct (Game.selected g) as [sel|] eqn:Esel.
  - assert (Hmove : Play._move g row col = Ok (g, false)).
    { unfold Play._move, Board.get_piece.
      destruct (grid_get_slot _ row col Hg Hrc) as [y [Hy Hget]].
      rewrite Hs in Hy. inversion Hy; subst y. rewrite Hget; cbn [bind].
      rewrite Esel. destruct x; [|reflexivity].
      destruct Hx as [Hx | Hx]; [discriminate|]. rewrite Hx. reflexivity. }
    rewrite Hmove. cbn [bind negb]. rewrite select_rec_step.
    cbn [Play.with_selection Game.selected bind].
    rewrite (pick_elsewhere (Play.with_selection g None []) row col x Hg Hrc Hs Hx').
    cbn [bind].
    apply (pick_elsewhere (Play.with_selection g None []) row col x Hg Hrc Hs Hx').
  - cbn [bind]. apply (pick_elsewhere g row col x Hg Hrc Hs Hx').
Qed.

Lemma select_elsewhere_witness :
  Play.select after_opening 3 3 = Ok (after_opening, false)
  /\ Play.select (Play.with_selection Game.default (Some (Piece.mk 5 0 WHITE false))
                    [((4, 1), [])]) 2 1
     = Ok (Game.default, false).
Proof.
  split.
  - apply (select_elsewhere after_opening 3 3 Empty).
    + apply after_opening_well_formed.
    + unfold on_grid, ROWS, COLS; lia.
    + vm_compute; reflexivity.
    + left. vm_compute; reflexivity.
  - apply (select_elsewhere
             (Play.with_selection Game.default (Some (Piece.mk 5 0 WHITE false))
                [((4, 1), [])]) 2 1 (Occ (Piece.mk 2 1 BLACK false))).
    + apply init_well_formed.
    + unfold on_grid, ROWS, COLS; lia.
    + vm_compute; reflexivity.
    + discriminate.
Defined.

(** ** [select] on a piece of the side to move *)

Lemma pick_own_piece (g : Game.t) (row col : Z) (p : Piece.t) (m : moves_t) (h : bool) :
  well_formed (Game.board g) ->
  on_grid row col ->
  slot (Board.board (Game.board g)) row col = Some (Occ p) ->
  Piece.color p = Game.turn g ->
  Board.get_valid_moves (Game.board g) p = Ok (m, h) ->
  (h = false ->
   forall q mq, In q (Board.get_all_pieces (Game.board g) (Game.turn g)) ->
                Board.get_valid_moves (Game.board g) q <> Ok (mq, true)) ->
  Play.pick g row col = Ok (Play.with_selection g (Some p) m, true).
Proof.
  intros Hwf Hrc Hs Hcol Ep Hfree.
  unfold Play.pick, Board.get_piece.
  destruct (grid_get_slot _ row col (proj1 Hwf) Hrc) as [x [Hx Hget]].
  rewrite Hs in Hx. inversion Hx; subst x. rewrite Hget; cbn [bind].
  replace (color_eqb (Piece.color p) (Game.turn g)) with true
    by (symmetry; apply color_eqb_eq; assumption).
  unfold Game.get_skip_status. cbn [Play.with_selection Game.board Game.turn].
  destruct (skip_status_loop_ok (Game.board g)
              (Board.get_all_pieces (Game.board g) (Game.turn g)) false)
    as (r & Er & Hr).
  { intros p' Hp'. destruct (pieces_on_grid _ _ _ Hwf Hp') as [Hon _].
    destruct (get_valid_moves_ok _ p' (proj1 Hwf) Hon) as (m' & h' & E' & _).
    exists m', h'. exact E'. }
  rewrite Er; cbn [bind]. rewrite Ep; cbn [bind].
  destruct h.
  - rewrite andb_false_r. reflexivity.
  - assert (r = false).
    { destruct r; [|reflexivity]. exfalso.
      destruct (proj1 Hr eq_refl) as [H | (q & mq & Hq & Eq)]; [discriminate|].
      apply (Hfree eq_refl q mq Hq Eq). }
    subst r. reflexivity.
Qed.

(** X10.  A call of [select] on a piece of the side to move selects it and
    returns true, with the result of [get_valid_moves] as destinations,
    when the piece has a capture or no piece of its side has one; whatever
    was selected before is replaced. *)
Theorem select_own_piece (g : Game.t) (row col : Z) (p : Piece.t) (m : moves_t)
    (h : bool) :
  well_formed (Game.board g) ->
  on_grid row col ->
  slot (Board.board (Game.board g)) row col = Some (Occ p) ->
  Piece.color p = Game.turn g ->
  Board.get_valid_moves (Game.board g) p = Ok (m, h) ->
  (h = false ->
   forall q mq, In q (Board.get_all_pieces (Game.board g) (Game.turn g)) ->
                Board.get_valid_moves (Game.board g) q <> Ok (mq, true)) ->
  Play.select g row col = Ok (Play.with_selection g (Some p) m, true).
Proof.
  intros Hwf Hrc Hs Hcol Ep Hfree.
  assert (Hpick : forall sel vm,
            Play.pick (Play.with_selection g sel vm) row col
            = Ok (Play.with_selection g (Some p) m, true)).
  { intros sel vm.
    apply (pick_own_piece (Play.with_selection g sel vm) row col p m h); assumption. }
  unfold Play.select.
  change recursion_limit with (S (S (pred (pred recursion_limit)))).
  rewrite select_rec_step.
  destruct (Game.selected g) as [sel|] eqn:Esel.
  - unfold Play._move, Board.get_piece.
    destruct (grid_get_slot _ row col (proj1 Hwf) Hrc) as [x [Hx Hget]].
    rewrite Hs in Hx. inversion Hx; subst x. rewrite Hget; cbn [bind].
    rewrite Esel. cbn [bind negb]. rewrite select_rec_step.
    cbn [Play.with_selection Game.selected bind].
    rewrite (Hpick None []). cbn [bind]. apply (Hpick (Some p) m).
  - cbn [bind]. apply (pick_own_piece g row col p m h); assumption.
Qed.

Lemma select_own_piece_witness :
  Play.select Game.default 5 2
  = Ok (Play.with_selection Game.default (Some (Piece.mk 5 2 WHITE false))
          [((4, 1), []); ((4, 3), [])], true).
Proof.
  apply (select_own_piece Game.default 5 2 (Piece.mk 5 2 WHITE false)
           [((4, 1), []); ((4, 3), [])] false).
  - apply init_well_formed.
  - unfold on_grid, ROWS, COLS; lia.
  - vm_compute; reflexivity.
  - reflexivity.
  - vm_compute; reflexivity.
  - intros _ q mq Hq.
    assert (H : forallb (fun q => match Board.get_valid_moves Board.init q with
                                  | Ok (_, false) => true
                                  | _ => false
                                  end)
                        (Board.get_all_pieces Board.init WHITE) = true)
      by (vm_compute; reflexivity).
    rewrite forallb_forall in H. specialize (H q Hq).
    change (Game.board Game.default) with Board.init.
    destruct (Board.get_valid_moves Board.init q) as [[mm [|]]|]; try discriminate.
Defined.

(** ** [Board.move] onto an empty slot *)

Lemma pos_cases (a b : pos) : a = b \/ a <> b.
Proof.
  destruct a as [r c], b as [r' c'].
  destruct (Z.eq_dec r r'); destruct (Z.eq_dec c c'); subst; auto;
    right; intros E; inversion E; contradiction.
Qed.

Lemma slot_rebind (g : list (list cell)) (old new : Piece.t) (r c : Z) :
  slot (Board.rebind g old new) r c
  = option_map (fun x => if cell_eqb x (Occ old) then Occ new else x) (slot g r c).
Proof.
  unfold Board.rebind. rewrite slot_cell_at, cell_at_map, <- slot_cell_at. reflexivity.
Qed.

Lemma move_spec (b : Board.t) (p : Piece.t) (r c : Z) :
  well_formed b -> piece_on_grid p ->
  slot (Board.board b) (Piece.row p) (Piece.col p) = Some (Occ p) ->
  on_grid r c -> slot (Board.board b) r c = Some Empty ->
  let p' := Piece.mk r c (Piece.color p)
                     ((r =? ROWS - 1) || (r =? 0) || Piece.king p) in
  exists b',
    Board.move b p r c = Ok (b', p')
    /\ grid_ok (Board.board b')
    /\ slot (Board.board b') r c = Some (Occ p')
    /\ slot (Board.board b') (Piece.row p) (Piece.col p) = Some Empty
    /\ (forall r' c', on_grid r' c' -> (r', c') <> (r, c) ->
          (r', c') <> (Piece.row p, Piece.col p) ->
          slot (Board.board b') r' c' = slot (Board.board b) r' c')
    /\ Board.black_left b' = Board.black_left b
    /\ Board.white_left b' = Board.white_left b
    /\ Board.white_kings b' = Board.white_kings b
    /\ Board.black_kings b'
       = Board.black_kings b + (if (r =? ROWS - 1) || (r =? 0) then 1 else 0).
Proof.
  intros [Hg Hc] Hp Hhere Hrc Hthere p'.
  unfold Board.move.
  destruct (grid_get_slot _ r c Hg Hrc) as (x & Hx & Ex).
  rewrite Hthere in Hx. inversion Hx; subst x. rewrite Ex; cbn [bind].
  destruct (grid_get_slot _ _ _ Hg Hp) as (y & Hy & Ey).
  rewrite Hhere in Hy. inversion Hy; subst y. rewrite Ey; cbn [bind].
  destruct (grid_set_inside (Board.board b) _ _ Empty Hg Hp) as (g1 & E1 & Hg1 & S1 & O1).
  rewrite E1; cbn [bind].
  destruct (grid_set_inside g1 r c (Occ p) Hg1 Hrc) as (g2 & E2 & Hg2 & S2 & O2).
  rewrite E2; cbn [bind].
  assert (Hne : (Piece.row p, Piece.col p) <> (r, c)).
  { intros E. inversion E; subst. congruence. }
  assert (Hgrid : forall q,
            grid_ok (Board.rebind g2 p q)
            /\ slot (Board.rebind g2 p q) r c = Some (Occ q)
            /\ slot (Board.rebind g2 p q) (Piece.row p) (Piece.col p) = Some Empty
            /\ (forall r' c', on_grid r' c' -> (r', c') <> (r, c) ->
                  (r', c') <> (Piece.row p, Piece.col p) ->
                  slot (Board.rebind g2 p q) r' c' = slot (Board.board b) r' c')).
  { intros q. split; [apply grid_ok_map; assumption|]. split; [|split].
    - rewrite slot_rebind, S2. cbn [option_map].
      replace (cell_eqb (Occ p) (Occ p)) with true
        by (symmetry; apply cell_eqb_eq; reflexivity).
      reflexivity.
    - rewrite slot_rebind, (O2 _ _ Hp Hne), S1. reflexivity.
    - intros r' c' Hrc' N1 N2.
      rewrite slot_rebind, (O2 _ _ Hrc' N1), (O1 _ _ Hrc' N2).
      destruct (slot (Board.board b) r' c') as [z|] eqn:Ez; [|reflexivity].
      cbn [option_map].
      destruct (cell_eqb z (Occ p)) eqn:Eq; [|reflexivity].
      apply cell_eqb_eq in Eq. subst z.
      destruct (Hc r' c' p Hrc' Ez) as [<- <-]. exfalso. apply N2. reflexivity. }
  unfold p'.
  destruct ((r =? ROWS - 1) || (r =? 0)); cbn [orb].
  - cbn [Piece.elevate_to_king Piece.king Piece.move Piece.color Piece.row Piece.col negb].
    rewrite andb_false_r.
    destruct (Hgrid (Piece.mk r c (Piece.color p) true)) as (G1 & G2 & G3 & G4).
    eexists. split; [reflexivity|].
    cbn [Board.board Board.black_left Board.white_left Board.white_kings
         Board.black_kings].
    repeat (split; [assumption || reflexivity|]). reflexivity.
  - unfold Piece.move.
    destruct (Hgrid (Piece.mk r c (Piece.color p) (Piece.king p))) as (G1 & G2 & G3 & G4).
    eexists. split; [reflexivity|].
    cbn [Board.with_board Board.board Board.black_left Board.white_left
         Board.white_kings Board.black_kings].
    repeat (split; [assumption || reflexivity|]). lia.
Qed.

(** X11.  [Board.move] of a piece standing on a well-formed board onto an
    empty slot of the grid puts the piece, with its new row and column and
    crowned on row 0 or 7, into that slot, empties the slot it left, keeps
    every other slot and both piece counters, and gives a well-formed
    board. *)
Theorem move_relocates (b : Board.t) (p : Piece.t) (r c : Z) :
  well_formed b -> piece_on_grid p ->
  slot (Board.board b) (Piece.row p) (Piece.col p) = Some (Occ p) ->
  on_grid r c -> slot (Board.board b) r c = Some Empty ->
  let p' := Piece.mk r c (Piece.color p)
                     ((r =? ROWS - 1) || (r =? 0) || Piece.king p) in
  exists b',
    Board.move b p r c = Ok (b', p')
    /\ well_formed b'
    /\ slot (Board.board b') r c = Some (Occ p')
    /\ slot (Board.board b') (Piece.row p) (Piece.col p) = Some Empty
    /\ (forall r' c', on_grid r' c' -> (r', c') <> (r, c) ->
          (r', c') <> (Piece.row p, Piece.col p) ->
          slot (Board.board b') r' c' = slot (Board.board b) r' c')
    /\ Board.black_left b' = Board.black_left b
    /\ Board.white_left b' = Board.white_left b.
Proof.
  intros Hwf Hp Hhere Hrc Hthere p'.
  destruct (move_spec b p r c Hwf Hp Hhere Hrc Hthere)
    as (b' & E & _ & H1 & H2 & H3 & H4 & H5 & _).
  exists b'. split; [exact E|].
  split; [exact (move_well_formed b b' p _ r c Hwf Hp Hhere Hrc Hthere E)|].
  auto.
Qed.

Lemma move_relocates_witness :
  exists b',
    Board.move Board.init (Piece.mk 5 2 WHITE false) 4 3
    = Ok (b', Piece.mk 4 3 WHITE false)
    /\ slot (Board.board b') 4 3 = Some (Occ (Piece.mk 4 3 WHITE false))
    /\ slot (Board.board b') 5 2 = Some Empty.
Proof.
  destruct (move_relocates Board.init (Piece.mk 5 2 WHITE false) 4 3)
    as (b' & E & _ & H1 & H2 & _).
  - exact init_well_formed.
  - unfold piece_on_grid, on_grid, ROWS, COLS; simpl; lia.
  - vm_compute; reflexivity.
  - unfold on_grid, ROWS, COLS; lia.
  - vm_compute; reflexivity.
  - exists b'. split; [exact E|]. split; [exact H1 | exact H2].
Defined.

(** ** Capture lists *)

Lemma py_get_In {A : Type} (l : list A) (i : Z) (x : A) :
  py_get l i = Ok x -> In x l.
Proof.
  unfold py_get. destruct (py_index l i) as [k|]; [|discriminate].
  destruct (nth_error l k) as [y|] eqn:E; [|discriminate].
  intros H; inversion H; subst. eapply nth_error_In; eauto.
Qed.

Lemma grid_get_In {A : Type} (g : list (list A)) (r c : Z) (x : A) :
  grid_get g r c = Ok x -> In x (concat g).
Proof.
  unfold grid_get. destruct (py_get g r) as [line|] eqn:E; [|discriminate].
  cbn [bind]. intros H. apply in_concat. exists line.
  split; [eapply py_get_In; eauto | eapply py_get_In; eauto].
Qed.

Lemma dict_lookup_In (d : moves_t) (k : pos) (v : list Piece.t) :
  dict_lookup d k = Ok v -> In (k, v) d.
Proof.
  unfold dict_lookup. destruct (dict_get d k) as [w|] eqn:E; [|discriminate].
  intros H; inversion H; subst. apply dict_get_In; assumption.
Qed.

Lemma continue_chain_sound (self : Board.searcher) (b : Board.t) (k : bool)
    (step : Z) (color : Color) (r c : Z) (moves m : moves_t) :
  self_sound self b ->
  Forall (fun kv => capture_list_ok b color (snd kv)) moves ->
  Board.continue_chain self k step color r c moves = Ok m ->
  Forall (fun kv => capture_list_ok b color (snd kv)) m.
Proof.
  intros Hself Hmoves H. unfold Board.continue_chain in H.
  assert (Hround : forall (d : moves_t) sd start stop st sk found,
            Forall (fun kv => capture_list_ok b color (snd kv)) d ->
            dict_lookup d (r, c) = Ok sk ->
            self sd k start stop st color (match sd with SLeft => c - 1 | SRight => c + 1 end) sk = Ok found ->
            Forall (fun kv => capture_list_ok b color (snd kv)) (dict_update d found)).
  { intros d sd start stop st sk found Hd Hsk Hf.
    apply dict_update_Forall; [assumption|].
    apply (Hself _ _ _ _ _ _ _ _ _ Hf).
    apply dict_lookup_In in Hsk. rewrite Forall_forall in Hd.
    apply (Hd _ Hsk). }
  destruct (dict_lookup moves (r, c)) as [sk1|] eqn:L1; [|discriminate].
  cbn [bind] in H.
  destruct (self SLeft k (r + step) _ step color (c - 1) sk1) as [f1|] eqn:F1;
    [|discriminate].
  cbn [bind] in H.
  assert (M1 := Hround moves SLeft _ _ _ _ _ Hmoves L1 F1).
  destruct (dict_lookup (dict_update moves f1) (r, c)) as [sk2|] eqn:L2; [|discriminate].
  cbn [bind] in H.
  destruct (self SRight k (r + step) _ step color (c + 1) sk2) as [f2|] eqn:F2;
    [|discriminate].
  cbn [bind] in H.
  assert (M2 := Hround _ SRight _ _ _ _ _ M1 L2 F2).
  destruct k; [|inversion H; subst; assumption].
  destruct (dict_lookup (dict_update (dict_update moves f1) f2) (r, c)) as [sk3|] eqn:L3;
    [|discriminate].
  cbn [bind] in H.
  destruct (self SLeft true (r - step) _ (- step) color (c - 1) sk3) as [f3|] eqn:F3;
    [|discriminate].
  cbn [bind] in H.
  assert (M3 := Hround _ SLeft _ _ _ _ _ M2 L3 F3).
  destruct (dict_lookup (dict_update (dict_update (dict_update moves f1) f2) f3) (r, c))
    as [sk4|] eqn:L4; [|discriminate].
  cbn [bind] in H.
  destruct (self SRight true (r - step) _ (- step) color (c + 1) sk4) as [f4|] eqn:F4;
    [|discriminate].
  cbn [bind] in H. inversion H; subst.
  exact (Hround _ SRight _ _ _ _ _ M3 L4 F4).
Qed.

Lemma search_loop_sound (self : Board.searcher) (b : Board.t) (sd : side) (k : bool)
    (step : Z) (color : Color) (skipped : list Piece.t) :
  self_sound self b ->
  capture_list_ok b color skipped ->
  forall rs c last m,
    capture_list_ok b color (last ++ skipped) ->
    Board.search_loop self b sd k step color skipped rs c last = Ok m ->
    Forall (fun kv => capture_list_ok b color (snd kv)) m.
Proof.
  intros Hself Hsk. induction rs as [|r rs IH]; intros c last m Hlast H.
  - inversion H; subst. constructor.
  - cbn [Board.search_loop] in H.
    destruct (Board.off_board sd c); [inversion H; subst; constructor|].
    destruct (Board.get_piece b r c) as [current|] eqn:Eget; [|discriminate].
    cbn [bind] in H.
    destruct (cell_in current skipped) eqn:Ein; [inversion H; subst; constructor|].
    destruct current as [|q].
    + destruct (nonempty skipped && negb (nonempty last));
        [inversion H; subst; constructor|].
      assert (Hmoves : Forall (fun kv => capture_list_ok b color (snd kv))
                (if nonempty skipped then dict_set [] (r, c) (last ++ skipped)
                 else dict_set [] (r, c) last)).
      { destruct skipped as [|s skipped]; cbn [nonempty dict_set].
        - rewrite app_nil_r in Hlast. constructor; [exact Hlast | constructor].
        - constructor; [exact Hlast | constructor]. }
      destruct (nonempty last).
      * eapply continue_chain_sound; eauto.
      * inversion H; subst. exact Hmoves.
    + destruct (color_eqb (Piece.color q) color) eqn:Ecol;
        [inversion H; subst; constructor|].
      apply (IH (Board.advance sd c) [q] m); [|exact H].
      destruct Hsk as [Hnd Hall]. split.
      * cbn [app]. constructor; [|exact Hnd].
        intros Hin. apply existsb_piece_In in Hin.
        cbn [cell_in] in Ein. congruence.
      * cbn [app]. constructor; [|exact Hall]. split.
        -- unfold Board.get_piece in Eget. eapply grid_get_In; eauto.
        -- intros E. apply color_eqb_eq in E. congruence.
Qed.

Lemma search_sound (fuel : nat) (b : Board.t) : self_sound (Board._search fuel b) b.
Proof.
  induction fuel as [|n IH].
  - intros sd k start stop step color c sk m H. discriminate.
  - intros sd k start stop step color c sk m H Hsk.
    cbn [Board._search] in H. unfold Board.search_body in H.
    apply (search_loop_sound (Board._search n b) b sd k step color sk IH Hsk
             (py_range start stop step) c [] m); [exact Hsk | exact H].
Qed.

Lemma discover_sound (b : Board.t) (p : Piece.t) (all : moves_t) :
  Board.discover b p = Ok all ->
  Forall (fun kv => capture_list_ok b (Piece.color p) (snd kv)) all.
Proof.
  assert (Hnil : capture_list_ok b (Piece.color p) []) by (split; constructor).
  assert (Hdir : forall sd k start stop step c found,
            Board._search recursion_limit b sd k start stop step (Piece.color p) c []
            = Ok found ->
            Forall (fun kv => capture_list_ok b (Piece.color p) (snd kv)) found).
  { intros sd k start stop step c found E.
    exact (search_sound recursion_limit b _ _ _ _ _ _ _ _ _ E Hnil). }
  unfold Board.discover, Board._search_left, Board._search_right. intros H.
  assert (Hfirst : exists d,
            Forall (fun kv => capture_list_ok b (Piece.color p) (snd kv)) d
            /\ (if color_eqb (Piece.color p) BLACK || Piece.king p then
                  found <- Board._search recursion_limit b SLeft (Piece.king p)
                             (Piece.row p + 1) (Z.min (Piece.row p + 3) ROWS) 1
                             (Piece.color p) (Piece.col p - 1) [] ;;
                  let moves := dict_update d found in
                  found <- Board._search recursion_limit b SRight (Piece.king p)
                             (Piece.row p + 1) (Z.min (Piece.row p + 3) ROWS) 1
                             (Piece.color p) (Piece.col p + 1) [] ;;
                  Ok (dict_update moves found)
                else Ok d) = Ok all).
  { destruct (color_eqb (Piece.color p) WHITE || Piece.king p).
    - destruct (Board._search recursion_limit b SLeft _ _ _ _ _ _ _) as [f1|] eqn:F1;
        [|discriminate].
      cbn [bind] in H.
      destruct (Board._search recursion_limit b SRight _ _ _ _ _ _ _) as [f2|] eqn:F2;
        [|discriminate].
      cbn [bind] in H. eexists. split; [|exact H].
      apply dict_update_Forall; [|eapply Hdir; eauto].
      apply dict_update_Forall; [constructor | eapply Hdir; eauto].
    - cbn [bind] in H. exists []. split; [constructor | exact H]. }
  destruct Hfirst as (d & Hd & H'). clear H.
  destruct (color_eqb (Piece.color p) BLACK || Piece.king p).
  - destruct (Board._search recursion_limit b SLeft _ _ _ _ _ _ _) as [f3|] eqn:F3;
      [|discriminate].
    cbn [bind] in H'.
    destruct (Board._search recursion_limit b SRight _ _ _ _ _ _ _) as [f4|] eqn:F4;
      [|discriminate].
    cbn [bind] in H'. inversion H'; subst.
    apply dict_update_Forall; [|eapply Hdir; eauto].
    apply dict_update_Forall; [assumption | eapply Hdir; eauto].
  - inversion H'; subst. assumption.
Qed.

Lemma valid_moves_entries (b : Board.t) (p : Piece.t) (m : moves_t) (h : bool) :
  well_formed b -> piece_on_grid p ->
  Board.get_valid_moves b p = Ok (m, h) ->
  Forall (fun kv =>
            on_grid (fst (fst kv)) (snd (fst kv))
            /\ slot (Board.board b) (fst (fst kv)) (snd (fst kv)) = Some Empty
            /\ NoDup (snd kv)
            /\ Forall (fun q =>
                         piece_on_grid q
                         /\ slot (Board.board b) (Piece.row q) (Piece.col q)
                            = Some (Occ q)
                         /\ Piece.color q <> Piece.color p)
                      (snd kv))
         m.
Proof.
  intros Hwf Hp E.
  destruct (get_valid_moves_ok b p (proj1 Hwf) Hp) as (m' & h' & E' & Hfound & _).
  rewrite E in E'. inversion E'; subst m' h'. clear E'.
  assert (Hsound : Forall (fun kv => capture_list_ok b (Piece.color p) (snd kv)) m).
  { unfold Board.get_valid_moves in E.
    destruct (Board.discover b p) as [all|] eqn:Ed; [|discriminate].
    cbn [bind] in E. assert (Hall := discover_sound b p all Ed).
    destruct (nonempty (Board.capturing all)); inversion E; subst; [|assumption].
    rewrite Forall_forall in *. intros kv Hkv. apply capturing_In in Hkv.
    apply Hall. tauto. }
  rewrite Forall_forall in *. intros kv Hkv.
  destruct (Hfound kv Hkv) as (H1 & H2 & _).
  destruct (Hsound kv Hkv) as [Hnd Hq].
  split; [exact H1|]. split; [exact H2|]. split; [exact Hnd|].
  rewrite Forall_forall in *. intros q Hin. destruct (Hq q Hin) as [Hgrid Hcol].
  destruct Hwf as [Hg Hc].
  destruct (concat_slot _ _ Hg Hgrid) as (r & c & Hrc & Hs).
  destruct (Hc r c q Hrc Hs) as [<- <-]. auto.
Qed.

(** X12.  For a piece on the grid of a well-formed board, every entry
    [get_valid_moves] returns has an empty slot of the grid as destination
    and a capture list without repetition whose members are pieces of the
    other color standing on the board. *)
Theorem get_valid_moves_sound (b : Board.t) (p : Piece.t) :
  well_formed b -> piece_on_grid p ->
  exists m h,
    Board.get_valid_moves b p = Ok (m, h)
    /\ Forall (fun kv =>
                 on_grid (fst (fst kv)) (snd (fst kv))
                 /\ slot (Board.board b) (fst (fst kv)) (snd (fst kv)) = Some Empty
                 /\ NoDup (snd kv)
                 /\ Forall (fun q =>
                              piece_on_grid q
                              /\ slot (Board.board b) (Piece.row q) (Piece.col q)
                                 = Some (Occ q)
                              /\ Piece.color q <> Piece.color p)
                           (snd kv))
              m.
Proof.
  intros Hwf Hp.
  destruct (get_valid_moves_ok b p (proj1 Hwf) Hp) as (m & h & E & _).
  exists m, h. split; [exact E|].
  exact (valid_moves_entries b p m h Hwf Hp E).
Qed.

Lemma get_valid_moves_sound_witness :
  exists m h,
    Board.get_valid_moves two_plies (Piece.mk 4 3 WHITE false) = Ok (m, h)
    /\ Forall (fun kv => NoDup (snd kv)) m.
Proof.
  destruct (get_valid_moves_sound two_plies (Piece.mk 4 3 WHITE false))
    as (m & h & E & H).
  - exact two_plies_well_formed.
  - unfold piece_on_grid, on_grid, ROWS, COLS; simpl; lia.
  - exists m, h. split; [exact E|].
    eapply Forall_impl; [|exact H]. intros kv Hkv. cbv beta in Hkv. apply Hkv.
Defined.

(** ** An open jump is found *)

Lemma dict_get_set_new (d : moves_t) k v : dict_get (dict_set d k v) k <> None.
Proof. rewrite dict_get_set_same. discriminate. Qed.

Lemma dict_get_update_new (o d : moves_t) k :
  dict_get o k <> None -> dict_get (dict_update d o) k <> None.
Proof.
  unfold dict_update. revert d.
  induction o as [|[k' v'] o IH]; simpl; intros d H; [congruence|].
  destruct (pos_eqb k' k) eqn:E.
  - apply pos_eqb_eq in E. subst k'.
    apply (dict_get_update_keeps o (dict_set d k v') k). apply dict_get_set_new.
  - apply IH. assumption.
Qed.

Lemma continue_chain_keeps (self : Board.searcher) (k : bool) (step : Z)
    (color : Color) (r c : Z) (moves m : moves_t) (key : pos) :
  Board.continue_chain self k step color r c moves = Ok m ->
  dict_get moves key <> None -> dict_get m key <> None.
Proof.
  intros H Hkey. unfold Board.continue_chain in H.
  destruct (dict_lookup moves (r, c)) as [sk1|]; [|discriminate]. cbn [bind] in H.
  destruct (self SLeft k (r + step) _ step color (c - 1) sk1) as [f1|]; [|discriminate].
  cbn [bind] in H.
  destruct (dict_lookup (dict_update moves f1) (r, c)) as [sk2|]; [|discriminate].
  cbn [bind] in H.
  destruct (self SRight k (r + step) _ step color (c + 1) sk2) as [f2|]; [|discriminate].
  cbn [bind] in H.
  assert (K2 : dict_get (dict_update (dict_update moves f1) f2) key <> None)
    by (do 2 apply dict_get_update_keeps; assumption).
  destruct k; [|inversion H; subst; assumption].
  destruct (dict_lookup (dict_update (dict_update moves f1) f2) (r, c)) as [sk3|];
    [|discriminate].
  cbn [bind] in H.
  destruct (self SLeft true (r - step) _ (- step) color (c - 1) sk3) as [f3|];
    [|discriminate].
  cbn [bind] in H.
  destruct (dict_lookup (dict_update (dict_update (dict_update moves f1) f2) f3) (r, c))
    as [sk4|]; [|discriminate].
  cbn [bind] in H.
  destruct (self SRight true (r - step) _ (- step) color (c + 1) sk4) as [f4|];
    [|discriminate].
  cbn [bind] in H. inversion H; subst.
  do 2 apply dict_get_update_keeps. assumption.
Qed.

Lemma jump_range (row dr : Z) :
  (dr = 1 \/ dr = -1) -> 0 <= row < ROWS -> 0 <= row + 2 * dr < ROWS ->
  py_range (row + dr)
           (if dr =? -1 then Z.max (row - 3) (-1) else Z.min (row + 3) ROWS) dr
  = [row + dr; row + 2 * dr].
Proof.
  unfold ROWS. intros [-> | ->] Hr Hl; cbn [Z.eqb Pos.eqb]; unfold py_range.
  - rewrite Z.min_l by lia. cbn [Z.ltb Z.compare].
    replace (row + 3 - (row + 1) + 1 - 1) with 2 by lia.
    change (Z.to_nat (2 / 1)) with 2%nat. cbn [iota]. f_equal. f_equal. lia.
  - rewrite Z.max_l by lia. cbn [Z.ltb Z.compare].
    replace (row + -1 - (row - 3) - -1 - 1) with 2 by lia.
    change (Z.to_nat (2 / - -1)) with 2%nat. cbn [iota]. f_equal. f_equal. lia.
Qed.

Lemma direction_jump (n : nat) (b : Board.t) (sd : side) (k : bool)
    (row col dr : Z) (color : Color) (q : Piece.t) (m : moves_t) :
  grid_ok (Board.board b) ->
  on_grid row col ->
  on_grid (row + 2 * dr) (col + 2 * side_step sd) ->
  (dr = 1 \/ dr = -1) ->
  slot (Board.board b) (row + dr) (col + side_step sd) = Some (Occ q) ->
  Piece.color q <> color ->
  slot (Board.board b) (row + 2 * dr) (col + 2 * side_step sd) = Some Empty ->
  Board._search (S n) b sd k (row + dr)
    (if dr =? -1 then Z.max (row - 3) (-1) else Z.min (row + 3) ROWS)
    dr color (col + side_step sd) [] = Ok m ->
  dict_get m (row + 2 * dr, col + 2 * side_step sd) <> None.
Proof.
  intros Hg Hrc Hland Hdr Hq Hcol Hempty H.
  cbn [Board._search] in H. unfold Board.search_body in H.
  rewrite (jump_range row dr Hdr (proj1 Hrc) (proj1 Hland)) in H.
  assert (Hmid : on_grid (row + dr) (col + side_step sd)).
  { unfold on_grid, ROWS, COLS in *. destruct sd; unfold side_step in *; lia. }
  assert (Hadv : Board.advance sd (col + side_step sd) = col + 2 * side_step sd).
  { destruct sd; unfold Board.advance, side_step; lia. }
  assert (Hoff : forall c, 0 <= c < COLS -> Board.off_board sd c = false).
  { intros c Hc. unfold COLS in Hc. destruct sd; unfold Board.off_board, COLS.
    - apply Z.ltb_ge; lia.
    - apply Z.leb_gt; lia. }
  cbn [Board.search_loop] in H.
  rewrite (Hoff _ (proj2 Hmid)) in H.
  destruct (grid_get_slot _ _ _ Hg Hmid) as (x & Hx & Ex).
  rewrite Hq in Hx. inversion Hx; subst x.
  unfold Board.get_piece in H. rewrite Ex in H. cbn [bind cell_in existsb] in H.
  replace (color_eqb (Piece.color q) color) with false in H.
  2:{ symmetry. destruct (color_eqb (Piece.color q) color) eqn:E; [|reflexivity].
      apply color_eqb_eq in E. contradiction. }
  rewrite Hadv in H. rewrite (Hoff _ (proj2 Hland)) in H.
  destruct (grid_get_slot _ _ _ Hg Hland) as (y & Hy & Ey).
  rewrite Hempty in Hy. inversion Hy; subst y.
  rewrite Ey in H. cbn [bind cell_in nonempty andb negb dict_set] in H.
  apply (continue_chain_keeps _ _ _ _ _ _ _ _ _ H).
  cbn [dict_get]. rewrite pos_eqb_refl. discriminate.
Qed.

Lemma dict_get_present (d : moves_t) (k : pos) :
  dict_get d k <> None -> exists v, In (k, v) d.
Proof.
  destruct (dict_get d k) as [v|] eqn:E; [|congruence].
  intros _. exists v. apply dict_get_In. assumption.
Qed.

(** X13.  A jump that is open is found: when a diagonal neighbour of a
    piece, in a row direction the piece may take, holds a piece of the
    other color and the slot behind it is an empty slot of the grid,
    [get_valid_moves] reports a capture and offers that slot with a
    non-empty capture list. *)
Theorem open_jump_is_offered (b : Board.t) (p : Piece.t) (dr dc : Z) :
  grid_ok (Board.board b) -> piece_on_grid p ->
  ((dr = -1 /\ (Piece.color p = WHITE \/ Piece.king p = true))
   \/ (dr = 1 /\ (Piece.color p = BLACK \/ Piece.king p = true))) ->
  (dc = -1 \/ dc = 1) ->
  jump_open b (Piece.color p) [] (Piece.row p) (Piece.col p) dr dc ->
  exists m v,
    Board.get_valid_moves b p = Ok (m, true)
    /\ In ((Piece.row p + 2 * dr, Piece.col p + 2 * dc), v) m
    /\ v <> [].
Proof.
  intros Hg Hp Hdr Hdc (q & Hq & Hcol & _ & Hland & Hempty).
  destruct (discover_spec b p Hg Hp) as (all & Ed & Hall & _).
  assert (Hkey : dict_get all (Piece.row p + 2 * dr, Piece.col p + 2 * dc) <> None).
  { pose proof Hp as [Hr Hc].
    assert (HL : col_ok SLeft (Piece.col p - 1)) by (unfold col_ok, COLS in *; lia).
    assert (HR : col_ok SRight (Piece.col p + 1)) by (unfold col_ok, COLS in *; lia).
    destruct (direction_up b SLeft (Piece.king p) _ _ (Piece.color p) Hg Hr HL)
      as (m1 & E1 & _).
    destruct (direction_up b SRight (Piece.king p) _ _ (Piece.color p) Hg Hr HR)
      as (m2 & E2 & _).
    destruct (direction_down b SLeft (Piece.king p) _ _ (Piece.color p) Hg Hr HL)
      as (m3 & E3 & _).
    destruct (direction_down b SRight (Piece.king p) _ _ (Piece.color p) Hg Hr HR)
      as (m4 & E4 & _).
    assert (Hjump : forall sd d found,
              dr = d -> dc = side_step sd ->
              Board._search recursion_limit b sd (Piece.king p) (Piece.row p + d)
                (if d =? -1 then Z.max (Piece.row p - 3) (-1)
                 else Z.min (Piece.row p + 3) ROWS)
                d (Piece.color p) (Piece.col p + side_step sd) [] = Ok found ->
              dict_get found (Piece.row p + 2 * dr, Piece.col p + 2 * dc) <> None).
    { intros sd d found <- -> E.
      change recursion_limit with (S (pred recursion_limit)) in E.
      apply (direction_jump (pred recursion_limit) b sd (Piece.king p) (Piece.row p)
               (Piece.col p) dr (Piece.color p) q found);
        auto.
      destruct Hdr as [[-> _] | [-> _]]; auto. }
    unfold Board.discover, Board._search_left, Board._search_right in Ed.
    change (Piece.row p - 1) with (Piece.row p + -1) in E1, E2.
    change (Piece.col p - 1) with (Piece.col p + side_step SLeft) in E1, E3.
    change (Piece.col p + 1) with (Piece.col p + side_step SRight) in E2, E4.
    change (Piece.row p - 1) with (Piece.row p + -1) in Ed.
    change (Piece.col p - 1) with (Piece.col p + side_step SLeft) in Ed.
    change (Piece.col p + 1) with (Piece.col p + side_step SRight) in Ed.
    rewrite E3, E4 in Ed. cbn [bind] in Ed.
    destruct Hdr as [[Edr Hk] | [Edr Hk]].
    - replace (color_eqb (Piece.color p) WHITE || Piece.king p) with true in Ed.
      2:{ symmetry. apply orb_true_iff.
          destruct Hk as [Hk | Hk]; [left; apply color_eqb_eq | right]; assumption. }
      rewrite E1, E2 in Ed. cbn [bind] in Ed.
      assert (K : dict_get (dict_update (dict_update [] m1) m2)
                    (Piece.row p + 2 * dr, Piece.col p + 2 * dc) <> None).
      { destruct Hdc as [Edc | Edc].
        - apply dict_get_update_keeps. apply dict_get_update_new.
          apply (Hjump SLeft (-1) m1 Edr Edc E1).
        - apply dict_get_update_new. apply (Hjump SRight (-1) m2 Edr Edc E2). }
      destruct (color_eqb (Piece.color p) BLACK || Piece.king p);
        inversion Ed; subst; [|assumption].
      do 2 apply dict_get_update_keeps. assumption.
    - replace (color_eqb (Piece.color p) BLACK || Piece.king p) with true in Ed.
      2:{ symmetry. apply orb_true_iff.
          destruct Hk as [Hk | Hk]; [left; apply color_eqb_eq | right]; assumption. }
      assert (K : forall d,
                dict_get (dict_update (dict_update d m3) m4)
                  (Piece.row p + 2 * dr, Piece.col p + 2 * dc) <> None).
      { intros d. destruct Hdc as [Edc | Edc].
        - apply dict_get_update_keeps. apply dict_get_update_new.
          apply (Hjump SLeft 1 m3 Edr Edc E3).
        - apply dict_get_update_new. apply (Hjump SRight 1 m4 Edr Edc E4). }
      destruct (color_eqb (Piece.color p) WHITE || Piece.king p).
      + rewrite E1, E2 in Ed. cbn [bind] in Ed. inversion Ed; subst. apply K.
      + cbn [bind] in Ed. inversion Ed; subst. apply K. }
  destruct (dict_get_present _ _ Hkey) as [v Hv].
  assert (Hne : v <> []).
  { rewrite Forall_forall in Hall. destruct (Hall _ Hv) as (_ & _ & [[_ Ho] | [Hne _]]);
      [|exact Hne].
    cbn [fst snd] in Ho.
    replace (Piece.row p + 2 * dr - Piece.row p) with (2 * dr) in Ho by lia.
    rewrite Z.odd_mul in Ho. discriminate. }
  assert (Hcap : In ((Piece.row p + 2 * dr, Piece.col p + 2 * dc), v)
                    (Board.capturing all)).
  { apply capturing_In. split; assumption. }
  exists (Board.capturing all), v.
  unfold Board.get_valid_moves. rewrite Ed; cbn [bind].
  destruct (Board.capturing all) as [|kv l] eqn:Ec; [contradiction|].
  cbn [nonempty]. split; [reflexivity|]. split; assumption.
Qed.

Lemma open_jump_is_offered_witness :
  exists m v,
    Board.get_valid_moves two_plies (Piece.mk 4 3 WHITE false) = Ok (m, true)
    /\ In ((2, 5), v) m /\ v <> [].
Proof.
  apply (open_jump_is_offered two_plies (Piece.mk 4 3 WHITE false) (-1) 1).
  - apply two_plies_well_formed.
  - unfold piece_on_grid, on_grid, ROWS, COLS; simpl; lia.
  - left. split; [reflexivity | left; reflexivity].
  - right. reflexivity.
  - exists (Piece.mk 3 4 BLACK false).
    split; [vm_compute; reflexivity|]. split; [discriminate|].
    split; [intros []|].
    split; [unfold on_grid, ROWS, COLS; simpl; lia | vm_compute; reflexivity].
Defined.

(** ** A move made through [select] *)

Lemma count_color_opponents (color : Color) (pieces : list Piece.t) :
  Forall (fun q => Piece.color q <> color) pieces ->
  count_color color pieces = 0
  /\ count_color (next_turn color) pieces = Z.of_nat (length pieces).
Proof.
  unfold count_color. induction 1 as [|q l Hq _ [IH1 IH2]]; [split; reflexivity|].
  cbn [filter length].
  destruct (Piece.color q) eqn:Eq, color; cbn [color_eqb next_turn] in *;
    try congruence; cbn [length]; split; try assumption; lia.
Qed.

Lemma change_turn_plain (g : Game.t) :
  Game.ai g = false \/ Game.turn g = BLACK ->
  Play._change_turn g
  = Ok (Play.with_turn (Play.with_selection g None []) (next_turn (Game.turn g))).
Proof.
  intros H. unfold Play._change_turn.
  change recursion_limit with (S (pred recursion_limit)).
  cbn [Play.change_turn_rec Play.with_selection Game.turn].
  destruct (Game.turn g) eqn:Et; [|reflexivity].
  destruct H as [H | H]; [|discriminate].
  cbn [Play.with_turn Play.with_selection Game.ai]. rewrite H. reflexivity.
Qed.

(** X14.  With a piece of the side to move selected and [valid_moves] as
    [get_valid_moves] gave them, a call of [select] on one of the
    destinations plays the move, when the turn does not pass to the
    automated player: the piece stands on the destination, crowned on row
    0 or 7, its old slot and the slots of the captured pieces are empty,
    all other slots are unchanged, the counter of the opponent drops by
    the number of captured pieces and the mover's counter stays, the turn
    passes, the selection is cleared, and the call returns false. *)
Theorem select_destination_moves (g : Game.t) (row col : Z) (sel : Piece.t) (h : bool)
    (skipped : list Piece.t) :
  well_formed (Game.board g) ->
  Game.selected g = Some sel ->
  piece_on_grid sel ->
  slot (Board.board (Game.board g)) (Piece.row sel) (Piece.col sel) = Some (Occ sel) ->
  Piece.color sel = Game.turn g ->
  Board.get_valid_moves (Game.board g) sel = Ok (Game.valid_moves g, h) ->
  dict_get (Game.valid_moves g) (row, col) = Some skipped ->
  Game.ai g = false \/ Game.turn g = BLACK ->
  exists b',
    Play.select g row col
    = Ok (Game.mk b' (next_turn (Game.turn g)) None [] (Game.board_history g)
            (Game.history_length g) (Game.ai g) (Game.ai_intelligence g), false)
    /\ well_formed b'
    /\ slot (Board.board b') row col
       = Some (Occ (Piece.mk row col (Piece.color sel)
                      ((row =? ROWS - 1) || (row =? 0) || Piece.king sel)))
    /\ (forall r c, on_grid r c -> (r, c) <> (row, col) ->
          slot (Board.board b') r c
          = if ((Piece.row sel =? r) && (Piece.col sel =? c))
               || existsb (fun q => (Piece.row q =? r) && (Piece.col q =? c)) skipped
            then Some Empty
            else slot (Board.board (Game.board g)) r c)
    /\ left_of b' (Game.turn g) = left_of (Game.board g) (Game.turn g)
    /\ left_of b' (next_turn (Game.turn g))
       = left_of (Game.board g) (next_turn (Game.turn g)) - Z.of_nat (length skipped).
Proof.
  intros Hwf Esel Hp Hhere Hcol Ev Hk Hai.
  assert (Hm := valid_moves_entries (Game.board g) sel _ h Hwf Hp Ev).
  assert (Hin := dict_get_In _ _ _ Hk).
  rewrite Forall_forall in Hm.
  destruct (Hm _ Hin) as (Hrc & Hthere & Hnd & Hsk). cbn [fst snd] in *.
  destruct (move_spec (Game.board g) sel row col Hwf Hp Hhere Hrc Hthere)
    as (b1 & Emove & Hg1 & S1 & S2 & S3 & L1 & L2 & _).
  assert (Hwf1 : well_formed b1)
    by exact (move_well_formed _ _ _ _ _ _ Hwf Hp Hhere Hrc Hthere Emove).
  assert (Hon : Forall piece_on_grid skipped).
  { eapply Forall_impl; [|exact Hsk]. intros q Hq. apply Hq. }
  destruct (remove_spec skipped b1 Hg1 Hon)
    as (b2 & Erem & Hg2 & _ & _ & W2 & B2 & S4).
  assert (Hwf2 : well_formed b2) by exact (remove_well_formed _ _ _ Hwf1 Erem).
  assert (Hstep : (if nonempty skipped then Board.remove b1 skipped else Ok b1) = Ok b2).
  { destruct skipped; [|exact Erem]. cbn [nonempty]. exact Erem. }
  assert (Hnone : existsb (fun q => (Piece.row q =? row) && (Piece.col q =? col)) skipped
                  = false).
  { destruct (existsb _ skipped) eqn:E; [|reflexivity].
    apply existsb_exists in E. destruct E as (q & Hq & E).
    apply andb_true_iff in E. destruct E as [E1 E2].
    apply Z.eqb_eq in E1, E2.
    rewrite Forall_forall in Hsk. destruct (Hsk q Hq) as (_ & Hs & _).
    rewrite E1, E2 in Hs. congruence. }
  assert (Hdest : slot (Board.board b2) row col
                  = Some (Occ (Piece.mk row col (Piece.color sel)
                                 ((row =? ROWS - 1) || (row =? 0) || Piece.king sel)))).
  { rewrite (S4 row col Hrc), Hnone. exact S1. }
  set (g' := Game.mk b2 (next_turn (Game.turn g)) None [] (Game.board_history g)
               (Game.history_length g) (Game.ai g) (Game.ai_intelligence g)).
  assert (Hmove : Play._move g row col = Ok (g', true)).
  { unfold Play._move, Board.get_piece.
    destruct (grid_get_slot _ row col (proj1 Hwf) Hrc) as (x & Hx & Ex).
    rewrite Hthere in Hx. inversion Hx; subst x. rewrite Ex; cbn [bind].
    rewrite Esel. unfold dict_mem, dict_lookup. rewrite Hk.
    rewrite Emove; cbn [bind]. rewrite Hstep; cbn [bind].
    rewrite change_turn_plain by exact Hai. reflexivity. }
  exists b2. split.
  - unfold Play.select.
    change recursion_limit with (S (pred recursion_limit)).
    rewrite select_rec_step, Esel, Hmove. cbn [bind negb].
    apply (pick_elsewhere g' row col _ (proj1 Hwf2) Hrc Hdest).
    cbn [Piece.color g' Game.turn]. rewrite Hcol.
    destruct (Game.turn g); discriminate.
  - split; [exact Hwf2|]. split; [exact Hdest|]. split.
    + intros r c Hr Hne. rewrite (S4 r c Hr).
      destruct (existsb (fun q => (Piece.row q =? r) && (Piece.col q =? c)) skipped);
        [rewrite orb_true_r; reflexivity|].
      rewrite orb_false_r.
      destruct ((Piece.row sel =? r) && (Piece.col sel =? c)) eqn:E.
      * apply andb_true_iff in E. destruct E as [E1 E2].
        apply Z.eqb_eq in E1, E2. subst r c. exact S2.
      * apply S3; auto. intros E'. inversion E'; subst.
        rewrite !Z.eqb_refl in E. discriminate.
    + assert (Hopp : Forall (fun q => Piece.color q <> Game.turn g) skipped).
      { eapply Forall_impl; [|exact Hsk]. intros q Hq. rewrite <- Hcol. apply Hq. }
      destruct (count_color_opponents _ _ Hopp) as [C1 C2].
      destruct (Game.turn g); cbn [left_of next_turn] in *; lia.
Qed.


Lemma select_destination_moves_witness :
  exists b',
    Play.select (Game.mk two_plies WHITE (Some (Piece.mk 4 3 WHITE false))
                   [((2, 5), [Piece.mk 3 4 BLACK false])] [] 15 false 4) 2 5
    = Ok (Game.mk b' BLACK None [] [] 15 false 4, false)
    /\ slot (Board.board b') 3 4 = Some Empty
    /\ Board.black_left b' = 11.
Proof.
  destruct (select_destination_moves
              (Game.mk two_plies WHITE (Some (Piece.mk 4 3 WHITE false))
                 [((2, 5), [Piece.mk 3 4 BLACK false])] [] 15 false 4)
              2 5 (Piece.mk 4 3 WHITE false) true [Piece.mk 3 4 BLACK false])
    as (b' & E & _ & _ & Hs & _ & Hl).
  - exact two_plies_well_formed.
  - reflexivity.
  - unfold piece_on_grid, on_grid, ROWS, COLS; simpl; lia.
  - vm_compute; reflexivity.
  - reflexivity.
  - vm_compute; reflexivity.
  - reflexivity.
  - left; reflexivity.
  - exists b'. split; [exact E|]. split.
    + rewrite (Hs 3 4); [reflexivity | unfold on_grid, ROWS, COLS; lia | discriminate].
    + exact Hl.
Defined.

(** ** Counting the pieces of a grid *)

Lemma get_all_pieces_count (b : Board.t) (color : Color) :
  Z.of_nat (length (Board.get_all_pieces b color)) = grid_count color (Board.board b).
Proof.
  unfold Board.get_all_pieces.
  induction (Board.board b) as [|line g IH]; [reflexivity|].
  cbn [flat_map grid_count fold_right]. rewrite length_app, Nat2Z.inj_add.
  fold (grid_count color g). rewrite IH. f_equal.
  clear IH. induction line as [|x line IH]; [reflexivity|].
  cbn [flat_map line_count fold_right]. rewrite length_app, Nat2Z.inj_add.
  fold (line_count color line). rewrite IH. f_equal.
  destruct x as [|p]; [reflexivity|]. cbn [weight].
  destruct (color_eqb (Piece.color p) color); reflexivity.
Qed.

Lemma line_count_set (color : Color) (line : list cell) (j : nat) (old x : cell) :
  nth_error line j = Some old ->
  line_count color (list_set line j x)
  = line_count color line - weight color old + weight color x.
Proof.
  revert j. induction line as [|y line IH]; intros [|j] H; try discriminate.
  - inversion H; subst. cbn [list_set line_count fold_right]. lia.
  - cbn [list_set line_count fold_right]. fold (line_count color line).
    fold (line_count color (list_set line j x)). rewrite (IH j H). lia.
Qed.

Lemma grid_count_set (color : Color) (g : list (list cell)) (i : nat)
    (line line' : list cell) :
  nth_error g i = Some line ->
  grid_count color (list_set g i line')
  = grid_count color g - line_count color line + line_count color line'.
Proof.
  revert i. induction g as [|l g IH]; intros [|i] H; try discriminate.
  - inversion H; subst. cbn [list_set grid_count fold_right]. lia.
  - cbn [list_set grid_count fold_right]. fold (grid_count color g).
    fold (grid_count color (list_set g i line')). rewrite (IH i H). lia.
Qed.

Lemma grid_set_count (color : Color) (g g' : list (list cell)) (r c : Z) (x : cell) :
  grid_set g r c x = Ok g' ->
  exists old,
    grid_get g r c = Ok old
    /\ grid_count color g' = grid_count color g - weight color old + weight color x.
Proof.
  intros H.
  destruct (grid_set_shape g g' r c x H) as (i & j & line & Ei & El & Ej & ->).
  assert (Hj := py_index_bound line c j Ej).
  destruct (nth_error line j) as [old|] eqn:Eold;
    [|apply nth_error_None in Eold; lia].
  exists old. split.
  - unfold grid_get, py_get. rewrite Ei, El. cbn [bind]. rewrite Ej, Eold. reflexivity.
  - rewrite (grid_count_set color g i line _ El),
            (line_count_set color line j old x Eold). lia.
Qed.

Lemma grid_count_rebind (color : Color) (g : list (list cell)) (p q : Piece.t) :
  Piece.color q = Piece.color p ->
  grid_count color (Board.rebind g p q) = grid_count color g.
Proof.
  intros Hc. unfold Board.rebind.
  induction g as [|line g IH]; [reflexivity|].
  cbn [map grid_count fold_right].
  fold (grid_count color g).
  fold (grid_count color
          (map (map (fun c => if cell_eqb c (Occ p) then Occ q else c)) g)).
  rewrite IH. f_equal. clear IH.
  induction line as [|x line IH]; [reflexivity|].
  cbn [map line_count fold_right]. fold (line_count color line).
  fold (line_count color (map (fun c => if cell_eqb c (Occ p) then Occ q else c) line)).
  rewrite IH. f_equal.
  destruct (cell_eqb x (Occ p)) eqn:E; [|reflexivity].
  apply cell_eqb_eq in E. subst x. cbn [weight]. rewrite Hc. reflexivity.
Qed.

Lemma move_count (b b' : Board.t) (p p' : Piece.t) (r c : Z) (color : Color) :
  well_formed b -> piece_on_grid p ->
  slot (Board.board b) (Piece.row p) (Piece.col p) = Some (Occ p) ->
  on_grid r c -> slot (Board.board b) r c = Some Empty ->
  Board.move b p r c = Ok (b', p') ->
  grid_count color (Board.board b') = grid_count color (Board.board b).
Proof.
  intros [Hg Hc] Hp Hhere Hrc Hthere H.
  unfold Board.move in H.
  destruct (grid_get_slot _ r c Hg Hrc) as (x & Hx & Ex).
  rewrite Hthere in Hx. inversion Hx; subst x. rewrite Ex in H; cbn [bind] in H.
  destruct (grid_get_slot _ _ _ Hg Hp) as (y & Hy & Ey).
  rewrite Hhere in Hy. inversion Hy; subst y. rewrite Ey in H; cbn [bind] in H.
  destruct (grid_set_inside (Board.board b) _ _ Empty Hg Hp) as (g1 & E1 & Hg1 & S1 & O1).
  rewrite E1 in H; cbn [bind] in H.
  destruct (grid_set_inside g1 r c (Occ p) Hg1 Hrc) as (g2 & E2 & Hg2 & S2 & O2).
  rewrite E2 in H; cbn [bind] in H.
  assert (Hne : (r, c) <> (Piece.row p, Piece.col p)).
  { intros E. inversion E; subst. congruence. }
  destruct (grid_set_count color _ _ _ _ _ E1) as (old1 & G1 & C1).
  rewrite Ey in G1. inversion G1; subst old1.
  destruct (grid_set_count color _ _ _ _ _ E2) as (old2 & G2 & C2).
  destruct (grid_get_slot _ r c Hg1 Hrc) as (z & Hz & Ez).
  rewrite (O1 r c Hrc Hne), Hthere in Hz. inversion Hz; subst z.
  rewrite Ez in G2. inversion G2; subst old2.
  assert (Hfinal : forall q, Piece.color q = Piece.color p ->
            grid_count color (Board.rebind g2 p q) = grid_count color (Board.board b)).
  { intros q Hq. rewrite (grid_count_rebind color g2 p q Hq), C2, C1.
    cbn [weight]. lia. }
  destruct ((r =? ROWS - 1) || (r =? 0)).
  - cbn [Piece.elevate_to_king Piece.king negb] in H. rewrite andb_false_r in H.
    inversion H; subst. apply Hfinal. reflexivity.
  - inversion H; subst. apply Hfinal. reflexivity.
Qed.

Lemma remove_count (color : Color) (pieces : list Piece.t) :
  forall b b',
    well_formed b -> NoDup pieces ->
    Forall (fun q => piece_on_grid q
                     /\ slot (Board.board b) (Piece.row q) (Piece.col q) = Some (Occ q))
           pieces ->
    Board.remove b pieces = Ok b' ->
    grid_count color (Board.board b')
    = grid_count color (Board.board b) - count_color color pieces.
Proof.
  induction pieces as [|p pieces IH]; intros b b' Hwf Hnd Hall H.
  - inversion H; subst. unfold count_color. cbn. lia.
  - inversion Hnd as [|? ? Hnotin Hnd']; subst.
    inversion Hall as [|? ? [Hp Hs] Hrest]; subst.
    cbn [Board.remove] in H.
    destruct (grid_set_inside (Board.board b) _ _ Empty (proj1 Hwf) Hp)
      as (g1 & E1 & Hg1 & S1 & O1).
    rewrite E1 in H; cbn [bind] in H.
    destruct (grid_set_count color _ _ _ _ _ E1) as (old & G & C).
    destruct (grid_get_slot _ _ _ (proj1 Hwf) Hp) as (y & Hy & Ey).
    rewrite Hs in Hy. inversion Hy; subst y. rewrite Ey in G. inversion G; subst old.
    assert (Hco : coherent g1) by (eapply clear_coherent; [exact E1 | apply Hwf]).
    assert (Hrest' : Forall (fun q => piece_on_grid q
                                      /\ slot g1 (Piece.row q) (Piece.col q)
                                         = Some (Occ q)) pieces).
    { rewrite Forall_forall in *. intros q Hq. destruct (Hrest q Hq) as [Hq1 Hq2].
      split; [exact Hq1|]. rewrite O1; [exact Hq2 | exact Hq1|].
      intros E. inversion E as [[Er Ec]]. rewrite Er, Ec, Hs in Hq2.
      inversion Hq2; subst. contradiction. }
    assert (Hcount : count_color color (p :: pieces)
                     = weight color (Occ p) + count_color color pieces).
    { unfold count_color. cbn [filter weight].
      destruct (color_eqb (Piece.color p) color); cbn [length]; lia. }
    rewrite Hcount.
    destruct (color_eqb (Piece.color p) WHITE).
    + apply IH in H; [|split; assumption | assumption | exact Hrest'].
      rewrite H. cbn [Board.board]. rewrite C. cbn [weight]. lia.
    + apply IH in H; [|split; assumption | assumption | exact Hrest'].
      rewrite H. cbn [Board.board]. rewrite C. cbn [weight]. lia.
Qed.

Lemma move_keeps_agreement (b b' : Board.t) (p p' : Piece.t) (r c : Z) :
  well_formed b -> piece_on_grid p ->
  slot (Board.board b) (Piece.row p) (Piece.col p) = Some (Occ p) ->
  on_grid r c -> slot (Board.board b) r c = Some Empty ->
  Board.move b p r c = Ok (b', p') ->
  counts_agree b -> counts_agree b'.
Proof.
  intros Hwf Hp Hhere Hrc Hthere H Hagree color.
  rewrite get_all_pieces_count,
          (move_count b b' p p' r c color Hwf Hp Hhere Hrc Hthere H),
          <- get_all_pieces_count, <- (Hagree color).
  destruct (move_spec b p r c Hwf Hp Hhere Hrc Hthere)
    as (b1 & E & _ & _ & _ & _ & L1 & L2 & _).
  rewrite H in E. inversion E; subst b1.
  destruct color; cbn [left_of]; assumption.
Qed.

Lemma remove_keeps_agreement (b b' : Board.t) (pieces : list Piece.t) :
  well_formed b -> NoDup pieces ->
  Forall (fun q => piece_on_grid q
                   /\ slot (Board.board b) (Piece.row q) (Piece.col q) = Some (Occ q))
         pieces ->
  Board.remove b pieces = Ok b' ->
  counts_agree b -> counts_agree b'.
Proof.
  intros Hwf Hnd Hall H Hagree color.
  rewrite get_all_pieces_count, (remove_count color pieces b b' Hwf Hnd Hall H),
          <- get_all_pieces_count, <- (Hagree color).
  assert (Hon : Forall piece_on_grid pieces).
  { eapply Forall_impl; [|exact Hall]. intros q Hq. apply Hq. }
  destruct (remove_spec pieces b (proj1 Hwf) Hon) as (b1 & E & _ & _ & _ & W & B & _).
  rewrite H in E. inversion E; subst b1.
  destruct color; cbn [left_of]; assumption.
Qed.

(** X15.  [Board.move] onto an empty slot changes the number of pieces of
    neither color on the grid, so counters that agree with the grid still
    agree afterwards. *)
Theorem move_keeps_counts (b b' : Board.t) (p p' : Piece.t) (r c : Z) :
  well_formed b -> piece_on_grid p ->
  slot (Board.board b) (Piece.row p) (Piece.col p) = Some (Occ p) ->
  on_grid r c -> slot (Board.board b) r c = Some Empty ->
  Board.move b p r c = Ok (b', p') ->
  (forall color,
     length (Board.get_all_pieces b' color) = length (Board.get_all_pieces b color))
  /\ (counts_agree b -> counts_agree b').
Proof.
  intros Hwf Hp Hhere Hrc Hthere H.
  assert (Hlen : forall color,
            length (Board.get_all_pieces b' color)
            = length (Board.get_all_pieces b color)).
  { intros color. apply Nat2Z.inj. rewrite !get_all_pieces_count.
    exact (move_count b b' p p' r c color Hwf Hp Hhere Hrc Hthere H). }
  split; [exact Hlen|].
  exact (move_keeps_agreement b b' p p' r c Hwf Hp Hhere Hrc Hthere H).
Qed.

Lemma move_keeps_counts_witness :
  exists b',
    Board.move Board.init (Piece.mk 5 2 WHITE false) 4 3
    = Ok (b', Piece.mk 4 3 WHITE false)
    /\ counts_agree b'.
Proof.
  destruct (move_spec Board.init (Piece.mk 5 2 WHITE false) 4 3) as (b' & E & _).
  - exact init_well_formed.
  - unfold piece_on_grid, on_grid, ROWS, COLS; simpl; lia.
  - vm_compute; reflexivity.
  - unfold on_grid, ROWS, COLS; lia.
  - vm_compute; reflexivity.
  - exists b'. split; [exact E|].
    destruct (move_keeps_counts Board.init b' (Piece.mk 5 2 WHITE false)
                (Piece.mk 4 3 WHITE false) 4 3) as [_ H].
    + exact init_well_formed.
    + unfold piece_on_grid, on_grid, ROWS, COLS; simpl; lia.
    + vm_compute; reflexivity.
    + unfold on_grid, ROWS, COLS; lia.
    + vm_compute; reflexivity.
    + exact E.
    + apply H. intros [|]; reflexivity.
Defined.

(** X16.  [Board.remove] of distinct pieces that stand on the board lowers
    the number of pieces of each color on the grid by the number of pieces
    of that color in the list, as it does the counters: counters that
    agree with the grid still agree afterwards. *)
Theorem remove_keeps_counts (b b' : Board.t) (pieces : list Piece.t) :
  well_formed b -> NoDup pieces ->
  Forall (fun q => piece_on_grid q
                   /\ slot (Board.board b) (Piece.row q) (Piece.col q) = Some (Occ q))
         pieces ->
  Board.remove b pieces = Ok b' ->
  (forall color,
     Z.of_nat (length (Board.get_all_pieces b' color))
     = Z.of_nat (length (Board.get_all_pieces b color)) - count_color color pieces)
  /\ (counts_agree b -> counts_agree b').
Proof.
  intros Hwf Hnd Hall H.
  assert (Hlen : forall color,
            Z.of_nat (length (Board.get_all_pieces b' color))
            = Z.of_nat (length (Board.get_all_pieces b color))
              - count_color color pieces).
  { intros color. rewrite !get_all_pieces_count.
    exact (remove_count color pieces b b' Hwf Hnd Hall H). }
  split; [exact Hlen|].
  exact (remove_keeps_agreement b b' pieces Hwf Hnd Hall H).
Qed.

Lemma remove_keeps_counts_witness :
  exists b',
    Board.remove Board.init [Piece.mk 2 1 BLACK false; Piece.mk 5 0 WHITE false] = Ok b'
    /\ counts_agree b'.
Proof.
  destruct (remove_spec [Piece.mk 2 1 BLACK false; Piece.mk 5 0 WHITE false] Board.init)
    as (b' & E & _).
  - apply init_well_formed.
  - repeat constructor; unfold on_grid, ROWS, COLS; simpl; lia.
  - exists b'. split; [exact E|].
    destruct (remove_keeps_counts Board.init b'
                [Piece.mk 2 1 BLACK false; Piece.mk 5 0 WHITE false]) as [_ H].
    + exact init_well_formed.
    + repeat constructor; simpl; intuition discriminate.
    + repeat constructor; unfold on_grid, ROWS, COLS; simpl; lia.
    + exact E.
    + apply H. intros [|]; reflexivity.
Defined.

(** ** The boards [Minimax.get_all_moves] enumerates *)

Lemma any_capture_loop (b : Board.t) (pieces : list Piece.t) (skp : bool) :
  Minimax.any_capture b pieces skp = Game.skip_status_loop b pieces skp.
Proof.
  revert skp. induction pieces as [|p pieces IH]; intros skp; [reflexivity|].
  cbn [Minimax.any_capture Game.skip_status_loop].
  destruct (Board.get_valid_moves b p) as [[m h]|]; [|reflexivity].
  cbn [bind]. apply IH.
Qed.

Lemma simulate_move_spec (board : Board.t) (game : Game.t) (p : Piece.t)
    (m : moves_t) (h : bool) (move : pos) (skip : list Piece.t) :
  well_formed board -> piece_on_grid p ->
  slot (Board.board board) (Piece.row p) (Piece.col p) = Some (Occ p) ->
  Board.get_valid_moves board p = Ok (m, h) ->
  In (move, skip) m ->
  exists nb,
    Minimax.simulate_move (Occ p) move board game skip = Ok nb
    /\ well_formed nb
    /\ (counts_agree board -> counts_agree nb)
    /\ left_of nb (Piece.color p) = left_of board (Piece.color p)
    /\ left_of nb (next_turn (Piece.color p))
       = left_of board (next_turn (Piece.color p)) - Z.of_nat (length skip).
Proof.
  intros Hwf Hp Hhere Ev Hin.
  assert (Hm := valid_moves_entries board p m h Hwf Hp Ev).
  rewrite Forall_forall in Hm.
  destruct (Hm _ Hin) as (Hrc & Hthere & Hnd & Hsk). cbn [fst snd] in *.
  destruct (move_spec board p (fst move) (snd move) Hwf Hp Hhere Hrc Hthere)
    as (b1 & Emove & Hg1 & S1 & S2 & S3 & L1 & L2 & _).
  assert (Hwf1 : well_formed b1)
    by exact (move_well_formed _ _ _ _ _ _ Hwf Hp Hhere Hrc Hthere Emove).
  assert (Hon : Forall piece_on_grid skip).
  { eapply Forall_impl; [|exact Hsk]. intros q Hq. apply Hq. }
  assert (Hstand : Forall (fun q => piece_on_grid q
                                    /\ slot (Board.board b1) (Piece.row q) (Piece.col q)
                                       = Some (Occ q)) skip).
  { rewrite Forall_forall in *. intros q Hq. destruct (Hsk q Hq) as (Q1 & Q2 & Q3).
    split; [exact Q1|]. rewrite S3; [exact Q2 | exact Q1 | |].
    - intros E. inversion E as [[Er Ec]]. rewrite Er, Ec in Q2. congruence.
    - intros E. inversion E as [[Er Ec]]. rewrite Er, Ec, Hhere in Q2.
      inversion Q2; subst q. apply Q3. reflexivity. }
  destruct (remove_spec skip b1 Hg1 Hon) as (b2 & Erem & Hg2 & _ & _ & W2 & B2 & _).
  assert (Hwf2 : well_formed b2) by exact (remove_well_formed _ _ _ Hwf1 Erem).
  assert (Hstep : (if nonempty skip then Board.remove b1 skip else Ok b1) = Ok b2).
  { destruct skip; [|exact Erem]. cbn [nonempty]. exact Erem. }
  exists b2. unfold Minimax.simulate_move. rewrite Emove; cbn [bind].
  split; [exact Hstep|]. split; [exact Hwf2|].
  assert (Hopp : Forall (fun q => Piece.color q <> Piece.color p) skip).
  { eapply Forall_impl; [|exact Hsk]. intros q Hq. apply Hq. }
  destruct (count_color_opponents _ _ Hopp) as [C1 C2].
  split; [|destruct (Piece.color p); cbn [left_of next_turn] in *; lia].
  intros Hagree.
  assert (Hagree1 := move_keeps_agreement board b1 p _ _ _ Hwf Hp Hhere Hrc Hthere
                        Emove Hagree).
  exact (remove_keeps_agreement b1 b2 skip Hwf1 Hnd Hstand Erem Hagree1).
Qed.

Lemma boards_of_spec (board : Board.t) (game : Game.t) (p : Piece.t) (items : moves_t) :
  (forall move skip, In (move, skip) items ->
     exists nb, Minimax.simulate_move (Occ p) move board game skip = Ok nb) ->
  grid_ok (Board.board board) -> piece_on_grid p ->
  slot (Board.board board) (Piece.row p) (Piece.col p) = Some (Occ p) ->
  forall acc,
  exists boards,
    Minimax.boards_of board game p items acc = Ok boards
    /\ forall nb, In nb boards <->
         In nb acc
         \/ exists move skip,
              In (move, skip) items
              /\ Minimax.simulate_move (Occ p) move board game skip = Ok nb.
Proof.
  intros Hsim Hg Hp Hhere.
  destruct (grid_get_slot _ _ _ Hg Hp) as (y & Hy & Ey).
  rewrite Hhere in Hy. inversion Hy; subst y.
  induction items as [|[move skip] items IH]; intros acc.
  - exists acc. split; [reflexivity|]. intros nb. split; [auto|].
    intros [H | (mv & sk & [] & _)]. exact H.
  - cbn [Minimax.boards_of]. unfold Board.get_piece. rewrite Ey; cbn [bind].
    destruct (Hsim move skip (or_introl eq_refl)) as (nb0 & E0).
    rewrite E0; cbn [bind].
    destruct (IH (fun mv sk H => Hsim mv sk (or_intror H)) (acc ++ [nb0]))
      as (boards & Eb & Hb).
    exists boards. split; [exact Eb|]. intros nb. rewrite Hb, in_app_iff. split.
    + intros [[H | [<- | []]] | (mv & sk & Hin & E)].
      * left; exact H.
      * right. exists move, skip. split; [left; reflexivity | exact E0].
      * right. exists mv, sk. split; [right; exact Hin | exact E].
    + intros [H | (mv & sk & [Heq | Hin] & E)].
      * left; left; exact H.
      * inversion Heq; subst mv sk. rewrite E0 in E. inversion E; subst.
        left; right; left; reflexivity.
      * right. exists mv, sk. split; assumption.
Qed.

Lemma collect_spec (board : Board.t) (game : Game.t) (skp : bool)
    (pieces : list Piece.t) :
  well_formed board ->
  Forall (fun p => piece_on_grid p
                   /\ slot (Board.board board) (Piece.row p) (Piece.col p) = Some (Occ p))
         pieces ->
  forall acc,
  exists boards,
    Minimax.collect board game skp pieces acc = Ok boards
    /\ forall nb, In nb boards <->
         In nb acc
         \/ exists p m h move skip,
              In p pieces
              /\ Board.get_valid_moves board p = Ok (m, h)
              /\ In (move, skip) m
              /\ (skp = true -> h = true)
              /\ Minimax.simulate_move (Occ p) move board game skip = Ok nb.
Proof.
  intros Hwf. induction pieces as [|p pieces IH]; intros Hps acc.
  - exists acc. split; [reflexivity|]. intros nb. split; [auto|].
    intros [H | (p & m & h & mv & sk & [] & _)]. exact H.
  - inversion Hps as [|? ? [Hp Hs] Hrest]; subst.
    destruct (get_valid_moves_ok board p (proj1 Hwf) Hp) as (m & h & E & _).
    cbn [Minimax.collect]. rewrite E; cbn [bind].
    destruct (skp && negb h) eqn:Eskip.
    + destruct (IH Hrest acc) as (boards & Eb & Hb).
      exists boards. split; [exact Eb|]. intros nb. rewrite Hb. split.
      * intros [H | (q & mq & hq & mv & sk & Hq & Eq & Hin & Hcap & Esim)];
          [left; exact H|].
        right. exists q, mq, hq, mv, sk. split; [right; exact Hq | auto].
      * intros [H | (q & mq & hq & mv & sk & [Heq | Hq] & Eq & Hin & Hcap & Esim)];
          [left; exact H | |].
        -- subst q. rewrite E in Eq. inversion Eq; subst mq hq.
           apply andb_true_iff in Eskip. destruct Eskip as [-> Hh].
           rewrite (Hcap eq_refl) in Hh. discriminate.
        -- right. exists q, mq, hq, mv, sk. auto.
    + destruct (boards_of_spec board game p m) with (acc := acc)
        as (acc' & Eacc & Hacc); [|apply Hwf | exact Hp | exact Hs|].
      { intros mv sk Hin.
        destruct (simulate_move_spec board game p m h mv sk Hwf Hp Hs E Hin)
          as (nb & Enb & _).
        exists nb. exact Enb. }
      rewrite Eacc; cbn [bind].
      destruct (IH Hrest acc') as (boards & Eb & Hb).
      exists boards. split; [exact Eb|]. intros nb. rewrite Hb, Hacc. split.
      * intros [[H | (mv & sk & Hin & Esim)]
               | (q & mq & hq & mv & sk & Hq & Eq & Hin & Hcap & Esim)].
        -- left; exact H.
        -- right. exists p, m, h, mv, sk.
           split; [left; reflexivity|]. split; [exact E|]. split; [exact Hin|].
           split; [|exact Esim].
           intros ->. destruct h; [reflexivity | discriminate].
        -- right. exists q, mq, hq, mv, sk. split; [right; exact Hq | auto].
      * intros [H | (q & mq & hq & mv & sk & [Heq | Hq] & Eq & Hin & Hcap & Esim)].
        -- left; left; exact H.
        -- subst q. rewrite E in Eq. inversion Eq; subst mq hq.
           left; right. exists mv, sk. split; assumption.
        -- right. exists q, mq, hq, mv, sk. auto.
Qed.

Lemma get_all_moves_spec (board : Board.t) (color : Color) (game : Game.t) :
  well_formed board ->
  exists boards,
    Minimax.get_all_moves board color game = Ok boards
    /\ forall nb, In nb boards -> successor board color game nb.
Proof.
  intros Hwf. unfold Minimax.get_all_moves. rewrite any_capture_loop.
  destruct (skip_status_loop_ok board (Board.get_all_pieces board color) false)
    as (skp & Eskp & Hskp).
  { intros p Hp. destruct (pieces_on_grid _ _ _ Hwf Hp) as [Hon _].
    destruct (get_valid_moves_ok _ p (proj1 Hwf) Hon) as (m & h & E & _).
    exists m, h. exact E. }
  rewrite Eskp; cbn [bind].
  destruct (collect_spec board game skp (Board.get_all_pieces board color) Hwf)
    with (acc := @nil Board.t) as (boards & Eb & Hb).
  { rewrite Forall_forall. intros p Hp.
    destruct (pieces_on_grid board color p Hwf Hp) as (H1 & H2 & _). auto. }
  exists boards. split; [exact Eb|]. intros nb Hnb. apply Hb in Hnb.
  destruct Hnb as [[] | (p & m & h & mv & sk & Hp & E & Hin & Hh & Esim)].
  exists p, m, h, mv, sk. split; [exact Hp|]. split; [exact E|].
  split; [exact Hin|]. split; [|exact Esim].
  intros Hcap. apply Hh. apply Hskp. right. exact Hcap.
Qed.

Lemma successor_spec (board : Board.t) (color : Color) (game : Game.t) (nb : Board.t) :
  well_formed board -> successor board color game nb ->
  well_formed nb
  /\ (counts_agree board -> counts_agree nb)
  /\ left_of nb color = left_of board color
  /\ left_of nb (next_turn color) <= left_of board (next_turn color)
  /\ (has_capture board color ->
      left_of nb (next_turn color) < left_of board (next_turn color)).
Proof.
  intros Hwf (p & m & h & mv & sk & Hp & E & Hin & Hh & Esim).
  destruct (pieces_on_grid board color p Hwf Hp) as (Hon & Hs & Hcol).
  destruct (simulate_move_spec board game p m h mv sk Hwf Hon Hs E Hin)
    as (nb' & E' & W & A & L1 & L2).
  rewrite Esim in E'. inversion E'; subst nb'. rewrite Hcol in L1, L2.
  split; [exact W|]. split; [exact A|]. split; [exact L1|].
  split; [lia|]. intros Hcap. rewrite (Hh Hcap) in E.
  destruct (get_valid_moves_ok board p (proj1 Hwf) Hon) as (m' & h' & E2 & _ & _ & Hc & _).
  rewrite E in E2. inversion E2; subst m' h'.
  destruct (Hc eq_refl) as [_ Hne]. rewrite Forall_forall in Hne.
  specialize (Hne _ Hin). cbn [snd] in Hne.
  destruct sk; [congruence|]. cbn [length] in L2. lia.
Qed.

(** X17.  On a well-formed board [get_all_moves] of [minimax.py] returns,
    and the boards it returns are exactly the boards after one move of the
    color: a piece of the color, one entry of its valid moves, the move
    and its captures played by [simulate_move], and, whenever some piece
    of the color has a capture, only entries of pieces that capture. *)
Theorem get_all_moves_successors (board : Board.t) (color : Color) (game : Game.t) :
  well_formed board ->
  exists boards,
    Minimax.get_all_moves board color game = Ok boards
    /\ forall nb, In nb boards <-> successor board color game nb.
Proof.
  intros Hwf. unfold Minimax.get_all_moves. rewrite any_capture_loop.
  destruct (skip_status_loop_ok board (Board.get_all_pieces board color) false)
    as (skp & Eskp & Hskp).
  { intros p Hp. destruct (pieces_on_grid _ _ _ Hwf Hp) as [Hon _].
    destruct (get_valid_moves_ok _ p (proj1 Hwf) Hon) as (m & h & E & _).
    exists m, h. exact E. }
  rewrite Eskp; cbn [bind].
  assert (Hcap : skp = true <-> has_capture board color).
  { rewrite Hskp. unfold has_capture. split; [|auto].
    intros [H | H]; [discriminate | exact H]. }
  destruct (collect_spec board game skp (Board.get_all_pieces board color) Hwf)
    with (acc := @nil Board.t) as (boards & Eb & Hb).
  { rewrite Forall_forall. intros p Hp.
    destruct (pieces_on_grid board color p Hwf Hp) as (H1 & H2 & _). auto. }
  exists boards. split; [exact Eb|]. intros nb. rewrite Hb. unfold successor. split.
  - intros [[] | (p & m & h & mv & sk & Hp & E & Hin & Hh & Esim)].
    exists p, m, h, mv, sk. rewrite <- Hcap. auto.
  - intros (p & m & h & mv & sk & Hp & E & Hin & Hh & Esim).
    right. exists p, m, h, mv, sk. rewrite Hcap. auto.
Qed.

Lemma get_all_moves_successors_witness :
  exists boards,
    Minimax.get_all_moves Board.init BLACK Game.default = Ok boards
    /\ forall nb, In nb boards <-> successor Board.init BLACK Game.default nb.
Proof. exact (get_all_moves_successors Board.init BLACK Game.default init_well_formed). Defined.

(** X18.  Every board [get_all_moves] of [minimax.py] enumerates from a
    well-formed board is well formed, keeps the counters in agreement with
    the grid when they were, keeps the counter of the moving color and
    does not raise the other; when a capture exists the counter of the
    other color is strictly lower on every enumerated board. *)
Theorem enumerated_boards (board : Board.t) (color : Color) (game : Game.t)
    (boards : list Board.t) :
  well_formed board ->
  Minimax.get_all_moves board color game = Ok boards ->
  Forall (fun nb =>
            well_formed nb
            /\ (counts_agree board -> counts_agree nb)
            /\ left_of nb color = left_of board color
            /\ left_of nb (next_turn color) <= left_of board (next_turn color)
            /\ (has_capture board color ->
                left_of nb (next_turn color) < left_of board (next_turn color)))
         boards.
Proof.
  intros Hwf E.
  destruct (get_all_moves_spec board color game Hwf) as (boards' & E' & Hb).
  rewrite E in E'. inversion E'; subst boards'.
  rewrite Forall_forall. intros nb Hnb.
  apply (successor_spec board color game nb Hwf). apply Hb. exact Hnb.
Qed.

Lemma enumerated_boards_witness :
  exists boards,
    Minimax.get_all_moves two_plies WHITE Game.default = Ok boards
    /\ Forall (fun nb => counts_agree nb) boards.
Proof.
  destruct (get_all_moves_spec two_plies WHITE Game.default two_plies_well_formed)
    as (boards & E & _).
  exists boards. split; [exact E|].
  assert (H := enumerated_boards two_plies WHITE Game.default boards
                 two_plies_well_formed E).
  eapply Forall_impl; [|exact H]. intros nb Hnb. cbv beta in Hnb.
  apply Hnb. intros [|]; reflexivity.
Defined.

(** ** [minimax] returns *)









(** ** The automated turn returns *)



(** ** Clicks keep the game consistent *)








(** ** The whole game *)








(** ** A side without a move *)

Lemma pick_blocked (g : Game.t) (row col : Z) :
  consistent g -> blocked (Game.board g) (Game.turn g) ->
  Game.valid_moves g = [] -> on_grid row col ->
  exists g' flag,
    Play.pick g row col = Ok (g', flag)
    /\ consistent g'
    /\ Game.board g' = Game.board g
    /\ Game.turn g' = Game.turn g
    /\ Game.valid_moves g' = [].
Proof.
  intros (Hwf & Hagree & Hd & Hsel) Hblocked Hvm Hrc.
  unfold Play.pick, Board.get_piece.
  destruct (grid_get_slot _ row col (proj1 Hwf) Hrc) as (x & Hx & Ex).
  rewrite Ex; cbn [bind].
  assert (Hsame : exists g' flag,
            Ok (g, false) = Ok (g', flag) /\ consistent g'
            /\ Game.board g' = Game.board g /\ Game.turn g' = Game.turn g
            /\ Game.valid_moves g' = []).
  { exists g, false. split; [reflexivity|]. split; [|auto].
    split; [exact Hwf|]. split; [exact Hagree|]. split; [exact Hd | exact Hsel]. }
  destruct x as [|p]; [exact Hsame|].
  destruct (color_eqb (Piece.color p) (Game.turn g)) eqn:Ecol; [|exact Hsame].
  apply color_eqb_eq in Ecol.
  destruct (proj2 Hwf row col p Hrc Hx) as [Er Ec].
  assert (Hp : piece_on_grid p) by (unfold piece_on_grid; rewrite Er, Ec; exact Hrc).
  assert (Hmine : In p (Board.get_all_pieces (Game.board g) (Game.turn g))).
  { rewrite <- Ecol. eapply slot_piece; eauto. }
  unfold Game.get_skip_status. cbn [Play.with_selection Game.board Game.turn].
  destruct (skip_status_loop_ok (Game.board g)
              (Board.get_all_pieces (Game.board g) (Game.turn g)) false)
    as (r & Erl & _).
  { intros p' Hp'. exists [], false. apply Hblocked. exact Hp'. }
  rewrite Erl; cbn [bind]. rewrite (Hblocked p Hmine); cbn [bind].
  destruct (r && negb false).
  - eexists. exists false. split; [reflexivity|].
    split; [|repeat split].
    split; [exact Hwf|]. split; [exact Hagree|]. split; [exact Hd|]. reflexivity.
  - eexists. exists true. split; [reflexivity|].
    split; [|repeat split].
    split; [exact Hwf|]. split; [exact Hagree|]. split; [exact Hd|].
    unfold selection_ok.
    cbn [Play.with_selection Game.selected Game.board Game.turn Game.valid_moves].
    split; [exact Hp|]. split; [rewrite Er, Ec; exact Hx|]. split; [exact Ecol|].
    exists false. apply Hblocked. exact Hmine.
Qed.

(** X23.  When no piece of the side to move has a move in a consistent
    game, no call of [select] on the grid changes the board or the turn,
    and no destination is ever offered: the game stays as it is. *)
Theorem blocked_side_freezes (g : Game.t) (row col : Z) :
  consistent g -> blocked (Game.board g) (Game.turn g) -> on_grid row col ->
  exists g' flag,
    Play.select g row col = Ok (g', flag)
    /\ consistent g'
    /\ Game.board g' = Game.board g
    /\ Game.turn g' = Game.turn g
    /\ Game.valid_moves g' = [].
Proof.
  intros Hg Hblocked Hrc.
  assert (H0 : consistent (Play.with_selection g None [])).
  { destruct Hg as (H1 & H2 & H3 & _).
    split; [exact H1|]. split; [exact H2|]. split; [exact H3 | reflexivity]. }
  unfold Play.select.
  change recursion_limit with (S (S (pred (pred recursion_limit)))).
  rewrite select_rec_step.
  destruct (Game.selected g) as [sel|] eqn:Esel.
  - assert (Hvm : Game.valid_moves g = []).
    { destruct Hg as (Hwf & _ & _ & Hsel). unfold selection_ok in Hsel.
      rewrite Esel in Hsel. destruct Hsel as (_ & Hs & Hcol & h & Ev).
      assert (Hmine : In sel (Board.get_all_pieces (Game.board g) (Game.turn g))).
      { rewrite <- Hcol. eapply slot_piece; eauto. }
      rewrite (Hblocked sel Hmine) in Ev. inversion Ev. reflexivity. }
    assert (Hmove : Play._move g row col = Ok (g, false)).
    { unfold Play._move, Board.get_piece.
      destruct (grid_get_slot _ row col (proj1 (proj1 Hg)) Hrc) as (x & Hx & Ex).
      rewrite Ex; cbn [bind]. rewrite Esel, Hvm. destruct x; reflexivity. }
    rewrite Hmove. cbn [bind negb]. rewrite select_rec_step.
    cbn [Play.with_selection Game.selected bind].
    destruct (pick_blocked (Play.with_selection g None []) row col H0 Hblocked
                eq_refl Hrc) as (g2 & fl2 & E2 & C2 & B2 & T2 & V2).
    rewrite E2; cbn [bind].
    assert (Hb2 : blocked (Game.board g2) (Game.turn g2)) by (rewrite B2, T2; exact Hblocked).
    destruct (pick_blocked g2 row col C2 Hb2 V2 Hrc) as (g' & fl & E & C & B & T & V).
    exists g', fl. split; [exact E|]. split; [exact C|].
    rewrite B, T, B2, T2. repeat split. exact V.
  - cbn [bind].
    assert (Hvm : Game.valid_moves g = []).
    { destruct Hg as (_ & _ & _ & Hsel). unfold selection_ok in Hsel.
      rewrite Esel in Hsel. exact Hsel. }
    exact (pick_blocked g row col Hg Hblocked Hvm Hrc).
Qed.

Lemma blocked_side_freezes_witness :
  let g := Game.mk blocked_black BLACK None [] [] 15 true 4 in
  exists g' flag,
    Play.select g 0 7 = Ok (g', flag)
    /\ Game.board g' = blocked_black /\ Game.turn g' = BLACK.
Proof.
  intros g.
  destruct (blocked_side_freezes g 0 7) as (g' & flag & E & _ & B & T & _).
  - split; [unfold g; cbn [Game.board]; concrete_well_formed|].
    split; [intros [|]; reflexivity|].
    split; [unfold recursion_limit; cbn; lia | reflexivity].
  - intros p Hp. cbn [g Game.board Game.turn] in *.
    assert (H : forallb (fun q => match Board.get_valid_moves blocked_black q with
                                  | Ok ([], false) => true
                                  | _ => false
                                  end)
                        (Board.get_all_pieces blocked_black BLACK) = true)
      by (vm_compute; reflexivity).
    rewrite forallb_forall in H. specialize (H p Hp).
    destruct (Board.get_valid_moves blocked_black p) as [[[|kv m] [|]]|];
      try discriminate. reflexivity.
  - unfold on_grid, ROWS, COLS; lia.
  - exists g', flag. split; [exact E|]. split; [exact B | exact T].
Defined.

(** ** The order of the scores *)









(** ** Cut-offs keep the score *)








(** ** The pieces of a color, each once *)

Lemma line_pieces_In (color : Color) (line : list cell) (a : Piece.t) :
  In a (flat_map (fun piece =>
                    match piece with
                    | Empty => []
                    | Occ p => if color_eqb (Piece.color p) color then [p] else []
                    end) line) ->
  In (Occ a) line.
Proof.
  rewrite in_flat_map. intros (x & Hx & Ha).
  destruct x as [|p]; [contradiction|].
  destruct (color_eqb (Piece.color p) color); [|contradiction].
  destruct Ha as [<- | []]. exact Hx.
Qed.

Lemma line_pieces_NoDup (color : Color) (line : list cell) :
  forall k,
    (forall j p, nth_error line j = Some (Occ p) -> Piece.col p = k + Z.of_nat j) ->
    NoDup (flat_map (fun piece =>
                       match piece with
                       | Empty => []
                       | Occ p => if color_eqb (Piece.color p) color then [p] else []
                       end) line).
Proof.
  induction line as [|x line IH]; intros k Hcol; [constructor|].
  cbn [flat_map]. apply NoDup_app.
  - destruct x as [|p]; [constructor|].
    destruct (color_eqb (Piece.color p) color); repeat constructor. intros [].
  - apply (IH (k + 1)). intros j p Hj.
    rewrite (Hcol (S j) p Hj). lia.
  - intros a Ha Hin. apply line_pieces_In in Hin.
    apply In_nth_error in Hin. destruct Hin as [j Hj].
    assert (E1 := Hcol (S j) a Hj).
    destruct x as [|p]; [contradiction|].
    destruct (color_eqb (Piece.color p) color); [|contradiction].
    destruct Ha as [<- | []].
    assert (E0 := Hcol O p eq_refl). lia.
Qed.

Lemma grid_pieces_NoDup (color : Color) (g : list (list cell)) :
  forall k,
    (forall i line j p,
       nth_error g i = Some line -> nth_error line j = Some (Occ p) ->
       Piece.row p = k + Z.of_nat i /\ Piece.col p = Z.of_nat j) ->
    NoDup (flat_map
             (fun line =>
                flat_map (fun piece =>
                            match piece with
                            | Empty => []
                            | Occ p => if color_eqb (Piece.color p) color then [p] else []
                            end) line) g).
Proof.
  induction g as [|line g IH]; intros k Hpos; [constructor|].
  cbn [flat_map]. apply NoDup_app.
  - apply (line_pieces_NoDup color line 0). intros j p Hj.
    destruct (Hpos O line j p eq_refl Hj) as [_ ->]. lia.
  - apply (IH (k + 1)). intros i l j p Hi Hj.
    destruct (Hpos (S i) l j p Hi Hj) as [-> ->]. split; lia.
  - intros a Ha Hin. apply line_pieces_In in Ha.
    apply In_nth_error in Ha. destruct Ha as [j Hj].
    destruct (Hpos O line j a eq_refl Hj) as [E0 _].
    apply in_flat_map in Hin. destruct Hin as (l & Hl & Hal).
    apply line_pieces_In in Hal.
    apply In_nth_error in Hl. destruct Hl as [i Hi].
    apply In_nth_error in Hal. destruct Hal as [j' Hj'].
    destruct (Hpos (S i) l j' a Hi Hj') as [E1 _]. lia.
Qed.

(** X25.  On a well-formed board [get_all_pieces] lists every piece once:
    the list has no repetition, and a piece is in it exactly when it
    stands on the grid, in the slot its row and column name, and has the
    given color. *)
Theorem get_all_pieces_exact (b : Board.t) (color : Color) :
  well_formed b ->
  NoDup (Board.get_all_pieces b color)
  /\ forall p,
       In p (Board.get_all_pieces b color)
       <-> piece_on_grid p
           /\ slot (Board.board b) (Piece.row p) (Piece.col p) = Some (Occ p)
           /\ Piece.color p = color.
Proof.
  intros Hwf. split.
  - unfold Board.get_all_pieces. apply (grid_pieces_NoDup color (Board.board b) 0).
    intros i line j p Hi Hj.
    destruct Hwf as [[Hlen Hall] Hc].
    assert (Hline : length line = 8%nat).
    { rewrite Forall_forall in Hall. apply Hall. eapply nth_error_In; eauto. }
    assert (Hi8 : (i < 8)%nat) by (rewrite <- Hlen; apply nth_error_Some; congruence).
    assert (Hj8 : (j < 8)%nat) by (rewrite <- Hline; apply nth_error_Some; congruence).
    destruct (Hc (Z.of_nat i) (Z.of_nat j) p) as [-> ->].
    + unfold on_grid, ROWS, COLS. lia.
    + unfold slot. rewrite !Nat2Z.id, Hi. exact Hj.
    + split; [lia | reflexivity].
  - intros p. split.
    + apply pieces_on_grid. exact Hwf.
    + intros (_ & Hs & <-). eapply slot_piece; eauto.
Qed.

Lemma get_all_pieces_exact_witness :
  NoDup (Board.get_all_pieces two_plies WHITE)
  /\ In (Piece.mk 4 3 WHITE false) (Board.get_all_pieces two_plies WHITE).
Proof.
  destruct (get_all_pieces_exact two_plies WHITE two_plies_well_formed) as [H1 H2].
  split; [exact H1|]. apply H2.
  split; [unfold piece_on_grid, on_grid, ROWS, COLS; simpl; lia|].
  split; [vm_compute; reflexivity | reflexivity].
Defined.

(** ** How far a man jumps *)

Lemma iota_length (start step : Z) (n : nat) : length (iota start step n) = n.
Proof.
  revert start. induction n as [|n IH]; intros start; simpl; auto.
Qed.

Lemma py_range_iota (start stop step : Z) :
  (step = 1 \/ step = -1) ->
  py_range start stop step = iota start step (length (py_range start stop step)).
Proof.
  intros [-> | ->]; unfold py_range; cbn [Z.ltb Z.compare];
    rewrite iota_length; reflexivity.
Qed.

Lemma chain_range (r step : Z) :
  (step = 1 \/ step = -1) ->
  (length (py_range (r + step)
             (if step =? -1 then Z.max (r - 3) (-1) else Z.min (r + 3) ROWS)%Z step)
   <= 2)%nat.
Proof.
  unfold ROWS. intros [-> | ->]; cbn [Z.eqb Pos.eqb]; unfold py_range;
    cbn [Z.ltb Z.compare]; rewrite iota_length.
  - rewrite Z.div_1_r. lia.
  - change (- -1) with 1. rewrite Z.div_1_r. lia.
Qed.

Lemma continue_chain_of_man (self : Board.searcher) (start step : Z) (color : Color)
    (c : Z) (sk : list Piece.t) (moves m : moves_t) :
  self_chain self -> (step = 1 \/ step = -1) ->
  Forall (chain_ok start step sk) moves ->
  Board.continue_chain self false step color (start + step) c moves = Ok m ->
  Forall (chain_ok start step sk) m.
Proof.
  intros Hself Hstep Hmoves H. unfold Board.continue_chain in H.
  assert (Hround : forall (d : moves_t) sd cc sk1 found,
            Forall (chain_ok start step sk) d ->
            dict_lookup d (start + step, c) = Ok sk1 ->
            self sd false (start + step + step)
                 (if step =? -1 then Z.max (start + step - 3) (-1)
                  else Z.min (start + step + 3) ROWS)
                 step color cc sk1 = Ok found ->
            Forall (chain_ok start step sk) (dict_update d found)).
  { intros d sd cc sk1 found Hd Hsk Hf.
    apply dict_update_Forall; [assumption|].
    apply dict_lookup_In in Hsk. rewrite Forall_forall in Hd.
    assert (H1 := Hd _ Hsk). unfold chain_ok in H1. cbn [fst snd] in H1.
    assert (Hlen : Z.of_nat (length sk1) = Z.of_nat (length sk) + 1).
    { destruct H1 as [(_ & _ & E) | [_ E]]; destruct Hstep as [-> | ->]; lia. }
    assert (Hfound := Hself _ _ _ _ _ _ _ _ Hstep (chain_range (start + step) step Hstep) Hf).
    eapply Forall_impl; [|exact Hfound].
    intros kv [(_ & E & _) | [L E]].
    - subst sk1. cbn [length] in Hlen. lia.
    - right. split; [lia|]. destruct Hstep as [-> | ->]; lia. }
  destruct (dict_lookup moves (start + step, c)) as [sk1|] eqn:L1; [|discriminate].
  cbn [bind] in H.
  destruct (self SLeft false (start + step + step) _ step color (c - 1) sk1)
    as [f1|] eqn:F1; [|discriminate].
  cbn [bind] in H.
  assert (M1 := Hround moves SLeft _ _ _ Hmoves L1 F1).
  destruct (dict_lookup (dict_update moves f1) (start + step, c)) as [sk2|] eqn:L2;
    [|discriminate].
  cbn [bind] in H.
  destruct (self SRight false (start + step + step) _ step color (c + 1) sk2)
    as [f2|] eqn:F2; [|discriminate].
  cbn [bind] in H. inversion H; subst.
  exact (Hround _ SRight _ _ _ M1 L2 F2).
Qed.

Lemma search_body_chain (self : Board.searcher) (b : Board.t) :
  self_chain self -> self_chain (Board.search_body self b).
Proof.
  intros Hself sd start stop step color c sk m Hstep Hlen H.
  unfold Board.search_body in H. rewrite (py_range_iota start stop step Hstep) in H.
  destruct (length (py_range start stop step)) as [|[|[|n]]]; [| | |lia];
    cbn [iota Board.search_loop] in H.
  - inversion H; constructor.
  - (* one row *)
    destruct (Board.off_board sd c); [inversion H; constructor|].
    destruct (Board.get_piece b start c) as [current|]; [|discriminate].
    cbn [bind] in H.
    destruct (cell_in current sk); [inversion H; constructor|].
    destruct current as [|q].
    + destruct sk as [|s sk]; cbn [nonempty negb andb dict_set] in H;
        inversion H; subst; [|constructor].
      constructor; [|constructor]. left. auto.
    + destruct (color_eqb (Piece.color q) color); inversion H; constructor.
  - (* two rows *)
    destruct (Board.off_board sd c); [inversion H; constructor|].
    destruct (Board.get_piece b start c) as [current|]; [|discriminate].
    cbn [bind] in H.
    destruct (cell_in current sk); [inversion H; constructor|].
    destruct current as [|q].
    + destruct sk as [|s sk]; cbn [nonempty negb andb dict_set] in H;
        inversion H; subst; [|constructor].
      constructor; [|constructor]. left. auto.
    + destruct (color_eqb (Piece.color q) color); [inversion H; constructor|].
      destruct (Board.off_board sd (Board.advance sd c)); [inversion H; constructor|].
      destruct (Board.get_piece b (start + step) (Board.advance sd c)) as [next|];
        [|discriminate].
      cbn [bind] in H.
      destruct (cell_in next sk); [inversion H; constructor|].
      destruct next as [|q'].
      * cbn [nonempty negb] in H. rewrite andb_false_r in H.
        eapply (continue_chain_of_man self start step color (Board.advance sd c) sk);
          [exact Hself | exact Hstep | | exact H].
        assert (Hentry : chain_ok start step sk
                           ((start + step, Board.advance sd c), q :: sk)).
        { right. cbn [fst snd length]. split; [lia|].
          destruct Hstep as [-> | ->]; lia. }
        destruct sk; cbn [nonempty dict_set app]; constructor; auto.
      * destruct (color_eqb (Piece.color q') color); inversion H; constructor.
Qed.

Lemma search_chain (fuel : nat) (b : Board.t) : self_chain (Board._search fuel b).
Proof.
  induction fuel as [|n IH].
  - intros sd start stop step color c sk m _ _ H. discriminate.
  - cbn [Board._search]. apply search_body_chain. exact IH.
Qed.

(** X26.  Every destination [get_valid_moves] gives a man lies in its
    direction of play, one row from the man for a plain step and two rows
    for each captured piece for a jump: a white man that captures n pieces
    lands 2n rows lower, a black man 2n rows higher. *)
Theorem man_jump_length (b : Board.t) (p : Piece.t) :
  grid_ok (Board.board b) -> piece_on_grid p -> Piece.king p = false ->
  exists m h,
    Board.get_valid_moves b p = Ok (m, h)
    /\ Forall (fun kv =>
                 fst (fst kv)
                 = Piece.row p
                   + (if color_eqb (Piece.color p) WHITE then -1 else 1)
                     * (match snd kv with
                        | [] => 1
                        | _ :: _ => 2 * Z.of_nat (length (snd kv))
                        end))
              m.
Proof.
  intros Hg Hp Hman.
  destruct (get_valid_moves_ok b p Hg Hp) as (m & h & E & _).
  exists m, h. split; [exact E|].
  assert (Hdir : forall sd step c found,
            (step = 1 \/ step = -1) ->
            Board._search recursion_limit b sd false (Piece.row p + step)
              (if step =? -1 then Z.max (Piece.row p - 3) (-1)
               else Z.min (Piece.row p + 3) ROWS)
              step (Piece.color p) c [] = Ok found ->
            Forall (fun kv =>
                      fst (fst kv)
                      = Piece.row p
                        + step * (match snd kv with
                                  | [] => 1
                                  | _ :: _ => 2 * Z.of_nat (length (snd kv))
                                  end)) found).
  { intros sd step c found Hstep Ef.
    assert (H := search_chain recursion_limit b _ _ _ _ _ _ _ _ Hstep
                   (chain_range (Piece.row p) step Hstep) Ef).
    eapply Forall_impl; [|exact H].
    intros [[r0 c0] l] Hkv. unfold chain_ok in Hkv. cbn [fst snd] in *.
    destruct Hkv as [(E1 & _ & E2) | [L Ek]]; [subst; lia|].
    destruct l as [|q l]; [cbn [length] in L; lia|].
    cbn [length] in *. destruct Hstep as [-> | ->]; lia. }
  unfold Board.get_valid_moves in E.
  destruct (Board.discover b p) as [all|] eqn:Ed; [|discriminate].
  cbn [bind] in E.
  assert (Hall : Forall (fun kv =>
                           fst (fst kv)
                           = Piece.row p
                             + (if color_eqb (Piece.color p) WHITE then -1 else 1)
                               * (match snd kv with
                                  | [] => 1
                                  | _ :: _ => 2 * Z.of_nat (length (snd kv))
                                  end)) all).
  { unfold Board.discover, Board._search_left, Board._search_right in Ed.
    rewrite Hman, !orb_false_r in Ed.
    change (Piece.row p - 1) with (Piece.row p + -1) in Ed.
    destruct (Piece.color p) eqn:Ecol; cbn [color_eqb] in Ed |- *.
    - destruct (Board._search recursion_limit b SLeft _ _ _ _ _ _ _) as [f1|] eqn:F1;
        [|discriminate].
      cbn [bind] in Ed.
      destruct (Board._search recursion_limit b SRight _ _ _ _ _ _ _) as [f2|] eqn:F2;
        [|discriminate].
      cbn [bind] in Ed. inversion Ed; subst.
      apply dict_update_Forall; [apply dict_update_Forall; [constructor|]|].
      + exact (Hdir SLeft (-1) (Piece.col p - 1) f1 (or_intror eq_refl) F1).
      + exact (Hdir SRight (-1) (Piece.col p + 1) f2 (or_intror eq_refl) F2).
    - cbn [bind] in Ed.
      destruct (Board._search recursion_limit b SLeft _ _ _ _ _ _ _) as [f1|] eqn:F1;
        [|discriminate].
      cbn [bind] in Ed.
      destruct (Board._search recursion_limit b SRight _ _ _ _ _ _ _) as [f2|] eqn:F2;
        [|discriminate].
      cbn [bind] in Ed. inversion Ed; subst.
      apply dict_update_Forall; [apply dict_update_Forall; [constructor|]|].
      + exact (Hdir SLeft 1 (Piece.col p - 1) f1 (or_introl eq_refl) F1).
      + exact (Hdir SRight 1 (Piece.col p + 1) f2 (or_introl eq_refl) F2). }
  destruct (nonempty (Board.capturing all)); inversion E; subst; [|exact Hall].
  rewrite Forall_forall in *. intros kv Hkv. apply capturing_In in Hkv.
  apply Hall. tauto.
Qed.

Lemma man_jump_length_witness :
  exists m h,
    Board.get_valid_moves two_plies (Piece.mk 4 3 WHITE false) = Ok (m, h)
    /\ Forall (fun kv => fst (fst kv) = 4 - 2 * Z.of_nat (length (snd kv))) m.
Proof.
  destruct (man_jump_length two_plies (Piece.mk 4 3 WHITE false))
    as (m & h & E & H).
  - apply two_plies_well_formed.
  - unfold piece_on_grid, on_grid, ROWS, COLS; simpl; lia.
  - reflexivity.
  - exists m, h. split; [exact E|].
    assert (E' : Board.get_valid_moves two_plies (Piece.mk 4 3 WHITE false)
                 = Ok ([((2, 5), [Piece.mk 3 4 BLACK false])], true))
      by (vm_compute; reflexivity).
    rewrite E' in E. inversion E; subst.
    repeat constructor.
Defined.

(** ** Moves stay on the squares of one color *)

Lemma diag_shift (s s' : Z) (m : moves_t) :
  (exists j, s' - s = 2 * j) -> Forall (diag_ok s') m -> Forall (diag_ok s) m.
Proof.
  intros [j Hj] H. eapply Forall_impl; [|exact H].
  intros kv [k Hk]. exists (k + j). lia.
Qed.

Lemma continue_chain_diag (self : Board.searcher) (k : bool) (step : Z)
    (color : Color) (r c s : Z) (moves m : moves_t) :
  self_diag self -> (step = 1 \/ step = -1) ->
  (exists j, r + c - s = 2 * j) ->
  Forall (diag_ok s) moves ->
  Board.continue_chain self k step color r c moves = Ok m ->
  Forall (diag_ok s) m.
Proof.
  intros Hself Hstep [j Hj] Hmoves H. unfold Board.continue_chain in H.
  assert (Hround : forall (d : moves_t) sd kk st stop cc sk1 found,
            (st = 1 \/ st = -1) -> (cc = c - 1 \/ cc = c + 1) ->
            Forall (diag_ok s) d ->
            self sd kk (r + st) stop st color cc sk1 = Ok found ->
            Forall (diag_ok s) (dict_update d found)).
  { intros d sd kk st stop cc sk1 found Hst Hcc Hd Hf.
    apply dict_update_Forall; [assumption|].
    apply (diag_shift s (r + st + cc)); [|exact (Hself _ _ _ _ _ _ _ _ _ Hst Hf)].
    destruct Hst as [-> | ->]; destruct Hcc as [-> | ->];
      [exists j | exists (j + 1) | exists (j - 1) | exists j]; lia. }
  assert (Hback : - step = 1 \/ - step = -1) by (destruct Hstep; lia).
  destruct (dict_lookup moves (r, c)) as [sk1|]; [|discriminate].
  cbn [bind] in H.
  destruct (self SLeft k (r + step) _ step color (c - 1) sk1) as [f1|] eqn:F1;
    [|discriminate].
  cbn [bind] in H.
  assert (M1 := Hround moves _ _ _ _ _ _ _ Hstep (or_introl eq_refl) Hmoves F1).
  destruct (dict_lookup (dict_update moves f1) (r, c)) as [sk2|]; [|discriminate].
  cbn [bind] in H.
  destruct (self SRight k (r + step) _ step color (c + 1) sk2) as [f2|] eqn:F2;
    [|discriminate].
  cbn [bind] in H.
  assert (M2 := Hround _ _ _ _ _ _ _ _ Hstep (or_intror eq_refl) M1 F2).
  destruct k; [|inversion H; subst; assumption].
  destruct (dict_lookup (dict_update (dict_update moves f1) f2) (r, c)) as [sk3|];
    [|discriminate].
  cbn [bind] in H.
  change (r - step) with (r + - step) in H.
  destruct (self SLeft true (r + - step) _ (- step) color (c - 1) sk3) as [f3|] eqn:F3;
    [|discriminate].
  cbn [bind] in H.
  assert (M3 := Hround _ _ _ _ _ _ _ _ Hback (or_introl eq_refl) M2 F3).
  destruct (dict_lookup (dict_update (dict_update (dict_update moves f1) f2) f3) (r, c))
    as [sk4|]; [|discriminate].
  cbn [bind] in H.
  destruct (self SRight true (r + - step) _ (- step) color (c + 1) sk4) as [f4|] eqn:F4;
    [|discriminate].
  cbn [bind] in H. inversion H; subst.
  exact (Hround _ _ _ _ _ _ _ _ Hback (or_intror eq_refl) M3 F4).
Qed.

Lemma search_loop_diag (self : Board.searcher) (b : Board.t) (sd : side) (k : bool)
    (step : Z) (color : Color) (sk : list Piece.t) (s : Z) :
  self_diag self -> (step = 1 \/ step = -1) ->
  forall n r c last m,
    (exists j, r + c - s = 2 * j) ->
    Board.search_loop self b sd k step color sk (iota r step n) c last = Ok m ->
    Forall (diag_ok s) m.
Proof.
  intros Hself Hstep. induction n as [|n IH]; intros r c last m Hrc H.
  - inversion H; constructor.
  - cbn [iota Board.search_loop] in H.
    destruct (Board.off_board sd c); [inversion H; constructor|].
    destruct (Board.get_piece b r c) as [current|]; [|discriminate].
    cbn [bind] in H.
    destruct (cell_in current sk); [inversion H; constructor|].
    destruct current as [|q].
    + destruct (nonempty sk && negb (nonempty last)); [inversion H; constructor|].
      assert (Hmoves : Forall (diag_ok s)
                (if nonempty sk then dict_set [] (r, c) (last ++ sk)
                 else dict_set [] (r, c) last)).
      { destruct (nonempty sk); cbn [dict_set]; constructor; auto; exact Hrc. }
      destruct (nonempty last).
      * eapply continue_chain_diag; eauto.
      * inversion H; subst. exact Hmoves.
    + destruct (color_eqb (Piece.color q) color); [inversion H; constructor|].
      apply (IH (r + step) (Board.advance sd c) [q] m); [|exact H].
      destruct Hrc as [j Hj].
      destruct Hstep as [-> | ->]; destruct sd; unfold Board.advance;
        [exists j | exists (j + 1) | exists (j - 1) | exists j]; lia.
Qed.

Lemma search_diag (fuel : nat) (b : Board.t) : self_diag (Board._search fuel b).
Proof.
  induction fuel as [|n IH].
  - intros sd k start stop step color c sk m _ H. discriminate.
  - intros sd k start stop step color c sk m Hstep H.
    cbn [Board._search] in H. unfold Board.search_body in H.
    rewrite (py_range_iota start stop step Hstep) in H.
    apply (search_loop_diag (Board._search n b) b sd k step color sk (start + c)
             IH Hstep (length (py_range start stop step)) start c [] m);
      [exists 0; lia | exact H].
Qed.

(** X27.  Every destination [get_valid_moves] gives a piece lies on a
    square of the color the piece stands on: the sum of row and column of
    the destination has the parity of the sum of row and column of the
    piece, for plain steps and for every landing of a chain of captures. *)
Theorem moves_keep_square_color (b : Board.t) (p : Piece.t) :
  grid_ok (Board.board b) -> piece_on_grid p ->
  exists m h,
    Board.get_valid_moves b p = Ok (m, h)
    /\ Forall (fun kv =>
                 Z.odd (fst (fst kv) + snd (fst kv))
                 = Z.odd (Piece.row p + Piece.col p))
              m.
Proof.
  intros Hg Hp.
  destruct (get_valid_moves_ok b p Hg Hp) as (m & h & E & _).
  exists m, h. split; [exact E|].
  assert (Hdir : forall sd step stop c found,
            (step = 1 \/ step = -1) ->
            (c = Piece.col p - 1 \/ c = Piece.col p + 1) ->
            Board._search recursion_limit b sd (Piece.king p) (Piece.row p + step)
              stop step (Piece.color p) c [] = Ok found ->
            Forall (diag_ok (Piece.row p + Piece.col p)) found).
  { intros sd step stop c found Hstep Hc Ef.
    apply (diag_shift _ (Piece.row p + step + c));
      [|exact (search_diag recursion_limit b _ _ _ _ _ _ _ _ _ Hstep Ef)].
    destruct Hstep as [-> | ->]; destruct Hc as [-> | ->];
      [exists 0 | exists 1 | exists (-1) | exists 0]; lia. }
  unfold Board.get_valid_moves in E.
  destruct (Board.discover b p) as [all|] eqn:Ed; [|discriminate].
  cbn [bind] in E.
  assert (Hall : Forall (diag_ok (Piece.row p + Piece.col p)) all).
  { unfold Board.discover, Board._search_left, Board._search_right in Ed.
    change (Piece.row p - 1) with (Piece.row p + -1) in Ed.
    assert (Hfirst : exists d,
              Forall (diag_ok (Piece.row p + Piece.col p)) d
              /\ (if color_eqb (Piece.color p) BLACK || Piece.king p then
                    found <- Board._search recursion_limit b SLeft (Piece.king p)
                               (Piece.row p + 1) (Z.min (Piece.row p + 3) ROWS) 1
                               (Piece.color p) (Piece.col p - 1) [] ;;
                    let moves := dict_update d found in
                    found <- Board._search recursion_limit b SRight (Piece.king p)
                               (Piece.row p + 1) (Z.min (Piece.row p + 3) ROWS) 1
                               (Piece.color p) (Piece.col p + 1) [] ;;
                    Ok (dict_update moves found)
                  else Ok d) = Ok all).
    { destruct (color_eqb (Piece.color p) WHITE || Piece.king p).
      - destruct (Board._search recursion_limit b SLeft _ _ _ _ _ _ _) as [f1|] eqn:F1;
          [|discriminate].
        cbn [bind] in Ed.
        destruct (Board._search recursion_limit b SRight _ _ _ _ _ _ _) as [f2|] eqn:F2;
          [|discriminate].
        cbn [bind] in Ed. eexists. split; [|exact Ed].
        apply dict_update_Forall; [apply dict_update_Forall; [constructor|]|].
        + exact (Hdir SLeft (-1) _ _ f1 (or_intror eq_refl) (or_introl eq_refl) F1).
        + exact (Hdir SRight (-1) _ _ f2 (or_intror eq_refl) (or_intror eq_refl) F2).
      - cbn [bind] in Ed. exists []. split; [constructor | exact Ed]. }
    destruct Hfirst as (d & Hd & H'). clear Ed.
    destruct (color_eqb (Piece.color p) BLACK || Piece.king p).
    - destruct (Board._search recursion_limit b SLeft _ _ _ _ _ _ _) as [f3|] eqn:F3;
        [|discriminate].
      cbn [bind] in H'.
      destruct (Board._search recursion_limit b SRight _ _ _ _ _ _ _) as [f4|] eqn:F4;
        [|discriminate].
      cbn [bind] in H'. inversion H'; subst.
      apply dict_update_Forall; [apply dict_update_Forall; [assumption|]|].
      + exact (Hdir SLeft 1 _ _ f3 (or_introl eq_refl) (or_introl eq_refl) F3).
      + exact (Hdir SRight 1 _ _ f4 (or_introl eq_refl) (or_intror eq_refl) F4).
    - inversion H'; subst. assumption. }
  assert (Hm : Forall (diag_ok (Piece.row p + Piece.col p)) m).
  { destruct (nonempty (Board.capturing all)); inversion E; subst; [|exact Hall].
    rewrite Forall_forall in *. intros kv Hkv. apply capturing_In in Hkv.
    apply Hall. tauto. }
  eapply Forall_impl; [|exact Hm].
  intros [[r c] l] [k Hk]. cbn [fst snd] in *.
  replace (r + c) with (Piece.row p + Piece.col p + 2 * k) by lia.
  apply Z.odd_add_mul_2.
Qed.

Lemma moves_keep_square_color_witness :
  exists m h,
    Board.get_valid_moves two_plies (Piece.mk 4 3 WHITE false) = Ok (m, h)
    /\ Forall (fun kv => Z.odd (fst (fst kv) + snd (fst kv)) = true) m.
Proof.
  destruct (moves_keep_square_color two_plies (Piece.mk 4 3 WHITE false))
    as (m & h & E & H).
  - apply two_plies_well_formed.
  - unfold piece_on_grid, on_grid, ROWS, COLS; simpl; lia.
  - exists m, h. split; [exact E | exact H].
Defined.
